(** * Key management of encrypted datasets: lib/libzfs/libzfs_crypto.c

    A shallow embedding of the user-key handling of libzfs (key material
    acquisition and validation, key derivation with PBKDF2, the
    create / clone / rewrap property rules, key loading with retry and the
    recursive loader), followed by the properties proved about it.

    Conventions.
    - A byte is a [Z] in [0, 256); a buffer is a [list Z].
    - [uint64_t] property values (encryption, keyformat, keystatus, ...) are
      kept as [Z] with the enumeration constants of the headers.
    - A C function returning an [int] error code and writing through
      out-parameters becomes a computation in the monad [M]: it threads the
      [world] (terminal, files, library handle, storage layer) and ends in
      [Ok v], in [Err errno], or in [Undef] when the C code would read or
      write outside a buffer. *)

From Stdlib Require Import ZArith List Bool Lia.
From Stdlib Require String Ascii.
Import ListNotations String.StringSyntax.
Local Open Scope Z_scope.

Abbreviation string := String.string.
Delimit Scope string_scope with string.
Local Open Scope string_scope.

(** ** Bytes and buffers *)

Definition byte_of (x : Z) : Z := x mod 256.

Definition xor_bytes (a b : list Z) : list Z :=
  map (fun p => Z.lxor (fst p) (snd p)) (combine a b).

Definition zeros (n : nat) : list Z := repeat 0 n.

(** Big-endian and little-endian images of fixed-width integers, as they lie
    in memory after [htobe32] and [LE_64]. *)
Definition BE32 (x : Z) : list Z :=
  [ byte_of (Z.shiftr x 24); byte_of (Z.shiftr x 16);
    byte_of (Z.shiftr x 8); byte_of x ].

Definition LE64 (x : Z) : list Z :=
  [ byte_of x; byte_of (Z.shiftr x 8); byte_of (Z.shiftr x 16);
    byte_of (Z.shiftr x 24); byte_of (Z.shiftr x 32); byte_of (Z.shiftr x 40);
    byte_of (Z.shiftr x 48); byte_of (Z.shiftr x 56) ].

Definition bytes_of_string (s : string) : list Z :=
  map (fun c => Z.of_nat (Ascii.nat_of_ascii c)) (String.list_ascii_of_string s).

(** ** HMAC-SHA1

    Modelled from the spec: HMAC-SHA1 (FIPS 180-4, RFC 2104), the
    pseudo-random function the spec names for PBKDF2.  The function that
    computes it for the library, [crypto_mac] of the ICP module, is not
    under the source of this file and stays a parameter of the library; the
    functions of this module are what it is compared with. *)
Module SHA1.

Definition w32 (x : Z) : Z := x mod 2 ^ 32.
Definition add32 (x y : Z) : Z := w32 (x + y).
Definition rotl (n x : Z) : Z :=
  w32 (Z.lor (Z.shiftl x n) (Z.shiftr x (32 - n))).
Definition not32 (x : Z) : Z := Z.lxor x (2 ^ 32 - 1).

Definition word_of_bytes (b : list Z) : Z :=
  fold_left (fun acc x => acc * 256 + x) b 0.

Fixpoint words_of_bytes (n : nat) (b : list Z) : list Z :=
  match n with
  | O => []
  | S n' => word_of_bytes (firstn 4 b) :: words_of_bytes n' (skipn 4 b)
  end.

(** Padding: a 1 bit, zeros up to 56 mod 64, the bit length on 64 bits. *)
Definition pad (msg : list Z) : list Z :=
  let len := Z.of_nat (length msg) in
  let k := (55 - len) mod 64 in
  msg ++ [128] ++ zeros (Z.to_nat k)
      ++ BE32 (Z.shiftr (8 * len) 32) ++ BE32 (8 * len).

(** Message schedule: [rev_w] holds W(t-1), W(t-2), ... *)
Fixpoint schedule (n : nat) (rev_w : list Z) : list Z :=
  match n with
  | O => rev_w
  | S n' =>
      let x := Z.lxor (Z.lxor (nth 2 rev_w 0) (nth 7 rev_w 0))
                      (Z.lxor (nth 13 rev_w 0) (nth 15 rev_w 0)) in
      schedule n' (rotl 1 x :: rev_w)
  end.

Definition f_k (t : nat) (b c d : Z) : Z * Z :=
  if (t <? 20)%nat then
    (Z.lor (Z.land b c) (Z.land (not32 b) d), 0x5A827999)
  else if (t <? 40)%nat then
    (Z.lxor (Z.lxor b c) d, 0x6ED9EBA1)
  else if (t <? 60)%nat then
    (Z.lor (Z.lor (Z.land b c) (Z.land b d)) (Z.land c d), 0x8F1BBCDC)
  else
    (Z.lxor (Z.lxor b c) d, 0xCA62C1D6).

Definition state : Type := Z * Z * Z * Z * Z.

Fixpoint rounds (t : nat) (ws : list Z) (s : state) : state :=
  match ws with
  | [] => s
  | w :: ws' =>
      let '(a, b, c, d, e) := s in
      let '(f, k) := f_k t b c d in
      let tmp := add32 (add32 (add32 (add32 (rotl 5 a) f) e) k) w in
      rounds (S t) ws' (tmp, a, rotl 30 b, c, d)
  end.

Definition compress (h : state) (blk : list Z) : state :=
  let ws := rev (schedule 64 (rev (words_of_bytes 16 blk))) in
  let '(h0, h1, h2, h3, h4) := h in
  let '(a, b, c, d, e) := rounds 0 ws h in
  (add32 h0 a, add32 h1 b, add32 h2 c, add32 h3 d, add32 h4 e).

Fixpoint blocks (n : nat) (h : state) (m : list Z) : state :=
  match n with
  | O => h
  | S n' => blocks n' (compress h (firstn 64 m)) (skipn 64 m)
  end.

Definition init : state :=
  (0x67452301, 0xEFCDAB89, 0x98BADCFE, 0x10325476, 0xC3D2E1F0).

Definition digest (msg : list Z) : list Z :=
  let m := pad msg in
  let '(a, b, c, d, e) := blocks (length m / 64) init m in
  BE32 a ++ BE32 b ++ BE32 c ++ BE32 d ++ BE32 e.

Definition block_size : nat := 64.

(** RFC 2104. *)
Definition hmac (key msg : list Z) : list Z :=
  let k0 := if (block_size <? length key)%nat then digest key else key in
  let k := k0 ++ zeros (block_size - length k0) in
  let ipad := map (fun x => Z.lxor x 0x36) k in
  let opad := map (fun x => Z.lxor x 0x5c) k in
  digest (opad ++ digest (ipad ++ msg)).

End SHA1.

(** ** Constants

    Modelled from the spec: the constants of headers that are not under the
    source of this file (errno.h, sys/fs/zfs.h, sys/zio.h, sys/dsl_crypt.h,
    sys/sha1.h).  The spec gives the lengths (wrapping key 32 bytes, SHA1
    block 20 bytes) and names the enumerations; the numbers of the
    enumeration members are those of the headers, and the proofs use only
    that different members have different numbers. *)

Definition ENOENT : Z := 2.
Definition EIO : Z := 5.
Definition ENOMEM : Z := 12.
Definition EACCES : Z := 13.
Definition EBUSY : Z := 16.
Definition EEXIST : Z := 17.
Definition EINVAL : Z := 22.

Definition WRAPPING_KEY_LEN : Z := 32.
Definition SHA1_DIGEST_LEN : Z := 20.

Definition ZFS_KEYFORMAT_NONE : Z := 0.
Definition ZFS_KEYFORMAT_RAW : Z := 1.
Definition ZFS_KEYFORMAT_HEX : Z := 2.
Definition ZFS_KEYFORMAT_PASSPHRASE : Z := 3.

Definition ZIO_CRYPT_INHERIT : Z := 0.
Definition ZIO_CRYPT_ON : Z := 1.
Definition ZIO_CRYPT_OFF : Z := 2.

Definition ZFS_KEYSTATUS_NONE : Z := 0.
Definition ZFS_KEYSTATUS_UNAVAILABLE : Z := 1.
Definition ZFS_KEYSTATUS_AVAILABLE : Z := 2.

Definition ZPROP_SRC_DEFAULT : Z := 2.
Definition ZPROP_SRC_LOCAL : Z := 8.
Definition ZPROP_SRC_INHERITED : Z := 16.

(** The constants and the enumeration that libzfs_crypto.c defines itself. *)
Definition MIN_PASSPHRASE_LEN : Z := 8.
Definition MAX_PASSPHRASE_LEN : Z := 64.
Definition MAX_KEY_PROMPT_ATTEMPTS : Z := 3.

Inductive zfs_keylocation_t : Type :=
| ZFS_KEYLOCATION_NONE
| ZFS_KEYLOCATION_PROMPT
| ZFS_KEYLOCATION_URI.

(** ** Property lists

    Modelled from the spec: the property list ([nvlist_t] of libnvpair, not
    under the source of this file), a list of named values in which names
    are unique: adding a pair replaces a pair of the same name, and a lookup
    asks for a name and a type. *)

Inductive nvvalue : Type :=
| NvUint64 (v : Z)
| NvString (s : string).

Definition nvlist : Type := list (string * nvvalue).

Fixpoint nvlist_lookup (l : nvlist) (name : string) : option nvvalue :=
  match l with
  | [] => None
  | (n, v) :: l' => if String.eqb n name then Some v else nvlist_lookup l' name
  end.

Definition nvlist_lookup_uint64 (l : nvlist) (name : string) : option Z :=
  match nvlist_lookup l name with
  | Some (NvUint64 v) => Some v
  | _ => None
  end.

Definition nvlist_lookup_string (l : nvlist) (name : string) : option string :=
  match nvlist_lookup l name with
  | Some (NvString s) => Some s
  | _ => None
  end.

Definition nvlist_exists (l : nvlist) (name : string) : bool :=
  match nvlist_lookup l name with Some _ => true | None => false end.

Definition nvlist_remove (l : nvlist) (name : string) : nvlist :=
  filter (fun p => negb (String.eqb (fst p) name)) l.

Definition nvlist_add (l : nvlist) (name : string) (v : nvvalue) : nvlist :=
  nvlist_remove l name ++ [(name, v)].

(** [zfs_prop_to_name] of the five properties used here. *)
Definition PROP_ENCRYPTION : string := "encryption".
Definition PROP_KEYFORMAT : string := "keyformat".
Definition PROP_KEYLOCATION : string := "keylocation".
Definition PROP_PBKDF2_SALT : string := "pbkdf2salt".
Definition PROP_PBKDF2_ITERS : string := "pbkdf2iters".

(** ** Dataset handles

    What [zfs_prop_get_int], [zfs_prop_get], [zfs_parent_name] and
    [encryption_feature_is_enabled] answer for an open handle. *)

Record zfs_handle : Type := mk_zfs_handle {
  zfs_name : string;
  zh_feature_enabled : bool;      (* encryption_feature_is_enabled(zpool_hdl) *)
  zh_encryption : Z;              (* ZFS_PROP_ENCRYPTION *)
  zh_keyformat : Z;               (* ZFS_PROP_KEYFORMAT *)
  zh_keystatus : Z;               (* ZFS_PROP_KEYSTATUS *)
  zh_pbkdf2salt : Z;              (* ZFS_PROP_PBKDF2_SALT *)
  zh_pbkdf2iters : Z;             (* ZFS_PROP_PBKDF2_ITERS *)
  zh_keylocation_ret : Z;         (* return value of zfs_prop_get(KEYLOCATION) *)
  zh_keylocation : string;
  zh_keylocation_srctype : Z;
  zh_keylocation_src : string;
  zh_parent_name : option string  (* zfs_parent_name; None when it fails *)
}.

(** A dataset with the children [zfs_iter_filesystems] enumerates. *)
#[local] Unset Elimination Schemes.
Inductive dataset : Type :=
| Dataset (zhp : zfs_handle) (children : list dataset).
#[local] Set Elimination Schemes.

(** ** The world the library runs in *)

Inductive out_event : Type :=
| OutPrompt (again newkey : bool) (keyformat : Z) (fsname : option string)
| OutNewline
| OutKeysLoaded (loaded attempted : Z).

Inductive ioctl_call : Type :=
| IocLoadKey (name : string) (noop : bool) (wkey : list Z)
| IocChangeKey (name : string) (props : option nvlist) (wkey : option (list Z)).

Record world : Type := mk_world {
  stdin_tty : bool;                          (* isatty(fileno(stdin)) *)
  stdin_data : list Z;                       (* bytes not yet read from stdin *)
  fs_files : list (string * list Z);         (* files fopen can open *)
  fopen_errno : Z;                           (* errno of a failed fopen *)
  getline_errno : Z;                         (* errno seen when getline fails *)
  rand64 : list Z;                           (* values random_get_bytes will give *)
  random_errno : Z;                          (* its return value once exhausted *)
  default_pbkdf2_iters : Z;                  (* DEFAULT_PBKDF2_ITERATIONS *)
  hdl_desc : string;                         (* last zfs_error_aux message *)
  stdout : list out_event;                   (* printed, oldest first *)
  make_dataset_handle : string -> option zfs_handle;
  zfs_open : string -> option dataset;
  zfs_valid_proplist : nvlist -> option nvlist;
  lzc_load_key : string -> bool -> list Z -> Z;
  lzc_change_key : string -> option nvlist -> option (list Z) -> Z;
  ioctls : list ioctl_call                   (* storage-layer calls, oldest first *)
}.

Inductive result (A : Type) : Type :=
| Ok (a : A)
| Err (errno : Z)
| Undef.
Arguments Ok {A} a.
Arguments Err {A} errno.
Arguments Undef {A}.

(** State and error monad: [ST S A] runs on a state [S]; the effects done
    before an error stay done. *)
Definition ST (S A : Type) : Type := S -> result A * S.

Definition ret {S A} (a : A) : ST S A := fun s => (Ok a, s).
Definition fail {S A} (e : Z) : ST S A := fun s => (Err e, s).
Definition undef {S A} : ST S A := fun s => (Undef, s).
Definition bind {S A B} (c : ST S A) (k : A -> ST S B) : ST S B :=
  fun s =>
    match c s with
    | (Ok a, s') => k a s'
    | (Err e, s') => (Err e, s')
    | (Undef, s') => (Undef, s')
    end.

Notation "x <- c ;; k" := (bind c (fun x => k))
  (at level 61, c at next level, right associativity).
Notation "' pat <- c ;; k" := (bind c (fun x => match x with pat => k end))
  (at level 61, pat pattern, c at next level, right associativity).
Notation "c ;;; k" := (bind c (fun _ => k))
  (at level 61, right associativity).

Definition get {S A} (f : S -> A) : ST S A := fun s => (Ok (f s), s).
Definition modify {S} (f : S -> S) : ST S unit := fun s => (Ok tt, f s).
Definition lift {S A} (r : result A) : ST S A := fun s => (r, s).

(** Computations on the world alone, and on the world together with the
    property list [props] that the caller handed in and that is updated in
    place. *)
Definition M (A : Type) : Type := ST world A.
Definition MP (A : Type) : Type := ST (world * nvlist) A.

Definition liftW {A} (c : M A) : MP A :=
  fun s => let (r, w') := c (fst s) in (r, (w', snd s)).

Definition get_props : MP nvlist := get snd.
Definition set_props (f : nvlist -> nvlist) : MP unit :=
  modify (fun s => (fst s, f (snd s))).

Definition set_stdin (d : list Z) (w : world) : world :=
  mk_world (stdin_tty w) d (fs_files w) (fopen_errno w) (getline_errno w)
    (rand64 w) (random_errno w) (default_pbkdf2_iters w) (hdl_desc w)
    (stdout w) (make_dataset_handle w) (zfs_open w) (zfs_valid_proplist w)
    (lzc_load_key w) (lzc_change_key w) (ioctls w).

Definition set_rand64 (r : list Z) (w : world) : world :=
  mk_world (stdin_tty w) (stdin_data w) (fs_files w) (fopen_errno w)
    (getline_errno w) r (random_errno w) (default_pbkdf2_iters w) (hdl_desc w)
    (stdout w) (make_dataset_handle w) (zfs_open w) (zfs_valid_proplist w)
    (lzc_load_key w) (lzc_change_key w) (ioctls w).

Definition set_desc (d : string) (w : world) : world :=
  mk_world (stdin_tty w) (stdin_data w) (fs_files w) (fopen_errno w)
    (getline_errno w) (rand64 w) (random_errno w) (default_pbkdf2_iters w) d
    (stdout w) (make_dataset_handle w) (zfs_open w) (zfs_valid_proplist w)
    (lzc_load_key w) (lzc_change_key w) (ioctls w).

Definition add_stdout (e : out_event) (w : world) : world :=
  mk_world (stdin_tty w) (stdin_data w) (fs_files w) (fopen_errno w)
    (getline_errno w) (rand64 w) (random_errno w) (default_pbkdf2_iters w)
    (hdl_desc w) (stdout w ++ [e]) (make_dataset_handle w) (zfs_open w)
    (zfs_valid_proplist w) (lzc_load_key w) (lzc_change_key w) (ioctls w).

Definition add_ioctl (c : ioctl_call) (w : world) : world :=
  mk_world (stdin_tty w) (stdin_data w) (fs_files w) (fopen_errno w)
    (getline_errno w) (rand64 w) (random_errno w) (default_pbkdf2_iters w)
    (hdl_desc w) (stdout w) (make_dataset_handle w) (zfs_open w)
    (zfs_valid_proplist w) (lzc_load_key w) (lzc_change_key w) (ioctls w ++ [c]).

(** [zfs_error_aux]: records the message in the library handle.  A message
    is kept as its format string, without the arguments. *)
Definition zfs_error_aux (msg : string) : M unit := modify (set_desc msg).

(** An error exit that sets the auxiliary message first. *)
Definition fail_aux {A} (e : Z) (msg : string) : M A :=
  zfs_error_aux msg ;;; fail e.

(** ** Key derivation *)

Definition isxdigit (c : Z) : bool :=
  ((48 <=? c) && (c <=? 57)) || ((97 <=? c) && (c <=? 102))
  || ((65 <=? c) && (c <=? 70)).

(** Value of a hexadecimal digit, as [sscanf] with [%x] reads it. *)
Definition hex_value (c : Z) : Z :=
  if (48 <=? c) && (c <=? 57) then c - 48
  else if (97 <=? c) && (c <=? 102) then c - 87
  else c - 55.

(** [buf[i]]; reading past the end of the buffer is undefined. *)
Definition load_byte (buf : list Z) (i : Z) : result Z :=
  if i <? 0 then Undef
  else match nth_error buf (Z.to_nat i) with
       | Some b => Ok b
       | None => Undef
       end.

Definition rbind {A B} (r : result A) (k : A -> result B) : result B :=
  match r with
  | Ok a => k a
  | Err e => Err e
  | Undef => Undef
  end.

Notation "x <-- r ;; k" := (rbind r (fun x => k))
  (at level 61, r at next level, right associativity).

(** [for (i = 0; i < hexlen; i += 2)]: [n] pairs are left, [i] is the index
    of the next one.  With both characters hexadecimal digits, [sscanf] with
    [%02x] reads exactly the two of them and returns 1. *)
Fixpoint hex_key_to_raw_loop (n : nat) (hex : list Z) (i : Z) (out : list Z)
  : result (list Z) :=
  match n with
  | O => Ok out
  | S n' =>
      hi <-- load_byte hex i ;;
      if negb (isxdigit hi) then Err EINVAL
      else
        lo <-- load_byte hex (i + 1) ;;
        if negb (isxdigit lo) then Err EINVAL
        else
          let c := 16 * hex_value hi + hex_value lo in
          hex_key_to_raw_loop n' hex (i + 2) (out ++ [c])
  end.

Definition hex_key_to_raw (hex : list Z) (hexlen : Z) : result (list Z) :=
  hex_key_to_raw_loop (Z.to_nat ((hexlen + 1) / 2)) hex 0 [].

(** [memmove(dst + off, src, length src)] inside the buffer [dst]. *)
Definition memmove (dst : list Z) (off : Z) (src : list Z) : result (list Z) :=
  if (0 <=? off) && (off + Z.of_nat (length src) <=? Z.of_nat (length dst)) then
    Ok (firstn (Z.to_nat off) dst ++ src
          ++ skipn (Z.to_nat off + length src) dst)
  else Undef.

(** The first [n] bytes of a buffer; reading more than it holds is undefined. *)
Definition load_bytes (buf : list Z) (n : Z) : result (list Z) :=
  if (0 <=? n) && (n <=? Z.of_nat (length buf)) then Ok (firstn (Z.to_nat n) buf)
  else Undef.

(** [strlen]: undefined when the buffer holds no NUL. *)
Fixpoint strlen (buf : list Z) : result Z :=
  match buf with
  | [] => Undef
  | b :: buf' => if b =? 0 then Ok 0 else n <-- strlen buf' ;; Ok (n + 1)
  end.

Section Library.

(** [crypto_mac] for the SHA1-HMAC mechanism: key, data, and the digest
    written to [out_data], or [None] when it does not return
    [CRYPTO_SUCCESS]. *)
Variable crypto_mac : list Z -> list Z -> option (list Z).

(** [for (iter = 0; iter < iterations; iter++)] of [pbkdf2]: [n] rounds are
    left, the state is ([hmac_key], [block]). *)
Fixpoint pbkdf2_rounds (n : nat) (key : list Z) (saltlen iter : Z)
         (hmac_key block : list Z) : result (list Z * list Z) :=
  match n with
  | O => Ok (hmac_key, block)
  | S n' =>
      let in_len := if 0 <? iter then SHA1_DIGEST_LEN else saltlen + 4 in
      in_data <-- load_bytes hmac_key in_len ;;
      match crypto_mac key in_data with
      | None => Err EIO
      | Some hmacresult =>
          if negb (Z.of_nat (length hmacresult) =? SHA1_DIGEST_LEN) then Undef
          else
            (* HMAC key now becomes the output of this iteration *)
            hmac_key' <-- memmove hmac_key 0 hmacresult ;;
            (* XOR this iteration's result with the current block *)
            let block' := xor_bytes block hmacresult in
            pbkdf2_rounds n' key saltlen (iter + 1) hmac_key' block'
      end
  end.

(** [for (blockptr = 0; blockptr < outputlen; blockptr += SHA1_DIGEST_LEN)]:
    [n] blocks are left. *)
Fixpoint pbkdf2_blocks (n : nat) (key salt : list Z) (iterations : Z)
         (outputlen blockptr : Z) (hmac_key output : list Z)
  : result (list Z) :=
  match n with
  | O => Ok output
  | S n' =>
      let saltlen := Z.of_nat (length salt) in
      let i := BE32 (1 + blockptr / SHA1_DIGEST_LEN) in
      hmac_key1 <-- memmove hmac_key 0 salt ;;
      hmac_key2 <-- memmove hmac_key1 saltlen i ;;
      (* block initializes to zeroes (no XOR) *)
      let block := zeros (Z.to_nat SHA1_DIGEST_LEN) in
      st <-- pbkdf2_rounds (Z.to_nat iterations) key saltlen 0
               hmac_key2 block ;;
      let '(hmac_key3, block') := st in
      output' <--
        (if outputlen <? blockptr + SHA1_DIGEST_LEN then
           memmove output blockptr
             (firstn (Z.to_nat (outputlen - blockptr)) block')
         else memmove output blockptr block') ;;
      pbkdf2_blocks n' key salt iterations outputlen
        (blockptr + SHA1_DIGEST_LEN) hmac_key3 output'
  end.

(** [pbkdf2]: [passphrase] and [salt] are the buffers, [passphraselen] the
    key length handed to the HMAC; the result is the [outputlen] bytes of
    [output].  The key is read once, for the context template.  [blockptr]
    is 32 bits wide: the model is that of an [outputlen] below 2^32 - 20. *)
Definition pbkdf2 (passphrase : list Z) (passphraselen : Z) (salt : list Z)
           (iterations : Z) (outputlen : Z) : result (list Z) :=
  let saltlen := Z.of_nat (length salt) in
  (* initialize output *)
  let output := zeros (Z.to_nat outputlen) in
  let hmac_key_len :=
    if SHA1_DIGEST_LEN <? saltlen then (saltlen + 4) mod 2 ^ 16
    else SHA1_DIGEST_LEN in
  let hmac_key := zeros (Z.to_nat hmac_key_len) in
  key <-- load_bytes passphrase passphraselen ;;
  pbkdf2_blocks
    (Z.to_nat ((outputlen + SHA1_DIGEST_LEN - 1) / SHA1_DIGEST_LEN))
    key salt iterations outputlen 0 hmac_key output.

Definition derive_key (format iters : Z) (key_material : list Z)
           (key_material_len : Z) (salt : Z) : M (list Z) :=
  if format =? ZFS_KEYFORMAT_RAW then
    lift (load_bytes key_material WRAPPING_KEY_LEN)
  else if format =? ZFS_KEYFORMAT_HEX then
    match hex_key_to_raw key_material (WRAPPING_KEY_LEN * 2) with
    | Ok key => ret key
    | Err e => fail_aux e "Invalid hex key provided."
    | Undef => undef
    end
  else if format =? ZFS_KEYFORMAT_PASSPHRASE then
    let salt_bytes := LE64 salt in
    match (len <-- strlen key_material ;;
           pbkdf2 key_material len salt_bytes iters WRAPPING_KEY_LEN) with
    | Ok key => ret key
    | Err e => fail_aux e "Failed to generate key from passphrase."
    | Undef => undef
    end
  else fail EINVAL.



(** ** Key material acquisition *)

(** An open stream: standard input, whose unread bytes are in the world,
    or a file with its unread bytes.  Files are regular files, never
    terminals. *)
Inductive FILE : Type :=
| Stdin
| Fp (unread : list Z).

Definition isatty (fd : FILE) : M bool :=
  match fd with
  | Stdin => get stdin_tty
  | Fp _ => ret false
  end.

Definition unread_of (fd : FILE) : M (list Z) :=
  match fd with
  | Stdin => get stdin_data
  | Fp d => ret d
  end.

Definition advance (fd : FILE) (rest : list Z) : M FILE :=
  match fd with
  | Stdin => modify (set_stdin rest) ;;; ret Stdin
  | Fp _ => ret (Fp rest)
  end.

(** [getline]: the bytes up to and including the first newline, and what
    is left of the stream. *)
Fixpoint getline_split (s : list Z) : list Z * list Z :=
  match s with
  | [] => ([], [])
  | b :: s' =>
      if b =? 10 then ([b], s')
      else let (l, r) := getline_split s' in (b :: l, r)
  end.

Definition zfs_prop_parse_keylocation (str : string) : zfs_keylocation_t :=
  if String.eqb "prompt" str then ZFS_KEYLOCATION_PROMPT
  else if (8 <? String.length str)%nat && String.prefix "file:///" str
  then ZFS_KEYLOCATION_URI
  else ZFS_KEYLOCATION_NONE.

(** [get_key_material_raw]: the buffer, its length [len_out], and the
    stream after the read.  Terminal modes and signal handlers are restored
    on every path and leave no trace here; no signal arrives. *)
Definition get_key_material_raw (fd : FILE) (fsname : option string)
           (keyformat : Z) (again newkey : bool) : M (list Z * Z * FILE) :=
  tty <- isatty fd ;;
  (* prompt for the key *)
  (if tty then modify (add_stdout (OutPrompt again newkey keyformat fsname))
   else ret tt) ;;;
  data <- unread_of fd ;;
  (* read the key material *)
  r <- (if negb (keyformat =? ZFS_KEYFORMAT_RAW) then
          let (line, rest) := getline_split data in
          match line with
          | [] =>
              (* getline fails: ret = errno, *len_out stays 0 *)
              e <- get getline_errno ;;
              ret (inr e)
          | _ :: _ =>
              fd' <- advance fd rest ;;
              ret (inl (line ++ [0], Z.of_nat (length line), fd'))
          end
        else
          (* attempt to read 33 bytes *)
          let n := Z.to_nat (WRAPPING_KEY_LEN + 1) in
          fd' <- advance fd (skipn n data) ;;
          ret (inl (firstn n data, Z.of_nat (length (firstn n data)), fd'))) ;;
  res <- match r with
         | inr e => ret (inr e)
         | inl (buf, bytes, fd') =>
             (* trim the ending newline if it exists *)
             last <- lift (load_byte buf (bytes - 1)) ;;
             if last =? 10 then
               buf' <- lift (memmove buf (bytes - 1) [0]) ;;
               ret (inl (buf', bytes - 1, fd'))
             else ret (inl (buf, bytes, fd'))
         end ;;
  (* out: print the newline that was not echo'd *)
  (if tty then modify (add_stdout OutNewline) else ret tt) ;;;
  match res with
  | inl v => ret v
  | inr e => if e =? 0 then ret ([], 0, fd) else fail e
  end.

(** The [switch (keyformat)] of [get_key_material]: basic validation of
    the key material. *)
Definition get_key_material_validate (keyformat : Z) (km : list Z)
           (kmlen : Z) : M unit :=
  if keyformat =? ZFS_KEYFORMAT_RAW then
    if kmlen <? WRAPPING_KEY_LEN then
      fail_aux EINVAL "Raw key too short (expected %u)."
    else if WRAPPING_KEY_LEN <? kmlen then
      fail_aux EINVAL "Raw key too long (expected %u)."
    else ret tt
  else if keyformat =? ZFS_KEYFORMAT_HEX then
    if kmlen <? WRAPPING_KEY_LEN * 2 then
      fail_aux EINVAL "Hex key too short (expected %u)."
    else if WRAPPING_KEY_LEN * 2 <? kmlen then
      fail_aux EINVAL "Hex key too long (expected %u)."
    else
      (* check for invalid hex digits *)
      digits <- lift (load_bytes km (WRAPPING_KEY_LEN * 2)) ;;
      if forallb isxdigit digits then ret tt
      else fail_aux EINVAL "Invalid hex character detected."
  else if keyformat =? ZFS_KEYFORMAT_PASSPHRASE then
    if MAX_PASSPHRASE_LEN <? kmlen then
      fail_aux EINVAL "Passphrase too long (max 64)."
    else if kmlen <? MIN_PASSPHRASE_LEN then
      fail_aux EINVAL "Passphrase too short (min 8)."
    else ret tt
  else ret tt.

Fixpoint bytes_eqb (a b : list Z) : bool :=
  match a, b with
  | [], [] => true
  | x :: a', y :: b' => (x =? y) && bytes_eqb a' b'
  | _, _ => false
  end.

Fixpoint lookup_file (fs : list (string * list Z)) (path : string)
  : option (list Z) :=
  match fs with
  | [] => None
  | (p, d) :: fs' => if String.eqb p path then Some d else lookup_file fs' path
  end.

(** [&keylocation[7]]: the path of a [file://] location. *)
Definition uri_path (keylocation : string) : string :=
  String.substring 7 (String.length keylocation - 7) keylocation.

(** What [get_key_material] leaves in [*can_retry_out] on every path. *)
Definition can_retry_of (keylocation : string) (w : world) : bool :=
  match zfs_prop_parse_keylocation keylocation with
  | ZFS_KEYLOCATION_PROMPT => stdin_tty w
  | _ => false
  end.

(** [get_key_material] without its [can_retry_out]: the key material and
    its length. *)
Definition get_key_material_km (do_verify newkey : bool) (keyformat : Z)
           (keylocation : string) (fsname : option string)
  : M (list Z * Z) :=
  (* open the appropriate file descriptor *)
  fd <- match zfs_prop_parse_keylocation keylocation with
        | ZFS_KEYLOCATION_PROMPT =>
            tty <- isatty Stdin ;;
            (* raw keys cannot be entered on the terminal *)
            if tty && (keyformat =? ZFS_KEYFORMAT_RAW) then
              fail_aux EINVAL "Cannot enter raw keys on the terminal"
            else ret Stdin
        | ZFS_KEYLOCATION_URI =>
            fs <- get fs_files ;;
            match lookup_file fs (uri_path keylocation) with
            | Some d => ret (Fp d)
            | None =>
                e <- get fopen_errno ;;
                fail_aux e "Failed to open key material file"
            end
        | ZFS_KEYLOCATION_NONE => fail_aux EINVAL "Invalid keylocation."
        end ;;
  (* fetch the key material into the buffer *)
  ' (km, kmlen, fd1) <-
    get_key_material_raw fd fsname keyformat false newkey ;;
  (* do basic validation of the key material *)
  get_key_material_validate keyformat km kmlen ;;;
  tty <- isatty fd ;;
  if do_verify && tty then
    ' (km2, kmlen2, _) <-
      get_key_material_raw fd1 fsname keyformat true newkey ;;
    if negb (kmlen2 =? kmlen) then
      fail_aux EINVAL "Provided keys do not match."
    else
      a <- lift (load_bytes km kmlen) ;;
      b <- lift (load_bytes km2 kmlen) ;;
      if negb (bytes_eqb a b) then
        fail_aux EINVAL "Provided keys do not match."
      else ret (km, kmlen)
  else ret (km, kmlen).

(** [get_key_material]: the outcome together with [*can_retry_out]. *)
Definition get_key_material (do_verify newkey : bool) (keyformat : Z)
           (keylocation : string) (fsname : option string) (w : world)
  : result (list Z * Z) * bool * world :=
  let (r, w') := get_key_material_km do_verify newkey keyformat keylocation
                   fsname w in
  (r, can_retry_of keylocation w, w').

(** ** Property rules for create and clone *)

Definition random_get_bytes : M Z :=
  r <- get rand64 ;;
  match r with
  | v :: r' => modify (set_rand64 r') ;;; ret (v mod 2 ^ 64)
  | [] => e <- get random_errno ;; fail e
  end.

Definition on_error {S A} (c : ST S A) (h : ST S unit) : ST S A :=
  fun s =>
    match c s with
    | (Err e, s') => (Err e, snd (h s'))
    | r => r
    end.

(** [populate_create_encryption_params_nvlists]: the wrapping key; the
    salt and the iteration count are added to [props]. *)
Definition populate_create_encryption_params_nvlists
           (fsname : option string) (newkey : bool) (keyformat : Z)
           (keylocation : string) : MP (list Z) :=
  (* get key material from keyformat and keylocation *)
  ' (key_material, key_material_len) <-
    liftW (get_key_material_km true newkey keyformat keylocation fsname) ;;
  ' (iters, salt) <-
    (if keyformat =? ZFS_KEYFORMAT_PASSPHRASE then
       (* always generate a new salt *)
       salt <- on_error (liftW random_get_bytes)
                 (liftW (zfs_error_aux "Failed to generate salt.")) ;;
       set_props (fun p => nvlist_add p PROP_PBKDF2_SALT (NvUint64 salt)) ;;;
       props <- get_props ;;
       match nvlist_lookup_uint64 props PROP_PBKDF2_ITERS with
       | Some iters => ret (iters, salt)
       | None =>
           iters <- liftW (get default_pbkdf2_iters) ;;
           set_props (fun p =>
                        nvlist_add p PROP_PBKDF2_ITERS (NvUint64 iters)) ;;;
           ret (iters, salt)
       end
     else
       (* check that pbkdf2iters was not specified by the user *)
       props <- get_props ;;
       match nvlist_lookup_uint64 props PROP_PBKDF2_ITERS with
       | Some _ =>
           liftW (fail_aux EINVAL
             "Cannot specify pbkdf2iters with a non-passphrase keyformat.")
       | None => ret (0, 0)
       end) ;;
  (* derive a key from the key material *)
  liftW (derive_key keyformat iters key_material key_material_len salt).

Definition proplist_has_encryption_props (props : nvlist) : bool :=
  match nvlist_lookup_uint64 props PROP_ENCRYPTION with
  | Some intval => negb (intval =? ZIO_CRYPT_OFF)
  | None => false
  end
  || match nvlist_lookup_string props PROP_KEYLOCATION with
     | Some strval => negb (String.eqb strval "none")
     | None => false
     end
  || match nvlist_lookup_uint64 props PROP_KEYFORMAT with
     | Some _ => true
     | None => false
     end
  || match nvlist_lookup_uint64 props PROP_PBKDF2_ITERS with
     | Some _ => true
     | None => false
     end.

(** [zfs_crypto_is_encryption_root]: the return value and [*enc_root]. *)
Definition zfs_crypto_is_encryption_root (zhp : zfs_handle) : Z * bool :=
  (* if the dataset isn't encrypted, just return *)
  if zh_encryption zhp =? ZIO_CRYPT_OFF then (0, false)
  else if negb (zh_keylocation_ret zhp =? 0) then
    (zh_keylocation_ret zhp, false)
  (* check if the keylocation was inheritted *)
  else if zh_keylocation_srctype zhp =? ZPROP_SRC_INHERITED then (0, false)
  else (0, true).

Definition opt_default {A} (d : A) (o : option A) : A :=
  match o with Some a => a | None => d end.

Definition is_some {A} (o : option A) : bool :=
  match o with Some _ => true | None => false end.

(** The feature test shared by both branches of [zfs_crypto_create]:
    without the feature, encryption properties are refused and anything
    else is accepted at once.  [Some r] is that early exit. *)
Definition create_feature_gate (enabled : bool) (props : nvlist)
  : option (MP (option (list Z) * Z)) :=
  if enabled then None
  else if proplist_has_encryption_props props then
    Some (liftW (fail_aux EINVAL "Encryption feature not enabled."))
  else Some (ret (None, 0)).

(** [zfs_crypto_create]: [*wkeydata_out] and [*wkeylen_out]. *)
Definition zfs_crypto_create (parent_name : option string)
           (pool_props : nvlist) : MP (option (list Z) * Z) :=
  props <- get_props ;;
  (* lookup crypt from props *)
  let local_crypt := is_some (nvlist_lookup_uint64 props PROP_ENCRYPTION) in
  let crypt :=
    opt_default ZIO_CRYPT_INHERIT (nvlist_lookup_uint64 props PROP_ENCRYPTION) in
  (* lookup key location and format from props *)
  let keyformat :=
    opt_default ZFS_KEYFORMAT_NONE (nvlist_lookup_uint64 props PROP_KEYFORMAT) in
  let keylocation := nvlist_lookup_string props PROP_KEYLOCATION in
  gate <- match parent_name with
          | Some pname =>
              (* get a reference to parent dataset *)
              mk <- liftW (get make_dataset_handle) ;;
              match mk pname with
              | None => liftW (fail_aux ENOENT "Failed to lookup parent.")
              | Some pzhp =>
                  (* Lookup parent's crypt *)
                  ret (zh_encryption pzhp,
                       create_feature_gate (zh_feature_enabled pzhp) props)
              end
          | None =>
              (* special case for root dataset *)
              ret (ZIO_CRYPT_OFF,
                   create_feature_gate
                     (nvlist_exists pool_props "feature@encryption") props)
          end ;;
  let '(pcrypt, early) := gate in
  match early with
  | Some exit => exit
  | None =>
      (* Check for encryption being explicitly truned off *)
      if (crypt =? ZIO_CRYPT_OFF) && negb (pcrypt =? ZIO_CRYPT_OFF) then
        liftW (fail_aux EINVAL
          "Invalid encryption value. Dataset must be encrypted.")
      else
        (* Get the inherited encryption property if we don't have it locally *)
        let crypt := if local_crypt then crypt else pcrypt in
        if crypt =? ZIO_CRYPT_OFF then
          if proplist_has_encryption_props props then
            liftW (fail_aux EINVAL
              "Encryption must be turned on to set encryption properties.")
          else ret (None, 0)
        else if (pcrypt =? ZIO_CRYPT_OFF) && negb (is_some keylocation)
                && (keyformat =? ZFS_KEYFORMAT_NONE) then
          liftW (fail_aux EINVAL "Keyformat required for new encryption root.")
        else if is_some keylocation && (keyformat =? ZFS_KEYFORMAT_NONE) then
          liftW (fail_aux EINVAL "Keyformat required for new encryption root.")
        else
          (* default to prompt if no keylocation is specified *)
          keylocation' <-
            (if negb (keyformat =? ZFS_KEYFORMAT_NONE)
                && negb (is_some keylocation) then
               set_props (fun p =>
                 nvlist_add p PROP_KEYLOCATION (NvString "prompt")) ;;;
               ret (Some "prompt")
             else ret keylocation) ;;
          match keylocation' with
          | Some kl =>
              wkey <- populate_create_encryption_params_nvlists None false
                        keyformat kl ;;
              ret (Some wkey, WRAPPING_KEY_LEN)
          | None => ret (None, 0)
          end
  end.

(** [zfs_crypto_clone]: [*wkeydata_out] and [*wkeylen_out]. *)
Definition zfs_crypto_clone (origin_zhp : zfs_handle) (parent_name : string)
  : MP (option (list Z) * Z) :=
  mk <- liftW (get make_dataset_handle) ;;
  match mk parent_name with
  | None => liftW (fail_aux ENOENT "Failed to lookup parent.")
  | Some pzhp =>
      (* Lookup parent's crypt *)
      let pcrypt := zh_encryption pzhp in
      let ocrypt := zh_encryption origin_zhp in
      props <- get_props ;;
      (* lookup keylocation from props *)
      let keyformat :=
        opt_default ZFS_KEYFORMAT_NONE
          (nvlist_lookup_uint64 props PROP_KEYFORMAT) in
      let keylocation := nvlist_lookup_string props PROP_KEYLOCATION in
      (* encryption should not be set since it must match the origin *)
      if is_some (nvlist_lookup_uint64 props PROP_ENCRYPTION) then
        liftW (fail_aux EINVAL
          "Encryption may not be specified during cloning.")
      (* all children of encrypted parents must be encrypted *)
      else if negb (pcrypt =? ZIO_CRYPT_OFF) && (ocrypt =? ZIO_CRYPT_OFF) then
        liftW (fail_aux EINVAL
          "Cannot create unencrypted clone as child of encrypted parent.")
      else if ocrypt =? ZIO_CRYPT_OFF then
        if proplist_has_encryption_props props then
          liftW (fail_aux EINVAL
            "Encryption properties may not be set for an unencrypted clone.")
        else ret (None, 0)
      else if is_some keylocation && (keyformat =? ZFS_KEYFORMAT_NONE) then
        liftW (fail_aux EINVAL "Keyformat required for new encryption root.")
      else
        (* default to prompt if no keylocation is specified *)
        keylocation' <-
          (if negb (keyformat =? ZFS_KEYFORMAT_NONE)
              && negb (is_some keylocation) then
             set_props (fun p =>
               nvlist_add p PROP_KEYLOCATION (NvString "prompt")) ;;;
             ret (Some "prompt")
           else ret keylocation) ;;
        (* The origin's wrapping key must be loaded *)
        if negb (zh_keystatus origin_zhp =? ZFS_KEYSTATUS_AVAILABLE) then
          liftW (fail_aux EACCES "Origin wrapping key must be loaded.")
        else if (pcrypt =? ZIO_CRYPT_OFF)
                && (keyformat =? ZFS_KEYFORMAT_NONE) then
          liftW (fail_aux EINVAL "Keyformat required.")
        else
          (* prepare the key if needed *)
          match keylocation' with
          | Some kl =>
              wkey <- populate_create_encryption_params_nvlists None false
                        keyformat kl ;;
              ret (Some wkey, WRAPPING_KEY_LEN)
          | None => ret (None, 0)
          end
  end.

(** ** Loading a key *)

(** The message [zfs_crypto_load_key] attaches to a failure of
    [lzc_load_key]. *)
Definition load_key_ioctl_message (e : Z) : M unit :=
  if e =? EINVAL then zfs_error_aux "Invalid parameters provided for %s."
  else if e =? EEXIST then zfs_error_aux "Key already loaded for '%s'."
  else if e =? EBUSY then zfs_error_aux "'%s' is busy."
  else if e =? EACCES then zfs_error_aux "Incorrect key provided for '%s'."
  else ret tt.

(** One pass from [try_again:] to the [error:] label of
    [zfs_crypto_load_key]: the outcome, [can_retry], [correctible], and
    whether [key_data] is left pointing to a freed buffer.
    [key_data_freed] tells that it already does on entry; freeing it
    again is undefined. *)
Definition load_key_pass (zhp : zfs_handle) (noop : bool) (keyformat : Z)
           (keylocation : string) (iters salt : Z) (key_data_freed : bool)
           (w : world) : result unit * bool * bool * bool * world :=
  (* get key material from key format and location *)
  let '(r, can_retry, w1) :=
    get_key_material false false keyformat keylocation
      (Some (zfs_name zhp)) w in
  match r with
  | Undef => (Undef, can_retry, true, key_data_freed, w1)
  | Err e =>
      if key_data_freed then (Undef, can_retry, true, true, w1)
      else (Err e, can_retry, true, false, w1)
  | Ok (key_material, key_material_len) =>
      (* derive a key from the key material *)
      match derive_key keyformat iters key_material key_material_len
              salt w1 with
      | (Undef, w2) => (Undef, can_retry, true, false, w2)
      | (Err e, w2) => (Err e, can_retry, true, false, w2)
      | (Ok key_data, w2) =>
          (* pass the wrapping key and noop flag to the ioctl *)
          let e := lzc_load_key w2 (zfs_name zhp) noop key_data in
          let w3 := add_ioctl (IocLoadKey (zfs_name zhp) noop key_data) w2 in
          if e =? 0 then (Ok tt, can_retry, false, false, w3)
          else (Err e, can_retry, e =? EACCES, true,
                snd (load_key_ioctl_message e w3))
      end
  end.

(** The passes of [zfs_crypto_load_key] from [try_again:] on, with the
    counter [attempts] of the C code.  [fuel] bounds the number of passes
    and is never used up from [zfs_crypto_load_key] (see
    [load_key_attempt_fuel_enough]). *)
Fixpoint load_key_attempt (fuel : nat) (zhp : zfs_handle) (noop : bool)
         (keyformat : Z) (keylocation : string) (iters salt : Z)
         (attempts : Z) (key_data_freed : bool) (w : world)
  : result unit * world :=
  let '(res, can_retry, correctible, freed, w') :=
    load_key_pass zhp noop keyformat keylocation iters salt
      key_data_freed w in
  match res with
  | Ok _ => (Ok tt, w')
  | Undef => (Undef, w')
  | Err e =>
      if can_retry && correctible && (attempts <=? MAX_KEY_PROMPT_ATTEMPTS)
      then
        match fuel with
        | O => (Undef, w')
        | S fuel' =>
            load_key_attempt fuel' zhp noop keyformat keylocation iters salt
              (attempts + 1) freed w'
        end
      else (Err e, w')
  end.

Definition zfs_crypto_load_key (zhp : zfs_handle) (noop : bool)
           (alt_keylocation : option string) : M unit :=
  (* check that encryption is enabled for the pool *)
  if negb (zh_feature_enabled zhp) then
    fail_aux EINVAL "Encryption feature not enabled."
  (* Fetch the keyformat. Check that the dataset is encrypted. *)
  else if zh_keyformat zhp =? ZFS_KEYFORMAT_NONE then
    fail_aux EINVAL "'%s' is not encrypted."
  (* Fetch the key location. Check that we are working with an
     encryption root. *)
  else if negb (zh_keylocation_ret zhp =? 0) then
    fail_aux (zh_keylocation_ret zhp) "Failed to get keylocation for '%s'."
  else if zh_keylocation_srctype zhp =? ZPROP_SRC_INHERITED then
    fail_aux EINVAL "Keys must be loaded for encryption root of '%s' (%s)."
  else
    let keylocation := opt_default (zh_keylocation zhp) alt_keylocation in
    (* check that the key is unloaded unless this is a noop *)
    if negb noop && (zh_keystatus zhp =? ZFS_KEYSTATUS_AVAILABLE) then
      fail_aux EEXIST "Key already loaded for '%s'."
    else
      (* passphrase formats require a salt and pbkdf2_iters property *)
      let passphrase := zh_keyformat zhp =? ZFS_KEYFORMAT_PASSPHRASE in
      let salt := if passphrase then zh_pbkdf2salt zhp else 0 in
      let iters := if passphrase then zh_pbkdf2iters zhp else 0 in
      load_key_attempt (Z.to_nat (MAX_KEY_PROMPT_ATTEMPTS + 2)) zhp noop
        (zh_keyformat zhp) keylocation iters salt 0 false.

(** ** The recursive loader *)

Record loadkey_cbdata : Type := mk_cbdata {
  cb_numfailed : Z;
  cb_numattempted : Z
}.

Definition wrap64 (x : Z) : Z := x mod 2 ^ 64.

(** The part of [load_keys_cb] before [out:], on one handle. *)
Definition load_keys_visit (zhp : zfs_handle) (cb : loadkey_cbdata)
  : M loadkey_cbdata :=
  let keystatus := zh_keystatus zhp in
  (* only attempt to load keys for encryption roots *)
  let (r, is_encroot) := zfs_crypto_is_encryption_root zhp in
  if negb (r =? 0) || negb is_encroot then ret cb
  (* don't attempt to load already loaded keys *)
  else if keystatus =? ZFS_KEYSTATUS_AVAILABLE then ret cb
  else
    (* Attempt to load the key. Record status in cb. *)
    let cb1 := mk_cbdata (cb_numfailed cb) (wrap64 (cb_numattempted cb + 1)) in
    fun w =>
      match zfs_crypto_load_key zhp false None w with
      | (Ok _, w') => (Ok cb1, w')
      | (Err _, w') =>
          (Ok (mk_cbdata (wrap64 (cb_numfailed cb1 + 1)) (cb_numattempted cb1)),
           w')
      | (Undef, w') => (Undef, w')
      end.

(** [load_keys_cb]: the handle, then its children through
    [zfs_iter_filesystems]; it always returns 0. *)
Fixpoint load_keys_cb (d : dataset) (cb : loadkey_cbdata)
  : M loadkey_cbdata :=
  match d with
  | Dataset zhp children =>
      cb1 <- load_keys_visit zhp cb ;;
      (fix iter (l : list dataset) (cb : loadkey_cbdata)
         : M loadkey_cbdata :=
         match l with
         | [] => ret cb
         | c :: l' => cb' <- load_keys_cb c cb ;; iter l' cb'
         end) children cb1
  end.

Definition zfs_crypto_attempt_load_keys (fsname : string) : M unit :=
  open <- get zfs_open ;;
  match open fsname with
  | None => fail ENOENT
  | Some zhp =>
      cb <- load_keys_cb zhp (mk_cbdata 0 0) ;;
      modify (add_stdout
                (OutKeysLoaded (wrap64 (cb_numattempted cb - cb_numfailed cb))
                   (cb_numattempted cb))) ;;;
      if negb (cb_numfailed cb =? 0) then fail (-1) else ret tt
  end.

(** ** Changing the wrapping key *)

(** [zfs_name_to_prop] on the names the loop of
    [zfs_crypto_verify_rewrap_nvlist] lets through. *)
Definition rewrap_prop_allowed (propname : string) : bool :=
  String.eqb propname PROP_PBKDF2_ITERS || String.eqb propname PROP_KEYFORMAT
  || String.eqb propname PROP_KEYLOCATION.

(** [zfs_crypto_verify_rewrap_nvlist]: when [zfs_valid_proplist] refuses
    the list the C code returns an uninitialised value. *)
Definition zfs_crypto_verify_rewrap_nvlist (props : nvlist) : M nvlist :=
  if forallb (fun p => rewrap_prop_allowed (fst p)) props then
    valid <- get zfs_valid_proplist ;;
    match valid props with
    | Some new_props => ret new_props
    | None => undef
    end
  else
    fail_aux EINVAL
      "Only keyformat, keylocation and pbkdf2iters may be set with this command.".

Definition change_key_ioctl_message (e : Z) : M unit :=
  if e =? EINVAL then zfs_error_aux "Invalid properties for key change."
  else if e =? EACCES then zfs_error_aux "Key is not currently loaded."
  else ret tt.

(** The [inheritkey] branch of [zfs_crypto_rewrap]. *)
Definition rewrap_inherit_checks (zhp : zfs_handle) : M unit :=
  (* check that zhp is an encryption root *)
  let (r, is_encroot) := zfs_crypto_is_encryption_root zhp in
  if negb (r =? 0) || negb is_encroot then
    fail_aux EINVAL
      "Key inheritting can only be performed on encryption roots."
  else
    (* get the parent's name *)
    match zh_parent_name zhp with
    | None => fail_aux EINVAL "Root dataset cannot inherit key."
    | Some parent_name =>
        (* get a handle to the parent *)
        mk <- get make_dataset_handle ;;
        match mk parent_name with
        | None => fail_aux ENOENT "Failed to lookup parent."
        | Some pzhp =>
            (* parent must be encrypted *)
            if zh_encryption pzhp =? ZIO_CRYPT_OFF then
              fail_aux EINVAL "Parent must be encrypted."
            (* check that the parent's key is loaded *)
            else if zh_keystatus pzhp =? ZFS_KEYSTATUS_UNAVAILABLE then
              fail_aux EACCES "Parent key must be loaded."
            else ret tt
        end
    end.

(** The branch of [zfs_crypto_rewrap] that collects a new key: the
    property list handed to the storage layer and the new wrapping key. *)
Definition rewrap_new_key (zhp : zfs_handle) (raw_props : nvlist)
  : M (nvlist * list Z) :=
  (* validate the provided properties *)
  props <- zfs_crypto_verify_rewrap_nvlist raw_props ;;
  let keyformat :=
    opt_default ZFS_KEYFORMAT_NONE (nvlist_lookup_uint64 props PROP_KEYFORMAT) in
  let keyformat :=
    if keyformat =? ZFS_KEYFORMAT_NONE then zh_keyformat zhp else keyformat in
  keylocation <-
    match nvlist_lookup_string props PROP_KEYLOCATION with
    | Some kl => ret kl
    | None =>
        if negb (zh_keylocation_ret zhp =? 0) then
          fail_aux (zh_keylocation_ret zhp)
            "Failed to get existing keylocation property."
        else ret (zh_keylocation zhp)
    end ;;
  (* fetch the new wrapping key and associated properties *)
  fun w =>
    match populate_create_encryption_params_nvlists
            (Some (zfs_name zhp)) true keyformat keylocation (w, props) with
    | (Ok wkey, (w', props')) => (Ok (props', wkey), w')
    | (Err e, (w', _)) => (Err e, w')
    | (Undef, (w', _)) => (Undef, w')
    end.

Definition zfs_crypto_rewrap (zhp : zfs_handle) (raw_props : nvlist)
           (inheritkey : bool) : M unit :=
  (* check that encryption is enabled for the pool *)
  if negb (zh_feature_enabled zhp) then
    fail_aux EINVAL "Encryption feature not enabled."
  (* get crypt from dataset *)
  else if zh_encryption zhp =? ZIO_CRYPT_OFF then
    fail_aux EINVAL "Dataset not encrypted."
  else
    args <- (if negb inheritkey then
               ' (props, wkey) <- rewrap_new_key zhp raw_props ;;
               ret (Some props, Some wkey)
             else
               rewrap_inherit_checks zhp ;;;
               ret (None, None)) ;;
    let '(props, wkeydata) := args in
    (* check that the key is loaded *)
    if zh_keystatus zhp =? ZFS_KEYSTATUS_UNAVAILABLE then
      fail_aux EACCES "Key must be loaded."
    else
      (* call the ioctl *)
      change <- get lzc_change_key ;;
      modify (add_ioctl (IocChangeKey (zfs_name zhp) props wkeydata)) ;;;
      let e := change (zfs_name zhp) props wkeydata in
      if e =? 0 then ret tt
      else change_key_ioctl_message e ;;; fail e.

End Library.

(** ** Unloading a key *)

Section Unload.

(** [lzc_unload_key] of the storage layer: its return value and the world it
    leaves. *)
Variable lzc_unload_key : string -> world -> Z * world.

(** The message [zfs_crypto_unload_key] attaches to a failure of
    [lzc_unload_key]. *)
Definition unload_key_ioctl_message (e : Z) : M unit :=
  if e =? ENOENT then zfs_error_aux "Key already unloaded for '%s'."
  else if e =? EBUSY then zfs_error_aux "'%s' is busy."
  else ret tt.

Definition zfs_crypto_unload_key (zhp : zfs_handle) : M unit :=
  (* check that encryption is enabled for the pool *)
  if negb (zh_feature_enabled zhp) then
    fail_aux EINVAL "Encryption feature not enabled."
  (* Fetch the keyformat. Check that the dataset is encrypted. *)
  else if zh_keyformat zhp =? ZFS_KEYFORMAT_NONE then
    fail_aux EINVAL "'%s' is not encrypted."
  (* Fetch the key location. Check that we are working with an
     encryption root. *)
  else if negb (zh_keylocation_ret zhp =? 0) then
    fail_aux (zh_keylocation_ret zhp) "Failed to get keylocation for '%s'."
  else if zh_keylocation_srctype zhp =? ZPROP_SRC_INHERITED then
    fail_aux EINVAL "Keys must be unloaded for encryption root of '%s' (%s)."
  (* check that the key is loaded *)
  else if zh_keystatus zhp =? ZFS_KEYSTATUS_UNAVAILABLE then
    fail_aux ENOENT "Key already unloaded for '%s'."
  else
    (* call the ioctl *)
    fun w =>
      let (e, w1) := lzc_unload_key (zfs_name zhp) w in
      if e =? 0 then (Ok tt, w1)
      else (unload_key_ioctl_message e ;;; fail e) w1.

End Unload.

(** ** The prompt *)

(** [get_format_prompt_string]; [None] is its [NULL]. *)
Definition get_format_prompt_string (format : Z) : option string :=
  if format =? ZFS_KEYFORMAT_RAW then Some "raw key"
  else if format =? ZFS_KEYFORMAT_HEX then Some "hex key"
  else if format =? ZFS_KEYFORMAT_PASSPHRASE then Some "passphrase"
  else None.

(** The line [get_key_material_raw] prints on a terminal; handing the
    [NULL] of an unknown format to [printf] is undefined. *)
Definition prompt_line (again newkey : bool) (keyformat : Z)
           (fsname : option string) : result string :=
  match get_format_prompt_string keyformat with
  | None => Undef
  | Some what =>
      let head :=
        String.append (if again then "Re-enter" else "Enter")
          (String.append " "
             (String.append (if newkey then "new " else "") what)) in
      match fsname with
      | Some name =>
          Ok (String.append head
                (String.append " for '" (String.append name "': ")))
      | None => Ok (String.append head ": ")
      end
  end.

(** * Reference definitions

    What the properties below compare the library with. *)

(** ** PBKDF2 (RFC 8018, section 5.2) over a pseudo-random function *)
Section PBKDF2.

Variable PRF : list Z -> list Z -> list Z.
Variable hLen : nat.

(** [U P S i n] is U_(n+1) of block [i]. *)
Fixpoint U (P S : list Z) (i : Z) (n : nat) : list Z :=
  match n with
  | O => PRF P (S ++ BE32 i)
  | Datatypes.S n' => PRF P (U P S i n')
  end.

(** T_i = U_1 xor U_2 xor ... xor U_c. *)
Definition T (P S : list Z) (c : Z) (i : Z) : list Z :=
  fold_left xor_bytes (map (U P S i) (seq 0 (Z.to_nat c))) (zeros hLen).

(** DK = T_1 || T_2 || ..., cut to [dkLen] bytes. *)
Definition PBKDF2 (P S : list Z) (c : Z) (dkLen : nat) : list Z :=
  let l := ((dkLen + hLen - 1) / hLen)%nat in
  firstn dkLen
    (concat (map (fun i => T P S c (Z.of_nat i)) (seq 1 l))).

End PBKDF2.

Definition PBKDF2_HMAC_SHA1 : list Z -> list Z -> Z -> nat -> list Z :=
  PBKDF2 SHA1.hmac 20.

(** The passphrase as a C string: its bytes before the first NUL. *)
Fixpoint c_string (p : list Z) : list Z :=
  match p with
  | [] => []
  | b :: p' => if b =? 0 then [] else b :: c_string p'
  end.

(** ** Hexadecimal decoding, two characters per byte, high nibble first *)
Fixpoint hex_decode (s : list Z) : list Z :=
  match s with
  | hi :: lo :: s' => (16 * hex_value hi + hex_value lo) :: hex_decode s'
  | _ => []
  end.

Definition is_hex_key (s : list Z) : bool :=
  (Z.of_nat (length s) =? 64) && forallb isxdigit s.

(** ** Reading a line

    [line_of content s]: [s] is the first line of [content], without its
    newline. *)
Definition line_of (content s : list Z) : Prop :=
  ~ In 10 s
  /\ ((content = s /\ s <> []) \/ exists rest, content = s ++ 10 :: rest).

(** ** Create and clone *)

(** The parent of a dataset to create, with the encryption feature
    enabled: the parent's [encryption] value, or off for the root dataset
    of a new pool. *)
Inductive create_parent (w : world) (pool_props : nvlist)
  : option string -> Z -> Prop :=
| CreateUnderParent pname pzhp :
    make_dataset_handle w pname = Some pzhp ->
    zh_feature_enabled pzhp = true ->
    create_parent w pool_props (Some pname) (zh_encryption pzhp)
| CreateRoot :
    nvlist_exists pool_props "feature@encryption" = true ->
    create_parent w pool_props None ZIO_CRYPT_OFF.

(** The explicit [encryption] value or, absent, the parent's. *)
Definition effective_crypt (props : nvlist) (pcrypt : Z) : Z :=
  match nvlist_lookup_uint64 props PROP_ENCRYPTION with
  | Some crypt => crypt
  | None => pcrypt
  end.

(** The [keyformat] given in [props]; none when absent. *)
Definition create_keyformat (props : nvlist) : Z :=
  opt_default ZFS_KEYFORMAT_NONE (nvlist_lookup_uint64 props PROP_KEYFORMAT).

(** Computations that leave the [keylocation] entry of [props] alone. *)
Definition keeps_keylocation {A} (c : MP A) : Prop :=
  forall s, nvlist_lookup (snd (snd (c s))) PROP_KEYLOCATION
            = nvlist_lookup (snd s) PROP_KEYLOCATION.

(** ** Rewrap *)

(** What the key-inheriting variant asks of the dataset and its parent. *)
Definition inherit_ready (w : world) (zhp : zfs_handle) : Prop :=
  zfs_crypto_is_encryption_root zhp = (0, true)
  /\ exists parent_name pzhp,
       zh_parent_name zhp = Some parent_name
       /\ make_dataset_handle w parent_name = Some pzhp
       /\ zh_encryption pzhp <> ZIO_CRYPT_OFF
       /\ zh_keystatus pzhp <> ZFS_KEYSTATUS_UNAVAILABLE.

(** The call of [lzc_change_key] that ends [zfs_crypto_rewrap]. *)
Definition change_key_call (zhp : zfs_handle) (props : option nvlist)
           (wkeydata : option (list Z)) (w : world) : result unit * world :=
  let w' := add_ioctl (IocChangeKey (zfs_name zhp) props wkeydata) w in
  let e := lzc_change_key w (zfs_name zhp) props wkeydata in
  if e =? 0 then (Ok tt, w')
  else (Err e, snd (change_key_ioctl_message e w')).

(** ** Load *)

(** The preconditions of [zfs_crypto_load_key]. *)
Definition load_ready (zhp : zfs_handle) (noop : bool) : Prop :=
  zh_feature_enabled zhp = true
  /\ zh_keyformat zhp <> ZFS_KEYFORMAT_NONE
  /\ zh_keylocation_ret zhp = 0
  /\ zh_keylocation_srctype zhp <> ZPROP_SRC_INHERITED
  /\ (noop = true \/ zh_keystatus zhp <> ZFS_KEYSTATUS_AVAILABLE).

(** Salt and iteration count [zfs_crypto_load_key] reads for a passphrase. *)
Definition load_salt (zhp : zfs_handle) : Z :=
  if zh_keyformat zhp =? ZFS_KEYFORMAT_PASSPHRASE then zh_pbkdf2salt zhp else 0.

Definition load_iters (zhp : zfs_handle) : Z :=
  if zh_keyformat zhp =? ZFS_KEYFORMAT_PASSPHRASE then zh_pbkdf2iters zhp else 0.

(** ** The dataset tree *)

(** Induction on a dataset with the property known of all its children. *)
Fixpoint dataset_ind' (P : dataset -> Prop)
         (H : forall zhp children, Forall P children -> P (Dataset zhp children))
         (d : dataset) : P d :=
  match d with
  | Dataset zhp children =>
      H zhp children
        ((fix all (l : list dataset) : Forall P l :=
            match l with
            | [] => Forall_nil P
            | c :: l' => Forall_cons c (dataset_ind' P H c) (all l')
            end) children)
  end.

(** The handles of a dataset and all its descendants, parents first. *)
Fixpoint preorder (d : dataset) : list zfs_handle :=
  match d with
  | Dataset zhp children => zhp :: flat_map preorder children
  end.

(** [in_tree x d]: [x] is the handle of [d] or of a descendant of [d]. *)
Inductive in_tree (x : zfs_handle) : dataset -> Prop :=
| in_tree_here children : in_tree x (Dataset x children)
| in_tree_below zhp children c :
    In c children -> in_tree x c -> in_tree x (Dataset zhp children).

(** The nodes on which a load is to be attempted: encryption roots whose
    key is not available. *)
Definition load_wanted (zhp : zfs_handle) : bool :=
  (fst (zfs_crypto_is_encryption_root zhp) =? 0)
  && snd (zfs_crypto_is_encryption_root zhp)
  && negb (zh_keystatus zhp =? ZFS_KEYSTATUS_AVAILABLE).

Definition is_failure (r : result unit) : bool :=
  match r with Ok _ => false | _ => true end.

Definition defined (r : result unit) : Prop := r <> Undef.

Section Walk.

Variable crypto_mac : list Z -> list Z -> option (list Z).

(** Best effort over a list of handles: a load on every wanted handle in
    turn, whatever the outcome of the ones before; the outcomes are
    collected. *)
Fixpoint load_each (l : list zfs_handle) (w : world)
  : list (zfs_handle * result unit) * world :=
  match l with
  | [] => ([], w)
  | zhp :: l' =>
      if load_wanted zhp then
        let (r, w1) := zfs_crypto_load_key crypto_mac zhp false None w in
        let (log, w2) := load_each l' w1 in
        ((zhp, r) :: log, w2)
      else load_each l' w
  end.

Definition failures (log : list (zfs_handle * result unit)) : Z :=
  Z.of_nat (length (filter (fun x => is_failure (snd x)) log)).

Definition attempts (log : list (zfs_handle * result unit)) : Z :=
  Z.of_nat (length log).

(** The counters after a walk with outcomes [log], from [cb]. *)
Definition counted (cb : loadkey_cbdata)
           (log : list (zfs_handle * result unit)) : loadkey_cbdata :=
  mk_cbdata (cb_numfailed cb + failures log)
    (cb_numattempted cb + attempts log).

Definition in_range (cb : loadkey_cbdata)
           (log : list (zfs_handle * result unit)) : Prop :=
  0 <= cb_numfailed cb /\ 0 <= cb_numattempted cb
  /\ cb_numfailed cb + failures log < 2 ^ 64
  /\ cb_numattempted cb + attempts log < 2 ^ 64.

(** [run] walks the handles [l]: it counts the loads of [load_each]. *)
Definition walk_ok (l : list zfs_handle)
           (run : loadkey_cbdata -> M loadkey_cbdata) : Prop :=
  forall cb w,
    let (log, w') := load_each l w in
    Forall (fun x => defined (snd x)) log ->
    in_range cb log ->
    run cb w = (Ok (counted cb log), w').

End Walk.

(** What a run left behind: the prompts printed and the calls of
    [lzc_load_key]. *)
Definition prompts (w : world) : nat :=
  length (filter (fun e => match e with OutPrompt _ _ _ _ => true | _ => false end)
            (stdout w)).

Definition load_calls (w : world) : nat :=
  length (filter (fun c => match c with IocLoadKey _ _ _ => true | _ => false end)
            (ioctls w)).

(** ** Frames, accepted key material and the calls of a load *)

(** Computations that leave the component [f] of the world alone. *)
Definition frame {B A} (f : world -> B) (c : M A) : Prop :=
  forall w, f (snd (c w)) = f w.

(** The same for computations that carry the property list. *)
Definition framep {B A} (f : world -> B) (c : MP A) : Prop :=
  forall s, f (fst (snd (c s))) = f (fst s).

(** Components that reading, printing and the error message do not touch. *)
Definition io_independent {B} (f : world -> B) : Prop :=
  (forall d w, f (set_stdin d w) = f w)
  /\ (forall e w, f (add_stdout e w) = f w)
  /\ (forall d w, f (set_desc d w) = f w).

(** What [get_key_material] accepts as key material of a format. *)
Definition key_material_ok (keyformat : Z) (s : list Z) : bool :=
  let len := Z.of_nat (length s) in
  if keyformat =? ZFS_KEYFORMAT_RAW then len =? 32
  else if keyformat =? ZFS_KEYFORMAT_HEX then is_hex_key s
  else if keyformat =? ZFS_KEYFORMAT_PASSPHRASE then (8 <=? len) && (len <=? 64)
  else true.

(** A result within the buffers: a value, or the error of [crypto_mac]. *)
Definition ok_or_eio {A} (r : result A) : Prop :=
  match r with
  | Ok _ => True
  | Err e => e = EIO
  | Undef => False
  end.

(** The preconditions of [zfs_crypto_unload_key]. *)
Definition unload_ready (zhp : zfs_handle) : Prop :=
  zh_feature_enabled zhp = true
  /\ zh_keyformat zhp <> ZFS_KEYFORMAT_NONE
  /\ zh_keylocation_ret zhp = 0
  /\ zh_keylocation_srctype zhp <> ZPROP_SRC_INHERITED
  /\ zh_keystatus zhp <> ZFS_KEYSTATUS_UNAVAILABLE.

(** The calls of [lzc_load_key] on a dataset, each with a key of 32 bytes. *)
Definition load_key_call (zhp : zfs_handle) (noop : bool) (c : ioctl_call)
  : Prop :=
  exists key, c = IocLoadKey (zfs_name zhp) noop key /\ length key = 32%nat.

(** A call that the storage layer answers with [e]. *)
Definition load_key_answer (w : world) (zhp : zfs_handle) (noop : bool) (e : Z)
           (c : ioctl_call) : Prop :=
  exists key,
    c = IocLoadKey (zfs_name zhp) noop key
    /\ lzc_load_key w (zfs_name zhp) noop key = e.

(** The passes [zfs_crypto_load_key] can make. *)
Definition max_passes (keylocation : string) (w : world) : nat :=
  if can_retry_of keylocation w
  then Z.to_nat (MAX_KEY_PROMPT_ATTEMPTS + 2) else 1.



(** The parent of a dataset to create, without the encryption feature. *)
Inductive create_feature_off (w : world) (pool_props : nvlist)
  : option string -> Prop :=
| FeatureOffUnderParent pname pzhp :
    make_dataset_handle w pname = Some pzhp ->
    zh_feature_enabled pzhp = false ->
    create_feature_off w pool_props (Some pname)
| FeatureOffRoot :
    nvlist_exists pool_props "feature@encryption" = false ->
    create_feature_off w pool_props None.

(** * Scenarios

    A pool with an encrypted dataset whose wrapping key is 32 bytes [0xAA],
    used to run the library on concrete inputs. *)
Module Fixture.

Definition hmac_sha1 (k m : list Z) : option (list Z) := Some (SHA1.hmac k m).

(** The wrapping key the storage layer holds. *)
Definition right_key : list Z := repeat 0xAA 32.

Definition kernel_load_key (name : string) (noop : bool) (wkey : list Z) : Z :=
  if bytes_eqb wkey right_key then 0 else EACCES.

(** A line of 64 times the character [c]. *)
Definition hex_line (c : Z) : list Z := repeat c 64 ++ [10].
Definition right_entry : list Z := hex_line 97.
Definition wrong_entry : list Z := hex_line 48.

Definition handle (name : string) (crypt keyformat keystatus : Z)
           (keylocation : string) (srctype : Z) (parent : option string)
  : zfs_handle :=
  mk_zfs_handle name true crypt keyformat keystatus 0 1 0 keylocation
    srctype "" parent.

Definition pool : zfs_handle :=
  handle "pool" ZIO_CRYPT_OFF ZFS_KEYFORMAT_NONE ZFS_KEYSTATUS_NONE "none"
    ZPROP_SRC_DEFAULT None.

Definition secret (keylocation : string) : zfs_handle :=
  handle "pool/secret" ZIO_CRYPT_ON ZFS_KEYFORMAT_HEX
    ZFS_KEYSTATUS_UNAVAILABLE keylocation ZPROP_SRC_LOCAL (Some "pool").

Definition vault : zfs_handle :=
  handle "pool/vault" ZIO_CRYPT_ON ZFS_KEYFORMAT_HEX
    ZFS_KEYSTATUS_AVAILABLE "prompt" ZPROP_SRC_LOCAL (Some "pool").

Definition inner : zfs_handle :=
  handle "pool/vault/inner" ZIO_CRYPT_ON ZFS_KEYFORMAT_HEX
    ZFS_KEYSTATUS_AVAILABLE "prompt" ZPROP_SRC_LOCAL (Some "pool/vault").

Definition tree : dataset :=
  Dataset pool
    [ Dataset (secret "file:///wrong") [];
      Dataset vault [ Dataset inner [] ];
      Dataset (secret "file:///right") [] ].

Definition datasets (name : string) : option zfs_handle :=
  if String.eqb name "pool" then Some pool
  else if String.eqb name "pool/secret" then Some (secret "prompt")
  else if String.eqb name "pool/vault" then Some vault
  else None.

Definition open (name : string) : option dataset :=
  if String.eqb name "pool" then Some tree else None.

Definition files : list (string * list Z) :=
  [ ("/right", right_entry); ("/wrong", wrong_entry) ].

(** A world with the given terminal flag and standard input. *)
Definition world_of (tty : bool) (input : list Z) : world :=
  mk_world tty input files ENOENT 0 [7] EIO 350000 "" [] datasets open
    (fun p => Some p) kernel_load_key (fun _ _ _ => 0) [].

(** A passphrase with a NUL byte in it. *)
Definition nul_passphrase : list Z :=
  bytes_of_string "abcdefgh" ++ [0] ++ bytes_of_string "ijkl".

(** Standard input of a terminal: three wrong entries and the right one,
    five wrong entries and the right one, a mistyped entry and the right
    one. *)
Definition three_wrong : list Z := wrong_entry ++ wrong_entry ++ wrong_entry.
Definition retry_world : world := world_of true (three_wrong ++ right_entry).
Definition exhaust_world : world :=
  world_of true (three_wrong ++ wrong_entry ++ wrong_entry ++ right_entry).
Definition typo_world : world :=
  world_of true ([122; 122; 10] ++ right_entry).

Definition load_secret (keylocation : string) (w : world)
  : result unit * world :=
  zfs_crypto_load_key hmac_sha1 (secret keylocation) false None w.

(** A raw key file of 32 bytes that ends in a newline character. *)
Definition raw31 : list Z := repeat 0x11 31.

Definition raw_world : world :=
  mk_world false [] [("/raw", raw31 ++ [10])] ENOENT 0 [] EIO 350000 "" []
    datasets open (fun p => Some p) kernel_load_key (fun _ _ _ => 0) [].

Definition nul_world : world :=
  mk_world false [] [("/key", nul_passphrase ++ [10])] ENOENT 0 [] EIO
    350000 "" [] datasets open (fun p => Some p) kernel_load_key
    (fun _ _ _ => 0) [].

End Fixture.

(** Further scenarios. *)
Module Scenario.

(** A dataset whose raw key is asked for at the prompt. *)
Definition raw_prompt : zfs_handle :=
  Fixture.handle "pool/raw" ZIO_CRYPT_ON ZFS_KEYFORMAT_RAW
    ZFS_KEYSTATUS_UNAVAILABLE "prompt" ZPROP_SRC_LOCAL (Some "pool").

Definition passphrase : list Z := bytes_of_string "correct horse".

(** A world with a passphrase file and an empty file; standard input is not
    a terminal. *)
Definition passphrase_world : world :=
  mk_world false [] [("/pass", passphrase ++ [10]); ("/empty", [])] ENOENT 0
    [7] EIO 350000 "" [] Fixture.datasets Fixture.open (fun p => Some p)
    Fixture.kernel_load_key (fun _ _ _ => 0) [].

Definition one_iteration : nvlist := [(PROP_PBKDF2_ITERS, NvUint64 1)].

(** The properties of a new encryption root with a hex key in a file. *)
Definition hex_root : nvlist :=
  [ (PROP_ENCRYPTION, NvUint64 ZIO_CRYPT_ON);
    (PROP_KEYFORMAT, NvUint64 ZFS_KEYFORMAT_HEX);
    (PROP_KEYLOCATION, NvString "file:///right") ].

(** A new key location for [pool/vault], and the change of key to it. *)
Definition new_location : nvlist :=
  [ (PROP_KEYLOCATION, NvString "file:///right") ].

Definition rekey : result unit * world :=
  zfs_crypto_rewrap Fixture.hmac_sha1 Fixture.vault new_location false
    (Fixture.world_of false []).

End Scenario.

(** * Properties *)

(** Unfolds the monad on a state. *)
Ltac msimpl :=
  repeat (progress (unfold bind, ret, lift, fail, undef, get, modify, liftW,
                    isatty, unread_of, advance;
                    cbn beta iota delta [fst snd rbind])).

(** ** Known answers

    The reference functions and the model of [pbkdf2] on published test
    vectors (FIPS 180, RFC 2202, RFC 6070). *)

Example sha1_abc :
  SHA1.digest (bytes_of_string "abc")
  = [0xa9; 0x99; 0x3e; 0x36; 0x47; 0x06; 0x81; 0x6a; 0xba; 0x3e;
     0x25; 0x71; 0x78; 0x50; 0xc2; 0x6c; 0x9c; 0xd0; 0xd8; 0x9d].
Proof. vm_compute. reflexivity. Qed.

Example hmac_sha1_rfc2202 :
  SHA1.hmac (repeat 0x0b 20) (bytes_of_string "Hi There")
  = [0xb6; 0x17; 0x31; 0x86; 0x55; 0x05; 0x72; 0x64; 0xe2; 0x8b;
     0xc0; 0xb6; 0xfb; 0x37; 0x8c; 0x8e; 0xf1; 0x46; 0xbe; 0x00].
Proof. vm_compute. reflexivity. Qed.

Example pbkdf2_rfc6070 :
  pbkdf2 Fixture.hmac_sha1 (bytes_of_string "password") 8
    (bytes_of_string "salt") 2 20
  = Ok [0xea; 0x6c; 0x01; 0x4d; 0xc7; 0x2d; 0x6f; 0x8c; 0xcd; 0x1e;
        0xd9; 0x2a; 0xce; 0x1d; 0x41; 0xf0; 0xd8; 0xde; 0x89; 0x57].
Proof. vm_compute. reflexivity. Qed.

(** ** Buffers *)

Lemma xor_bytes_length a b :
  length (xor_bytes a b) = Nat.min (length a) (length b).
Proof. unfold xor_bytes. now rewrite length_map, length_combine. Qed.

Lemma memmove_whole dst src :
  length src = length dst -> memmove dst 0 src = Ok src.
Proof.
  intros H. unfold memmove. rewrite H.
  replace ((0 <=? 0) && (0 + Z.of_nat (length dst) <=? Z.of_nat (length dst)))
    with true by (symmetry; apply andb_true_intro; split; apply Z.leb_le; lia).
  cbn [Z.to_nat firstn Nat.add app]. rewrite <- H.
  rewrite skipn_all2 by lia. now rewrite app_nil_r.
Qed.

Lemma memmove_length dst off src r :
  memmove dst off src = Ok r -> length r = length dst.
Proof.
  unfold memmove.
  destruct ((0 <=? off) && _) eqn:E; [|discriminate].
  apply andb_prop in E as [E1 E2]. apply Z.leb_le in E1, E2.
  intros [= <-]. rewrite !length_app, length_firstn, length_skipn. lia.
Qed.

Lemma load_bytes_app a b :
  load_bytes (a ++ b) (Z.of_nat (length a)) = Ok a.
Proof.
  unfold load_bytes. rewrite length_app.
  replace ((0 <=? _) && _) with true
    by (symmetry; apply andb_true_intro; split; apply Z.leb_le; lia).
  rewrite Nat2Z.id, firstn_app, firstn_all, Nat.sub_diag. cbn. now rewrite app_nil_r.
Qed.

Lemma strlen_c_string p rest :
  strlen (p ++ 0 :: rest) = Ok (Z.of_nat (length (c_string p))).
Proof.
  induction p as [|b p IH]; cbn [app strlen c_string].
  - reflexivity.
  - destruct (b =? 0) eqn:E; [reflexivity|].
    rewrite IH. cbn [rbind length]. f_equal. lia.
Qed.

Lemma c_string_prefix p rest :
  exists tail, p ++ 0 :: rest = c_string p ++ tail.
Proof.
  induction p as [|b p [tail IH]]; cbn [app c_string].
  - now exists (0 :: rest).
  - destruct (b =? 0); [now eexists|].
    exists tail. cbn. now rewrite IH.
Qed.

Lemma c_string_no_nul p : ~ In 0 p -> c_string p = p.
Proof.
  induction p as [|b p IH]; cbn; [easy|]. intros H.
  destruct (Z.eqb_spec b 0); [tauto|]. f_equal. tauto.
Qed.

(** ** The rounds and blocks of [pbkdf2] *)

Section Rounds.

Variable crypto_mac : list Z -> list Z -> option (list Z).
Variable HMAC : list Z -> list Z -> list Z.
Hypothesis crypto_mac_ok : forall k m, crypto_mac k m = Some (HMAC k m).
Hypothesis HMAC_length : forall k m, length (HMAC k m) = 20%nat.

Variable key : list Z.

(** Rounds after the first: the HMAC input is the previous digest. *)
Lemma pbkdf2_rounds_later n :
  forall iter hk block,
    0 < iter -> length hk = 20%nat ->
    pbkdf2_rounds crypto_mac n key 8 iter hk block =
    Ok (Nat.iter n (HMAC key) hk,
        fold_left xor_bytes
          (map (fun j => Nat.iter (S j) (HMAC key) hk) (seq 0 n)) block).
Proof.
  induction n as [|n IH]; intros iter hk block Hi Hl.
  - reflexivity.
  - cbn [pbkdf2_rounds].
    replace (0 <? iter) with true by (symmetry; apply Z.ltb_lt; lia).
    change SHA1_DIGEST_LEN with (Z.of_nat 20). rewrite <- Hl.
    rewrite <- (app_nil_r hk) at 1. rewrite load_bytes_app.
    cbn [rbind]. rewrite crypto_mac_ok, HMAC_length, Hl, Z.eqb_refl.
    cbn [negb]. rewrite memmove_whole by (rewrite HMAC_length; lia).
    cbn [rbind]. rewrite IH by (try lia; apply HMAC_length).
    f_equal. f_equal.
    + rewrite Nat.iter_succ_r. reflexivity.
    + cbn [seq map fold_left]. rewrite <- seq_shift, map_map.
      cbn [Nat.iter]. f_equal. apply map_ext. intros j.
      rewrite <- !Nat.iter_succ_r. reflexivity.
Qed.

Lemma U_iter sl i n : U HMAC key sl i n = Nat.iter n (HMAC key) (U HMAC key sl i 0).
Proof. induction n as [|n IH]; [reflexivity|]. cbn [U]. rewrite IH. reflexivity. Qed.

Lemma U_length sl i n : length (U HMAC key sl i n) = 20%nat.
Proof. destruct n; apply HMAC_length. Qed.

(** All the rounds of one block, from the buffer holding salt and index. *)
Lemma pbkdf2_rounds_block salt i c pad :
  length salt = 8%nat -> length pad = 8%nat ->
  exists hk',
    pbkdf2_rounds crypto_mac c key 8 0 (salt ++ BE32 i ++ pad)
      (zeros 20) = Ok (hk', T HMAC 20 key salt (Z.of_nat c) i)
    /\ length hk' = 20%nat.
Proof.
  intros Hs Hp. unfold T. rewrite Nat2Z.id.
  destruct c as [|c].
  - eexists; split; [reflexivity|]. rewrite !length_app, Hs, Hp. reflexivity.
  - cbn [pbkdf2_rounds]. cbn [Z.ltb Z.compare].
    replace (8 + 4) with (Z.of_nat (length (salt ++ BE32 i)))
      by (rewrite length_app, Hs; reflexivity).
    rewrite app_assoc, load_bytes_app. cbn [rbind].
    rewrite crypto_mac_ok, HMAC_length.
    change (negb (Z.of_nat 20 =? SHA1_DIGEST_LEN)) with false. cbv iota.
    rewrite memmove_whole
      by (rewrite HMAC_length, !length_app, Hs, Hp; reflexivity).
    cbn [rbind]. rewrite pbkdf2_rounds_later by (try lia; apply HMAC_length).
    eexists; split.
    + f_equal. f_equal. cbn [seq map fold_left].
      rewrite <- seq_shift, map_map. f_equal.
      apply map_ext. intros j. rewrite (U_iter _ _ (S j)). reflexivity.
    + destruct c; apply HMAC_length.
Qed.

Lemma T_length sl c i : length (T HMAC 20 key sl c i) = 20%nat.
Proof.
  unfold T. generalize (seq 0 (Z.to_nat c)). intros l.
  assert (H : length (zeros 20) = 20%nat) by reflexivity.
  revert H. generalize (zeros 20). induction l as [|j l IH]; intros acc Ha.
  - exact Ha.
  - cbn [map fold_left]. apply IH. rewrite xor_bytes_length, Ha, U_length.
    reflexivity.
Qed.

End Rounds.

Section Blocks.
Variable crypto_mac : list Z -> list Z -> option (list Z).
Variable HMAC : list Z -> list Z -> list Z.
Hypothesis crypto_mac_ok : forall k m, crypto_mac k m = Some (HMAC k m).
Hypothesis HMAC_length : forall k m, length (HMAC k m) = 20%nat.

Lemma memmove_middle a b c src :
  length src = length b ->
  memmove (a ++ b ++ c) (Z.of_nat (length a)) src = Ok (a ++ src ++ c).
Proof.
  intros H. unfold memmove. rewrite !length_app, H.
  replace ((0 <=? _) && _) with true
    by (symmetry; apply andb_true_intro; split; apply Z.leb_le; lia).
  rewrite Nat2Z.id, firstn_app, firstn_all, Nat.sub_diag. cbn [firstn].
  rewrite app_nil_r, skipn_app, skipn_all2 by lia. cbn [app].
  replace (length a + length b - length a)%nat with (length b) by lia.
  now rewrite skipn_app, skipn_all, Nat.sub_diag.
Qed.

Lemma memmove_prefix a b src :
  length src = length a -> memmove (a ++ b) 0 src = Ok (src ++ b).
Proof. intros H. apply (memmove_middle [] a b src H). Qed.

Lemma split_buffer (hk : list Z) (n m : nat) :
  exists a b c, hk = a ++ b ++ c /\ length a = Nat.min n (length hk)
                /\ length b = Nat.min m (length hk - n).
Proof.
  exists (firstn n hk), (firstn m (skipn n hk)), (skipn m (skipn n hk)).
  rewrite !firstn_skipn, !length_firstn, length_skipn. auto.
Qed.

(** One pass of the block loop up to the end of its rounds. *)
Lemma pbkdf2_block_rounds key salt iters i hk :
  length salt = 8%nat -> length hk = 20%nat ->
  exists hk',
    (hmac_key1 <-- memmove hk 0 salt ;;
     hmac_key2 <-- memmove hmac_key1 8 (BE32 i) ;;
     pbkdf2_rounds crypto_mac (Z.to_nat iters) key 8 0 hmac_key2 (zeros 20))
    = Ok (hk', T HMAC 20 key salt iters i)
    /\ length hk' = 20%nat.
Proof.
  intros Hs Hk.
  destruct (split_buffer hk 8 4) as (a & b & c & -> & Ha & Hb).
  rewrite Hk in Ha, Hb. cbn in Ha, Hb.
  rewrite !length_app, Ha, Hb in Hk.
  rewrite memmove_prefix by lia. cbn [rbind].
  change 8 with (Z.of_nat 8). rewrite <- Hs.
  rewrite memmove_middle by (rewrite Hb; reflexivity). cbn [rbind].
  rewrite Hs. change (Z.of_nat 8) with 8.
  destruct (pbkdf2_rounds_block crypto_mac HMAC crypto_mac_ok HMAC_length
              key salt i (Z.to_nat iters) c Hs ltac:(lia)) as (hk' & E & L).
  exists hk'. split; [|exact L]. rewrite E. unfold T. now rewrite Nat2Z.id.
Qed.

Lemma pbkdf2_hmac key salt iters tail :
  length salt = 8%nat ->
  pbkdf2 crypto_mac (key ++ tail) (Z.of_nat (length key)) salt iters 32
  = Ok (PBKDF2 HMAC 20 key salt iters 32).
Proof.
  intros Hs. unfold pbkdf2. rewrite Hs, load_bytes_app. cbn [rbind].
  change (Z.to_nat ((32 + SHA1_DIGEST_LEN - 1) / SHA1_DIGEST_LEN)) with 2%nat.
  change (if SHA1_DIGEST_LEN <? Z.of_nat 8 then _ else _) with 20.
  change (Z.to_nat 20) with 20%nat. change (Z.to_nat 32) with 32%nat.
  cbn [pbkdf2_blocks]. rewrite Hs. change (Z.of_nat 8) with 8.
  change (Z.to_nat SHA1_DIGEST_LEN) with 20%nat.
  change (1 + 0 / SHA1_DIGEST_LEN) with 1.
  change (1 + (0 + SHA1_DIGEST_LEN) / SHA1_DIGEST_LEN) with 2.
  (* first block *)
  destruct (pbkdf2_block_rounds key salt iters 1 (zeros 20) Hs eq_refl)
    as (hk1 & E1 & L1).
  destruct (memmove (zeros 20) 0 salt) as [b1| |]; try discriminate.
  cbn [rbind] in E1 |- *.
  destruct (memmove b1 8 (BE32 1)) as [b2| |]; try discriminate.
  cbn [rbind] in E1 |- *. rewrite E1. cbn [rbind].
  change (32 <? 0 + SHA1_DIGEST_LEN) with false. cbv iota.
  pose proof (T_length HMAC HMAC_length key salt iters 1) as LT1.
  pose proof (T_length HMAC HMAC_length key salt iters 2) as LT2.
  change (zeros 32) with (zeros 20 ++ zeros 12).
  rewrite memmove_prefix by (rewrite LT1; reflexivity). cbn [rbind].
  (* second block *)
  destruct (pbkdf2_block_rounds key salt iters 2 hk1 Hs L1)
    as (hk2 & E2 & L2).
  destruct (memmove hk1 0 salt) as [b3| |]; try discriminate.
  cbn [rbind] in E2 |- *.
  destruct (memmove b3 8 (BE32 2)) as [b4| |]; try discriminate.
  cbn [rbind] in E2 |- *. rewrite E2. cbn [rbind].
  change (32 <? 0 + SHA1_DIGEST_LEN + SHA1_DIGEST_LEN) with true. cbv iota.
  change (Z.to_nat (32 - (0 + SHA1_DIGEST_LEN))) with 12%nat.
  change (0 + SHA1_DIGEST_LEN) with (Z.of_nat 20). rewrite <- LT1 at 2.
  rewrite <- (app_nil_r (zeros 12)).
  rewrite memmove_middle by (rewrite length_firstn, LT2; reflexivity).
  cbn [rbind]. f_equal.
  unfold PBKDF2. change ((32 + 20 - 1) / 20)%nat with 2%nat.
  cbn [seq map concat]. change (Z.of_nat 1) with 1.
  change (Z.of_nat 2) with 2.
  rewrite firstn_app, LT1. change (32 - 20)%nat with 12%nat.
  rewrite (@firstn_all2 _ 32) by (rewrite LT1; lia).
  now rewrite firstn_app, LT2, !app_nil_r.
Qed.
End Blocks.

Lemma sha1_digest_length m : length (SHA1.digest m) = 20%nat.
Proof.
  unfold SHA1.digest.
  destruct (SHA1.blocks _ _ _) as [[[[a b] c] d] e]. reflexivity.
Qed.

Lemma sha1_hmac_length k m : length (SHA1.hmac k m) = 20%nat.
Proof. apply sha1_digest_length. Qed.

Lemma pbkdf2_block_rounds_zero crypto_mac key salt i hk :
  length salt = 8%nat -> length hk = 20%nat ->
  exists hk',
    (hmac_key1 <-- memmove hk 0 salt ;;
     hmac_key2 <-- memmove hmac_key1 8 (BE32 i) ;;
     pbkdf2_rounds crypto_mac (Z.to_nat 0) key 8 0 hmac_key2 (zeros 20))
    = Ok (hk', zeros 20)
    /\ length hk' = 20%nat.
Proof.
  intros Hs Hk.
  destruct (split_buffer hk 8 4) as (a & b & c & -> & Ha & Hb).
  rewrite Hk in Ha, Hb. cbn in Ha, Hb.
  rewrite !length_app, Ha, Hb in Hk.
  rewrite memmove_prefix by lia. cbn [rbind].
  change 8 with (Z.of_nat 8). rewrite <- Hs.
  rewrite memmove_middle by (rewrite Hb; reflexivity). cbn [rbind].
  eexists. split; [reflexivity|].
  rewrite !length_app, Hs. cbn [length BE32]. lia.
Qed.

Lemma pbkdf2_zero_iterations crypto_mac key salt tail :
  length salt = 8%nat ->
  pbkdf2 crypto_mac (key ++ tail) (Z.of_nat (length key)) salt 0 32
  = Ok (zeros 32).
Proof.
  intros Hs. unfold pbkdf2. rewrite Hs, load_bytes_app. cbn [rbind].
  change (Z.to_nat ((32 + SHA1_DIGEST_LEN - 1) / SHA1_DIGEST_LEN)) with 2%nat.
  change (if SHA1_DIGEST_LEN <? Z.of_nat 8 then _ else _) with 20.
  change (Z.to_nat 20) with 20%nat. change (Z.to_nat 32) with 32%nat.
  cbn [pbkdf2_blocks]. rewrite Hs. change (Z.of_nat 8) with 8.
  change (Z.to_nat SHA1_DIGEST_LEN) with 20%nat.
  destruct (pbkdf2_block_rounds_zero crypto_mac key salt
              (1 + 0 / SHA1_DIGEST_LEN) (zeros 20) Hs eq_refl)
    as (hk1 & E1 & L1).
  destruct (memmove (zeros 20) 0 salt) as [b1| |]; try discriminate.
  cbn [rbind] in E1 |- *.
  destruct (memmove b1 8 _) as [b2| |]; try discriminate.
  cbn [rbind] in E1 |- *. rewrite E1. cbn [rbind].
  change (32 <? 0 + SHA1_DIGEST_LEN) with false. cbv iota.
  change (memmove (zeros 32) 0 (zeros 20)) with (Ok (zeros 32)).
  cbn [rbind].
  destruct (pbkdf2_block_rounds_zero crypto_mac key salt
              (1 + (0 + SHA1_DIGEST_LEN) / SHA1_DIGEST_LEN) hk1 Hs L1)
    as (hk2 & E2 & L2).
  destruct (memmove hk1 0 salt) as [b3| |]; try discriminate.
  cbn [rbind] in E2 |- *.
  destruct (memmove b3 8 _) as [b4| |]; try discriminate.
  cbn [rbind] in E2 |- *. rewrite E2. cbn [rbind].
  reflexivity.
Qed.

Lemma derive_key_passphrase crypto_mac p rest kmlen salt iters w :
  derive_key crypto_mac ZFS_KEYFORMAT_PASSPHRASE iters (p ++ 0 :: rest)
    kmlen salt w
  = match pbkdf2 crypto_mac (p ++ 0 :: rest)
            (Z.of_nat (length (c_string p))) (LE64 salt) iters 32 with
    | Ok key => (Ok key, w)
    | Err e => fail_aux e "Failed to generate key from passphrase." w
    | Undef => (Undef, w)
    end.
Proof.
  unfold derive_key. cbn [ZFS_KEYFORMAT_PASSPHRASE ZFS_KEYFORMAT_RAW
    ZFS_KEYFORMAT_HEX Z.eqb Pos.eqb].
  rewrite strlen_c_string. cbn [rbind].
  change WRAPPING_KEY_LEN with 32.
  destruct (pbkdf2 _ _ _ _ _ _); reflexivity.
Qed.

(** C1 (amended).  For every passphrase, 64-bit salt value and iteration
    count, [derive_key] with the passphrase format returns the standard
    PBKDF2-HMAC-SHA1 output of 32 bytes over the 8-byte little-endian
    encoding of the salt, whenever [crypto_mac] computes HMAC-SHA1.  The HMAC
    key is the passphrase as a C string: its bytes before the first NUL, which
    is the whole passphrase when it holds no NUL.  The buffer is the one
    [getline] fills: the passphrase followed by a NUL. *)
Theorem C1_derive_key_passphrase_is_pbkdf2 :
  forall (crypto_mac : list Z -> list Z -> option (list Z)),
    (forall k m, crypto_mac k m = Some (SHA1.hmac k m)) ->
    forall (p rest : list Z) (kmlen salt iters : Z) (w : world),
      derive_key crypto_mac ZFS_KEYFORMAT_PASSPHRASE iters (p ++ 0 :: rest)
        kmlen salt w
      = (Ok (PBKDF2_HMAC_SHA1 (c_string p) (LE64 salt) iters 32), w)
      /\ (~ In 0 p -> c_string p = p).
Proof.
  intros crypto_mac Hmac p rest kmlen salt iters w. split.
  - rewrite derive_key_passphrase.
    destruct (c_string_prefix p rest) as [tail ->].
    rewrite (pbkdf2_hmac crypto_mac SHA1.hmac Hmac sha1_hmac_length)
      by reflexivity.
    reflexivity.
  - apply c_string_no_nul.
Qed.

Lemma C1_witness :
  derive_key Fixture.hmac_sha1 ZFS_KEYFORMAT_PASSPHRASE 2
    (bytes_of_string "password" ++ 0 :: []) 8 7 (Fixture.world_of false [])
  = (Ok (PBKDF2_HMAC_SHA1 (c_string (bytes_of_string "password")) (LE64 7) 2 32),
     Fixture.world_of false []).
Proof.
  apply (proj1 (C1_derive_key_passphrase_is_pbkdf2 Fixture.hmac_sha1
                  (fun k m => eq_refl) (bytes_of_string "password") [] 8 7 2
                  (Fixture.world_of false []))).
Defined.

(** A passphrase file holding [abcdefgh], a NUL and [ijkl] passes the length
    check as 13 bytes of key material, and the key derived from it is not
    the PBKDF2 output for these 13 bytes. *)
Lemma C1_counterexample_nul_in_passphrase :
  fst (get_key_material_km false false ZFS_KEYFORMAT_PASSPHRASE "file:///key"
         None Fixture.nul_world)
  = Ok (Fixture.nul_passphrase ++ [0; 0], 13)
  /\ fst (derive_key Fixture.hmac_sha1 ZFS_KEYFORMAT_PASSPHRASE 1
            (Fixture.nul_passphrase ++ [0; 0]) 13 7 Fixture.nul_world)
     <> Ok (PBKDF2_HMAC_SHA1 Fixture.nul_passphrase (LE64 7) 1 32).
Proof.
  split.
  - vm_compute. reflexivity.
  - vm_compute. discriminate.
Qed.

(** C10.  With an iteration count of 0, [derive_key] with the passphrase
    format succeeds with 32 zero bytes, for every passphrase and salt and
    whatever [crypto_mac] is: nothing on this path enforces a minimum. *)
Theorem C10_zero_iterations_zero_key :
  forall (crypto_mac : list Z -> list Z -> option (list Z))
         (p rest : list Z) (kmlen salt : Z) (w : world),
    derive_key crypto_mac ZFS_KEYFORMAT_PASSPHRASE 0 (p ++ 0 :: rest)
      kmlen salt w
    = (Ok (zeros 32), w).
Proof.
  intros. rewrite derive_key_passphrase.
  destruct (c_string_prefix p rest) as [tail ->].
  rewrite pbkdf2_zero_iterations by reflexivity. reflexivity.
Qed.

(** ** Key material from a file *)

Lemma getline_split_newline s rest :
  ~ In 10 s -> getline_split (s ++ 10 :: rest) = (s ++ [10], rest).
Proof.
  induction s as [|b s IH]; cbn [app getline_split]; intros H.
  - reflexivity.
  - destruct (Z.eqb_spec b 10) as [->|_]; [exfalso; apply H; now left|].
    rewrite IH; [reflexivity|]. intros Hin. apply H. now right.
Qed.

Lemma getline_split_eof s :
  ~ In 10 s -> getline_split s = (s, []).
Proof.
  induction s as [|b s IH]; cbn [getline_split]; intros H.
  - reflexivity.
  - destruct (Z.eqb_spec b 10) as [->|_]; [exfalso; apply H; now left|].
    rewrite IH; [reflexivity|]. intros Hin. apply H. now right.
Qed.

Lemma load_byte_app_here a b c :
  load_byte (a ++ b :: c) (Z.of_nat (length a)) = Ok b.
Proof.
  unfold load_byte.
  replace (Z.of_nat (length a) <? 0) with false by (symmetry; apply Z.ltb_ge; lia).
  rewrite Nat2Z.id, nth_error_app2, Nat.sub_diag by lia. reflexivity.
Qed.

Lemma load_byte_last a b c :
  load_byte (a ++ b :: c) (Z.of_nat (length (a ++ [b])) - 1) = Ok b.
Proof.
  rewrite length_app. cbn [length].
  replace (Z.of_nat (length a + 1) - 1) with (Z.of_nat (length a)) by lia.
  apply load_byte_app_here.
Qed.

Lemma memmove_last a b c x :
  memmove (a ++ b :: c) (Z.of_nat (length (a ++ [b])) - 1) [x]
  = Ok (a ++ x :: c).
Proof.
  rewrite length_app. cbn [length].
  replace (Z.of_nat (length a + 1) - 1) with (Z.of_nat (length a)) by lia.
  apply (memmove_middle a [b] c [x]). reflexivity.
Qed.

(** Reading a raw key from a file of at most 33 bytes whose last byte is
    [b]. *)
Lemma get_key_material_raw_file_raw k b fsname again newkey w :
  (length k <= 32)%nat ->
  get_key_material_raw (Fp (k ++ [b])) fsname ZFS_KEYFORMAT_RAW again newkey w
  = if b =? 10
    then (Ok (k ++ [0], Z.of_nat (length k), Fp []), w)
    else (Ok (k ++ [b], Z.of_nat (length k) + 1, Fp []), w).
Proof.
  intros Hk. unfold get_key_material_raw.
  rewrite Z.eqb_refl. cbn [negb]. cbv zeta.
  change (Z.to_nat (WRAPPING_KEY_LEN + 1)) with 33%nat.
  assert (Hl : (length (k ++ [b]) <= 33)%nat)
    by (rewrite length_app; cbn [length]; lia).
  assert (Hn : Z.of_nat (length (k ++ [b])) = Z.of_nat (length k) + 1)
    by (rewrite length_app; cbn [length]; lia).
  msimpl. rewrite firstn_all2, skipn_all2 by exact Hl.
  msimpl. rewrite load_byte_last. msimpl.
  destruct (b =? 10) eqn:E.
  - rewrite memmove_last. msimpl. rewrite Hn.
    now replace (Z.of_nat (length k) + 1 - 1) with (Z.of_nat (length k)) by lia.
  - msimpl. now rewrite Hn.
Qed.

Lemma get_key_material_km_file_raw kl k b do_verify newkey fsname w :
  zfs_prop_parse_keylocation kl = ZFS_KEYLOCATION_URI ->
  lookup_file (fs_files w) (uri_path kl) = Some (k ++ [b]) ->
  (length k <= 32)%nat ->
  get_key_material_km do_verify newkey ZFS_KEYFORMAT_RAW kl fsname w
  = let len := if b =? 10 then Z.of_nat (length k) else Z.of_nat (length k) + 1 in
    if len <? 32 then
      (Err EINVAL, set_desc "Raw key too short (expected %u)." w)
    else if 32 <? len then
      (Err EINVAL, set_desc "Raw key too long (expected %u)." w)
    else (Ok (if b =? 10 then k ++ [0] else k ++ [b], len), w).
Proof.
  intros Hp Hf Hk. unfold get_key_material_km. rewrite Hp.
  unfold bind at 1. unfold bind at 1. unfold get at 1. rewrite Hf.
  unfold ret at 1. unfold bind at 1.
  rewrite get_key_material_raw_file_raw by exact Hk.
  unfold get_key_material_validate. rewrite Z.eqb_refl.
  change WRAPPING_KEY_LEN with 32. cbv zeta.
  destruct (b =? 10).
  - destruct (Z.of_nat (length k) <? 32); [reflexivity|].
    destruct (32 <? Z.of_nat (length k)); [reflexivity|].
    msimpl. rewrite andb_false_r. reflexivity.
  - destruct (Z.of_nat (length k) + 1 <? 32); [reflexivity|].
    destruct (32 <? Z.of_nat (length k) + 1); [reflexivity|].
    msimpl. rewrite andb_false_r. reflexivity.
Qed.

Lemma derive_key_raw crypto_mac k tail iters kmlen salt w :
  length k = 32%nat ->
  derive_key crypto_mac ZFS_KEYFORMAT_RAW iters (k ++ tail) kmlen salt w
  = (Ok k, w).
Proof.
  intros H. unfold derive_key. rewrite Z.eqb_refl.
  change WRAPPING_KEY_LEN with (Z.of_nat 32). rewrite <- H.
  now rewrite load_bytes_app.
Qed.

(** C4.  A raw key read from a file of 32 bytes is accepted and is the
    wrapping key, unless its last byte is a newline character: the newline
    is trimmed and the key refused as too short.  A file of 31 bytes is
    refused as too short; a file of 33 bytes is refused as too long unless
    its last byte is a newline character, in which case its first 32 bytes
    are the key. *)
Theorem C4_raw_key_lengths :
  forall (crypto_mac : list Z -> list Z -> option (list Z))
         (kl : string) (k : list Z) (b : Z) (do_verify newkey : bool)
         (fsname : option string) (iters salt : Z) (w : world),
    zfs_prop_parse_keylocation kl = ZFS_KEYLOCATION_URI ->
    lookup_file (fs_files w) (uri_path kl) = Some (k ++ [b]) ->
    let acquire :=
      get_key_material_km do_verify newkey ZFS_KEYFORMAT_RAW kl fsname w in
    let too_short :=
      (Err EINVAL, set_desc "Raw key too short (expected %u)." w) in
    let too_long :=
      (Err EINVAL, set_desc "Raw key too long (expected %u)." w) in
    (* 32 bytes *)
    (length k = 31%nat ->
       (b <> 10 ->
          acquire = (Ok (k ++ [b], 32), w)
          /\ derive_key crypto_mac ZFS_KEYFORMAT_RAW iters (k ++ [b]) 32 salt w
             = (Ok (k ++ [b]), w))
       /\ (b = 10 -> acquire = too_short))
    (* 31 bytes *)
    /\ (length k = 30%nat -> acquire = too_short)
    (* 33 bytes *)
    /\ (length k = 32%nat ->
          (b <> 10 -> acquire = too_long)
          /\ (b = 10 ->
                acquire = (Ok (k ++ [0], 32), w)
                /\ derive_key crypto_mac ZFS_KEYFORMAT_RAW iters (k ++ [0]) 32
                     salt w = (Ok k, w))).
Proof.
  intros crypto_mac kl k b do_verify newkey fsname iters salt w Hp Hf
         acquire too_short too_long.
  repeat split; intros.
  - subst acquire. rewrite (get_key_material_km_file_raw kl k b) by (auto; lia).
    cbv zeta. destruct (Z.eqb_spec b 10); [contradiction|].
    replace (Z.of_nat (length k) + 1) with 32 by lia. reflexivity.
  - rewrite <- (app_nil_r (k ++ [b])) at 1. apply derive_key_raw.
    rewrite length_app. cbn [length]. lia.
  - subst acquire b. rewrite (get_key_material_km_file_raw kl k 10) by (auto; lia).
    cbv zeta. cbn [Z.eqb Pos.eqb]. replace (Z.of_nat (length k)) with 31 by lia.
    reflexivity.
  - subst acquire. rewrite (get_key_material_km_file_raw kl k b) by (auto; lia).
    cbv zeta. replace (Z.of_nat (length k)) with 30 by lia.
    destruct (b =? 10); reflexivity.
  - subst acquire. rewrite (get_key_material_km_file_raw kl k b) by (auto; lia).
    cbv zeta. destruct (Z.eqb_spec b 10); [contradiction|].
    replace (Z.of_nat (length k)) with 32 by lia. reflexivity.
  - subst acquire b. rewrite (get_key_material_km_file_raw kl k 10) by (auto; lia).
    cbv zeta. cbn [Z.eqb Pos.eqb]. replace (Z.of_nat (length k)) with 32 by lia.
    reflexivity.
  - apply derive_key_raw. assumption.
Qed.

Lemma C4_witness :
  get_key_material_km false false ZFS_KEYFORMAT_RAW "file:///raw" None
    Fixture.raw_world
  = (Err EINVAL, set_desc "Raw key too short (expected %u)." Fixture.raw_world).
Proof.
  apply (proj2 (proj1 (C4_raw_key_lengths Fixture.hmac_sha1 "file:///raw"
                         Fixture.raw31 10 false false None 0 0
                         Fixture.raw_world eq_refl eq_refl)
                 eq_refl) eq_refl).
Defined.

Lemma list_case_nonempty {A B} (l : list A) (x y : B) :
  l <> [] -> match l with [] => x | _ :: _ => y end = y.
Proof. destruct l; [contradiction|reflexivity]. Qed.

Lemma get_key_material_raw_file_line content s keyformat fsname again newkey w :
  keyformat <> ZFS_KEYFORMAT_RAW ->
  line_of content s ->
  exists tail fd',
    get_key_material_raw (Fp content) fsname keyformat again newkey w
    = (Ok (s ++ 0 :: tail, Z.of_nat (length s), fd'), w).
Proof.
  intros Hf [Hs Hc]. unfold get_key_material_raw.
  apply Z.eqb_neq in Hf. rewrite Hf. cbn [negb]. msimpl.
  destruct Hc as [[-> Hne] | [rest ->]].
  - rewrite getline_split_eof by exact Hs.
    destruct s as [|b s] using rev_ind; [contradiction|]. clear IHs.
    rewrite list_case_nonempty by exact Hne.
    msimpl. rewrite <- app_assoc. cbn [app].
    rewrite load_byte_last. msimpl.
    destruct (Z.eqb_spec b 10) as [->|_].
    + exfalso. apply Hs, in_or_app. right. now left.
    + msimpl. exists [], (Fp []). now rewrite <- app_assoc.
  - rewrite getline_split_newline by exact Hs.
    rewrite list_case_nonempty by (now destruct s).
    msimpl. rewrite <- app_assoc. cbn [app].
    rewrite load_byte_last. msimpl. cbn [Z.eqb Pos.eqb].
    rewrite memmove_last. msimpl.
    replace (Z.of_nat (length (s ++ [10])) - 1) with (Z.of_nat (length s))
      by (rewrite length_app; cbn [length]; lia).
    now exists [0], (Fp rest).
Qed.

Lemma validate_hex s tail w :
  get_key_material_validate ZFS_KEYFORMAT_HEX (s ++ 0 :: tail)
    (Z.of_nat (length s)) w
  = if is_hex_key s then (Ok tt, w)
    else (Err EINVAL,
          set_desc (if Z.of_nat (length s) <? 64
                    then "Hex key too short (expected %u)."
                    else if 64 <? Z.of_nat (length s)
                         then "Hex key too long (expected %u)."
                         else "Invalid hex character detected.") w).
Proof.
  unfold get_key_material_validate, is_hex_key.
  cbn [ZFS_KEYFORMAT_HEX ZFS_KEYFORMAT_RAW Z.eqb Pos.eqb].
  change (WRAPPING_KEY_LEN * 2) with 64.
  destruct (Z.ltb_spec (Z.of_nat (length s)) 64) as [H1|H1].
  { replace (Z.of_nat (length s) =? 64) with false
      by (symmetry; apply Z.eqb_neq; lia). reflexivity. }
  destruct (Z.ltb_spec 64 (Z.of_nat (length s))) as [H2|H2].
  { replace (Z.of_nat (length s) =? 64) with false
      by (symmetry; apply Z.eqb_neq; lia). reflexivity. }
  assert (E : Z.of_nat (length s) = 64) by lia.
  rewrite <- E at 1. rewrite load_bytes_app. rewrite E, Z.eqb_refl.
  cbn [andb]. msimpl. destruct (forallb isxdigit s); reflexivity.
Qed.

Lemma hex_key_to_raw_loop_decode n :
  forall pre s tail out,
    length s = (2 * n)%nat -> forallb isxdigit s = true ->
    hex_key_to_raw_loop n (pre ++ s ++ tail) (Z.of_nat (length pre)) out
    = Ok (out ++ hex_decode s).
Proof.
  induction n as [|n IH]; intros pre s tail out Hl Hx.
  - destruct s; [|cbn [length] in Hl; lia]. cbn. now rewrite app_nil_r.
  - destruct s as [|hi [|lo s]]; cbn [length] in Hl; try lia.
    cbn [forallb] in Hx. apply andb_prop in Hx as [Hhi Hx].
    apply andb_prop in Hx as [Hlo Hx].
    cbn [hex_key_to_raw_loop hex_decode].
    cbn [app]. rewrite load_byte_app_here. cbn [rbind]. rewrite Hhi.
    cbn [negb].
    replace (Z.of_nat (length pre) + 1) with (Z.of_nat (length (pre ++ [hi])))
      by (rewrite length_app; cbn [length]; lia).
    replace (pre ++ hi :: lo :: s ++ tail) with ((pre ++ [hi]) ++ lo :: s ++ tail)
      by (now rewrite <- app_assoc).
    rewrite load_byte_app_here. cbn [rbind]. rewrite Hlo. cbn [negb].
    replace ((pre ++ [hi]) ++ lo :: s ++ tail)
      with ((pre ++ [hi; lo]) ++ s ++ tail)
      by (now rewrite <- !app_assoc).
    replace (Z.of_nat (length pre) + 2)
      with (Z.of_nat (length (pre ++ [hi; lo])))
      by (rewrite !length_app; cbn [length]; lia).
    rewrite IH by (auto; lia).
    now rewrite <- app_assoc.
Qed.

Lemma hex_decode_length n :
  forall s, length s = (2 * n)%nat -> length (hex_decode s) = n.
Proof.
  induction n as [|n IH]; intros s H.
  - destruct s; [reflexivity|cbn [length] in H; lia].
  - destruct s as [|hi [|lo s]]; cbn [length] in H; try lia.
    cbn [hex_decode length]. f_equal. apply IH. lia.
Qed.

Lemma is_hex_key_spec s :
  is_hex_key s = true <->
  length s = 64%nat /\ Forall (fun c => isxdigit c = true) s.
Proof.
  unfold is_hex_key. rewrite andb_true_iff, Z.eqb_eq, forallb_forall, Forall_forall.
  split; intros [H1 H2]; split; auto; lia.
Qed.

Lemma derive_key_hex crypto_mac s tail iters kmlen salt w :
  is_hex_key s = true ->
  derive_key crypto_mac ZFS_KEYFORMAT_HEX iters (s ++ 0 :: tail) kmlen salt w
  = (Ok (hex_decode s), w).
Proof.
  intros H. unfold is_hex_key in H. apply andb_prop in H as [Hl Hx].
  apply Z.eqb_eq in Hl.
  unfold derive_key.
  cbn [ZFS_KEYFORMAT_HEX ZFS_KEYFORMAT_RAW Z.eqb Pos.eqb].
  unfold hex_key_to_raw.
  change (Z.to_nat ((WRAPPING_KEY_LEN * 2 + 1) / 2)) with 32%nat.
  pose proof (hex_key_to_raw_loop_decode 32 [] s (0 :: tail) []
                ltac:(lia) Hx) as E.
  cbn [app length Z.of_nat] in E. rewrite E. reflexivity.
Qed.

(** C5.  Hex key material read from a file is accepted iff it is exactly
    64 characters, all hexadecimal digits; [derive_key] then decodes it into
    32 bytes, two characters per byte, high nibble first.  Any other length
    and any other character give [EINVAL]. *)
Theorem C5_hex_key_material :
  forall (crypto_mac : list Z -> list Z -> option (list Z))
         (kl : string) (content s : list Z) (do_verify newkey : bool)
         (fsname : option string) (iters salt : Z) (w : world),
    zfs_prop_parse_keylocation kl = ZFS_KEYLOCATION_URI ->
    lookup_file (fs_files w) (uri_path kl) = Some content ->
    line_of content s ->
    let acquire :=
      get_key_material_km do_verify newkey ZFS_KEYFORMAT_HEX kl fsname w in
    (is_hex_key s = true <->
       length s = 64%nat /\ Forall (fun c => isxdigit c = true) s)
    /\ (is_hex_key s = true ->
          exists tail,
            acquire = (Ok (s ++ 0 :: tail, 64), w)
            /\ derive_key crypto_mac ZFS_KEYFORMAT_HEX iters (s ++ 0 :: tail)
                 64 salt w = (Ok (hex_decode s), w)
            /\ length (hex_decode s) = 32%nat)
    /\ (is_hex_key s = false ->
          exists msg, acquire = (Err EINVAL, set_desc msg w))
    (* the check itself, wherever the key material comes from *)
    /\ (forall tail w',
          exists msg,
            get_key_material_validate ZFS_KEYFORMAT_HEX (s ++ 0 :: tail)
              (Z.of_nat (length s)) w'
            = if is_hex_key s then (Ok tt, w')
              else (Err EINVAL, set_desc msg w')).
Proof.
  intros crypto_mac kl content s do_verify newkey fsname iters salt w
         Hp Hf Hline acquire.
  assert (Hacq : exists tail,
             acquire =
             match get_key_material_validate ZFS_KEYFORMAT_HEX (s ++ 0 :: tail)
                     (Z.of_nat (length s)) w with
             | (Ok _, w') => (Ok (s ++ 0 :: tail, Z.of_nat (length s)), w')
             | (Err e, w') => (Err e, w')
             | (Undef, w') => (Undef, w')
             end).
  { subst acquire. unfold get_key_material_km. rewrite Hp.
    unfold bind at 1. unfold bind at 1. unfold get at 1. rewrite Hf.
    unfold ret at 1. unfold bind at 1.
    destruct (get_key_material_raw_file_line content s ZFS_KEYFORMAT_HEX
                fsname false newkey w ltac:(discriminate) Hline)
      as (tail & fd' & ->).
    exists tail. unfold bind at 1.
    destruct (get_key_material_validate _ _ _ w) as [[[]|e|] w']; try reflexivity.
    msimpl. now rewrite andb_false_r. }
  destruct Hacq as [tail Hacq]. rewrite validate_hex in Hacq.
  split; [apply is_hex_key_spec|]. split; [|split].
  - intros Hk. rewrite Hk in Hacq.
    exists tail. pose proof Hk as Hk'. apply is_hex_key_spec in Hk' as [Hl _].
    rewrite Hl in Hacq. split; [exact Hacq|]. split.
    + now apply derive_key_hex.
    + apply hex_decode_length. lia.
  - intros Hk. rewrite Hk in Hacq. eexists. exact Hacq.
  - intros tail' w'. eexists. apply validate_hex.
Qed.

Lemma right_entry_line : line_of Fixture.right_entry (repeat 97 64).
Proof.
  split.
  - intros H. apply repeat_spec in H. discriminate.
  - right. exists []. reflexivity.
Defined.

Lemma C5_witness :
  exists tail,
    get_key_material_km false false ZFS_KEYFORMAT_HEX "file:///right" None
      (Fixture.world_of false [])
    = (Ok (repeat 97 64 ++ 0 :: tail, 64), Fixture.world_of false [])
    /\ derive_key Fixture.hmac_sha1 ZFS_KEYFORMAT_HEX 0
         (repeat 97 64 ++ 0 :: tail) 64 0 (Fixture.world_of false [])
       = (Ok (hex_decode (repeat 97 64)), Fixture.world_of false [])
    /\ length (hex_decode (repeat 97 64)) = 32%nat.
Proof.
  apply (proj1 (proj2 (C5_hex_key_material Fixture.hmac_sha1 "file:///right"
                         Fixture.right_entry (repeat 97 64) false false None
                         0 0 (Fixture.world_of false []) eq_refl eq_refl
                         right_entry_line))
           eq_refl).
Defined.

(** ** Create and clone *)

Lemma nvlist_lookup_app l1 l2 name :
  nvlist_lookup (l1 ++ l2) name =
  match nvlist_lookup l1 name with
  | Some v => Some v
  | None => nvlist_lookup l2 name
  end.
Proof.
  induction l1 as [|[n v] l1 IH]; cbn [app nvlist_lookup]; [reflexivity|].
  destruct (String.eqb n name); [reflexivity|exact IH].
Qed.

Lemma nvlist_lookup_remove_other l name name' :
  name <> name' ->
  nvlist_lookup (nvlist_remove l name) name' = nvlist_lookup l name'.
Proof.
  intros Hne. unfold nvlist_remove.
  induction l as [|[n v] l IH]; cbn [filter nvlist_lookup fst]; [reflexivity|].
  destruct (String.eqb_spec n name) as [->|Hn]; cbn [negb nvlist_lookup].
  - destruct (String.eqb_spec name name'); [contradiction|exact IH].
  - destruct (String.eqb n name'); [reflexivity|exact IH].
Qed.

Lemma nvlist_lookup_remove_same l name :
  nvlist_lookup (nvlist_remove l name) name = None.
Proof.
  unfold nvlist_remove.
  induction l as [|[n v] l IH]; cbn [filter nvlist_lookup fst]; [reflexivity|].
  destruct (String.eqb_spec n name) as [->|Hn]; cbn [negb nvlist_lookup].
  - exact IH.
  - destruct (String.eqb_spec n name); [contradiction|exact IH].
Qed.

Lemma nvlist_lookup_add_same l name v :
  nvlist_lookup (nvlist_add l name v) name = Some v.
Proof.
  unfold nvlist_add. rewrite nvlist_lookup_app, nvlist_lookup_remove_same.
  cbn [nvlist_lookup]. now rewrite String.eqb_refl.
Qed.

Lemma nvlist_lookup_add_other l name v name' :
  name <> name' ->
  nvlist_lookup (nvlist_add l name v) name' = nvlist_lookup l name'.
Proof.
  intros Hne. unfold nvlist_add.
  rewrite nvlist_lookup_app, nvlist_lookup_remove_other by exact Hne.
  cbn [nvlist_lookup]. destruct (String.eqb_spec name name'); [contradiction|].
  now destruct (nvlist_lookup l name').
Qed.


Lemma keeps_ret {A} (a : A) : keeps_keylocation (ret a).
Proof. intros s. reflexivity. Qed.

Lemma keeps_liftW {A} (c : M A) : keeps_keylocation (liftW c).
Proof. intros [w p]. unfold liftW. cbn [fst snd]. now destruct (c w). Qed.

Lemma keeps_bind {A B} (c : MP A) (k : A -> MP B) :
  keeps_keylocation c -> (forall a, keeps_keylocation (k a)) ->
  keeps_keylocation (bind c k).
Proof.
  intros Hc Hk s. unfold bind. specialize (Hc s).
  destruct (c s) as [[a|e|] s']; cbn [snd] in *; try exact Hc.
  now rewrite Hk.
Qed.

Lemma keeps_on_error {A} (c : MP A) (h : MP unit) :
  keeps_keylocation c -> keeps_keylocation h -> keeps_keylocation (on_error c h).
Proof.
  intros Hc Hh s. unfold on_error. specialize (Hc s).
  destruct (c s) as [[a|e|] s']; cbn [snd] in *; try exact Hc.
  now rewrite Hh.
Qed.

Lemma keeps_add name v :
  name <> PROP_KEYLOCATION ->
  keeps_keylocation (set_props (fun p => nvlist_add p name v)).
Proof.
  intros Hne [w p]. cbn. now apply nvlist_lookup_add_other.
Qed.

Lemma populate_keeps_keylocation crypto_mac fsname newkey keyformat kl :
  keeps_keylocation
    (populate_create_encryption_params_nvlists crypto_mac fsname newkey
       keyformat kl).
Proof.
  unfold populate_create_encryption_params_nvlists.
  apply keeps_bind; [apply keeps_liftW|]. intros [km kmlen].
  apply keeps_bind; [|intros [iters salt]; apply keeps_liftW].
  destruct (keyformat =? ZFS_KEYFORMAT_PASSPHRASE).
  - apply keeps_bind; [apply keeps_on_error; apply keeps_liftW|]. intros salt.
    apply keeps_bind; [apply keeps_add; discriminate|]. intros _.
    apply keeps_bind; [intros s; reflexivity|]. intros props.
    destruct (nvlist_lookup_uint64 props PROP_PBKDF2_ITERS).
    + apply keeps_ret.
    + apply keeps_bind; [apply keeps_liftW|]. intros iters.
      apply keeps_bind; [apply keeps_add; discriminate|]. intros _.
      apply keeps_ret.
  - apply keeps_bind; [intros s; reflexivity|]. intros props.
    destruct (nvlist_lookup_uint64 props PROP_PBKDF2_ITERS).
    + apply keeps_liftW.
    + apply keeps_ret.
Qed.


(** [zfs_crypto_create] once the parent and the feature are settled. *)
Lemma zfs_crypto_create_decision crypto_mac w props parent_name pool_props pcrypt :
  create_parent w pool_props parent_name pcrypt ->
  effective_crypt props pcrypt <> ZIO_CRYPT_OFF ->
  let keyformat := create_keyformat props in
  let keylocation := nvlist_lookup_string props PROP_KEYLOCATION in
  zfs_crypto_create crypto_mac parent_name pool_props (w, props)
  = if (pcrypt =? ZIO_CRYPT_OFF) && negb (is_some keylocation)
       && (keyformat =? ZFS_KEYFORMAT_NONE)
    then liftW (fail_aux EINVAL "Keyformat required for new encryption root.")
           (w, props)
    else if is_some keylocation && (keyformat =? ZFS_KEYFORMAT_NONE)
    then liftW (fail_aux EINVAL "Keyformat required for new encryption root.")
           (w, props)
    else
      (keylocation' <-
         (if negb (keyformat =? ZFS_KEYFORMAT_NONE) && negb (is_some keylocation)
          then set_props (fun p =>
                 nvlist_add p PROP_KEYLOCATION (NvString "prompt")) ;;;
               ret (Some "prompt")
          else ret keylocation) ;;
       match keylocation' with
       | Some kl =>
           wkey <- populate_create_encryption_params_nvlists crypto_mac None
                     false keyformat kl ;;
           ret (Some wkey, WRAPPING_KEY_LEN)
       | None => ret (None, 0)
       end) (w, props).
Proof.
  intros Hparent Heff keyformat keylocation.
  unfold zfs_crypto_create. unfold bind at 1. unfold get_props, get at 1.
  cbn [snd]. fold (create_keyformat props). fold keyformat. fold keylocation.
  assert (Hgate :
    forall k : Z * option (MP (option (list Z) * Z)) -> MP (option (list Z) * Z),
      bind match parent_name with
           | Some pname =>
               mk <- liftW (get make_dataset_handle) ;;
               match mk pname with
               | None => liftW (fail_aux ENOENT "Failed to lookup parent.")
               | Some pzhp =>
                   ret (zh_encryption pzhp,
                        create_feature_gate (zh_feature_enabled pzhp) props)
               end
           | None =>
               ret (ZIO_CRYPT_OFF,
                    create_feature_gate
                      (nvlist_exists pool_props "feature@encryption") props)
           end k (w, props)
      = k (pcrypt, None) (w, props)).
  { intros k. destruct Hparent as [pname pzhp Hmk Hfe | Hfe].
    - unfold bind, liftW, get, ret. cbn [fst snd]. rewrite Hmk, Hfe. reflexivity.
    - unfold bind, ret. rewrite Hfe. reflexivity. }
  rewrite Hgate. cbv beta iota.
  unfold effective_crypt in Heff.
  destruct (nvlist_lookup_uint64 props PROP_ENCRYPTION) as [crypt|];
    cbn [is_some opt_default].
  - apply Z.eqb_neq in Heff. rewrite Heff. cbn [andb]. cbv iota.
    destruct ((pcrypt =? _) && _ && _); [reflexivity|].
    destruct (is_some keylocation && _); reflexivity.
  - apply Z.eqb_neq in Heff. rewrite Heff.
    change (ZIO_CRYPT_INHERIT =? ZIO_CRYPT_OFF) with false. cbn [andb].
    cbv iota. destruct (is_some keylocation && _); reflexivity.
Qed.

(** C6.  In [zfs_crypto_create], with the feature enabled and the
    effective encryption on: a keylocation without keyformat is refused with
    [EINVAL]; a keyformat without keylocation sets keylocation to [prompt],
    in [props] as well, and the key is collected from there; with a parent
    that is not encrypted, neither of the two given is refused with the
    message that a keyformat is required. *)
Theorem C6_create_keyformat_keylocation :
  forall (crypto_mac : list Z -> list Z -> option (list Z))
         (w : world) (props pool_props : nvlist)
         (parent_name : option string) (pcrypt : Z),
    create_parent w pool_props parent_name pcrypt ->
    effective_crypt props pcrypt <> ZIO_CRYPT_OFF ->
    let keyformat := create_keyformat props in
    let keylocation := nvlist_lookup_string props PROP_KEYLOCATION in
    let r := zfs_crypto_create crypto_mac parent_name pool_props (w, props) in
    let keyformat_required :=
      (Err EINVAL,
       (set_desc "Keyformat required for new encryption root." w, props)) in
    (* keylocation without keyformat *)
    (keylocation <> None -> keyformat = ZFS_KEYFORMAT_NONE ->
       r = keyformat_required)
    (* keyformat without keylocation *)
    /\ (keyformat <> ZFS_KEYFORMAT_NONE -> keylocation = None ->
          r = match populate_create_encryption_params_nvlists crypto_mac None
                      false keyformat "prompt"
                      (w, nvlist_add props PROP_KEYLOCATION (NvString "prompt"))
              with
              | (Ok wkey, s) => (Ok (Some wkey, WRAPPING_KEY_LEN), s)
              | (Err e, s) => (Err e, s)
              | (Undef, s) => (Undef, s)
              end
          /\ nvlist_lookup_string (snd (snd r)) PROP_KEYLOCATION
             = Some "prompt")
    (* neither, under a parent that is not encrypted *)
    /\ (pcrypt = ZIO_CRYPT_OFF -> keyformat = ZFS_KEYFORMAT_NONE ->
          keylocation = None -> r = keyformat_required).
Proof.
  intros crypto_mac w props pool_props parent_name pcrypt Hparent Heff
         keyformat keylocation r keyformat_required.
  pose proof (zfs_crypto_create_decision crypto_mac w props parent_name
                pool_props pcrypt Hparent Heff) as Hr.
  cbv zeta in Hr. fold keyformat keylocation r in Hr.
  split; [|split].
  - intros Hkl Hkf. rewrite Hr, Hkf.
    destruct keylocation; [|contradiction].
    cbn [is_some negb andb]. rewrite andb_false_r. reflexivity.
  - intros Hkf Hkl. apply Z.eqb_neq in Hkf.
    assert (E : r = match populate_create_encryption_params_nvlists crypto_mac
                            None false keyformat "prompt"
                            (w, nvlist_add props PROP_KEYLOCATION
                                  (NvString "prompt")) with
                    | (Ok wkey, s) => (Ok (Some wkey, WRAPPING_KEY_LEN), s)
                    | (Err e, s) => (Err e, s)
                    | (Undef, s) => (Undef, s)
                    end).
    { rewrite Hr, Hkl, Hkf. cbn [is_some negb andb]. rewrite andb_false_r.
      unfold bind, set_props, modify, ret. cbn [fst snd].
      destruct (populate_create_encryption_params_nvlists _ _ _ _ _ _)
        as [[wkey|e|] s]; reflexivity. }
    split; [exact E|]. rewrite E.
    pose proof (populate_keeps_keylocation crypto_mac None false keyformat
                  "prompt"
                  (w, nvlist_add props PROP_KEYLOCATION (NvString "prompt")))
      as Hkeep.
    cbn [snd] in Hkeep. rewrite nvlist_lookup_add_same in Hkeep.
    unfold nvlist_lookup_string.
    destruct (populate_create_encryption_params_nvlists _ _ _ _ _ _)
      as [[wkey|e|] s]; cbn [snd] in *; now rewrite Hkeep.
  - intros Hpc Hkf Hkl. rewrite Hr, Hpc, Hkf, Hkl. reflexivity.
Qed.

Lemma pool_create_parent :
  create_parent (Fixture.world_of false []) [] (Some "pool") ZIO_CRYPT_OFF.
Proof.
  apply (CreateUnderParent _ _ "pool" Fixture.pool); reflexivity.
Defined.

Lemma C6_witness :
  zfs_crypto_create Fixture.hmac_sha1 (Some "pool") []
    (Fixture.world_of false [], [(PROP_ENCRYPTION, NvUint64 ZIO_CRYPT_ON)])
  = (Err EINVAL,
     (set_desc "Keyformat required for new encryption root."
        (Fixture.world_of false []),
      [(PROP_ENCRYPTION, NvUint64 ZIO_CRYPT_ON)])).
Proof.
  apply (proj2 (proj2 (C6_create_keyformat_keylocation Fixture.hmac_sha1
                         (Fixture.world_of false [])
                         [(PROP_ENCRYPTION, NvUint64 ZIO_CRYPT_ON)] []
                         (Some "pool") ZIO_CRYPT_OFF pool_create_parent
                         ltac:(discriminate)))
           eq_refl eq_refl eq_refl).
Defined.

(** C7 (amended).  In [zfs_crypto_clone], with an encrypted origin whose key
    is unavailable, the clone is always refused: with [EINVAL] when [props]
    holds an encryption value or a keylocation without keyformat, which are
    looked at first, and with [EACCES] in every other case. *)
Theorem C7_clone_origin_key_unavailable :
  forall (crypto_mac : list Z -> list Z -> option (list Z))
         (origin_zhp pzhp : zfs_handle) (parent_name : string)
         (w : world) (props : nvlist),
    make_dataset_handle w parent_name = Some pzhp ->
    zh_encryption origin_zhp <> ZIO_CRYPT_OFF ->
    zh_keystatus origin_zhp = ZFS_KEYSTATUS_UNAVAILABLE ->
    let keyformat := create_keyformat props in
    let keylocation := nvlist_lookup_string props PROP_KEYLOCATION in
    let r := zfs_crypto_clone crypto_mac origin_zhp parent_name (w, props) in
    (* an explicit encryption value is refused first *)
    (nvlist_lookup_uint64 props PROP_ENCRYPTION <> None ->
       r = (Err EINVAL,
            (set_desc "Encryption may not be specified during cloning." w,
             props)))
    (* then a keylocation without keyformat *)
    /\ (nvlist_lookup_uint64 props PROP_ENCRYPTION = None ->
          keylocation <> None -> keyformat = ZFS_KEYFORMAT_NONE ->
          r = (Err EINVAL,
               (set_desc "Keyformat required for new encryption root." w,
                props)))
    (* otherwise the origin's key is asked for *)
    /\ (nvlist_lookup_uint64 props PROP_ENCRYPTION = None ->
          (keylocation = None \/ keyformat <> ZFS_KEYFORMAT_NONE) ->
          fst r = Err EACCES
          /\ fst (snd r) = set_desc "Origin wrapping key must be loaded." w)
    (* in every case the clone is refused *)
    /\ (exists e, fst r = Err e).
Proof.
  intros crypto_mac origin_zhp pzhp parent_name w props Hmk Hoc Hks
         keyformat keylocation r.
  assert (Hr :
    r = if is_some (nvlist_lookup_uint64 props PROP_ENCRYPTION) then
          (Err EINVAL,
           (set_desc "Encryption may not be specified during cloning." w, props))
        else if is_some keylocation && (keyformat =? ZFS_KEYFORMAT_NONE) then
          (Err EINVAL,
           (set_desc "Keyformat required for new encryption root." w, props))
        else
          (Err EACCES,
           (set_desc "Origin wrapping key must be loaded." w,
            if negb (keyformat =? ZFS_KEYFORMAT_NONE) && negb (is_some keylocation)
            then nvlist_add props PROP_KEYLOCATION (NvString "prompt")
            else props))).
  { subst r. unfold zfs_crypto_clone.
    unfold bind at 1. unfold liftW at 1, get at 1. cbn [fst snd]. rewrite Hmk.
    unfold bind at 1. unfold get_props, get at 1. cbn [snd].
    fold (create_keyformat props). fold keyformat. fold keylocation.
    apply Z.eqb_neq in Hoc. rewrite Hoc, Hks, andb_false_r.
    change (ZFS_KEYSTATUS_UNAVAILABLE =? ZFS_KEYSTATUS_AVAILABLE) with false.
    cbn [negb].
    destruct (is_some (nvlist_lookup_uint64 props PROP_ENCRYPTION));
      [reflexivity|].
    destruct (is_some keylocation && (keyformat =? ZFS_KEYFORMAT_NONE));
      [reflexivity|].
    destruct (negb (keyformat =? ZFS_KEYFORMAT_NONE) && negb (is_some keylocation));
      reflexivity. }
  split; [|split; [|split]].
  - intros H. rewrite Hr.
    destruct (nvlist_lookup_uint64 props PROP_ENCRYPTION); [reflexivity|].
    contradiction.
  - intros H Hkl Hkf. rewrite Hr, H, Hkf. cbn [is_some].
    destruct keylocation; [reflexivity|contradiction].
  - intros Henc Hpair. rewrite Hr, Henc. cbn [is_some].
    destruct Hpair as [-> | Hkf]; [split; reflexivity|].
    apply Z.eqb_neq in Hkf. rewrite Hkf, andb_false_r. split; reflexivity.
  - rewrite Hr.
    destruct (is_some (nvlist_lookup_uint64 props PROP_ENCRYPTION));
      [now eexists|].
    destruct (is_some keylocation && (keyformat =? ZFS_KEYFORMAT_NONE));
      now eexists.
Qed.

Lemma C7_witness :
  fst (zfs_crypto_clone Fixture.hmac_sha1 (Fixture.secret "prompt") "pool"
         (Fixture.world_of false [],
          [(PROP_KEYFORMAT, NvUint64 ZFS_KEYFORMAT_HEX)]))
  = Err EACCES.
Proof.
  apply (proj1 (proj1 (proj2 (proj2 (C7_clone_origin_key_unavailable
                         Fixture.hmac_sha1 (Fixture.secret "prompt")
                         Fixture.pool "pool" (Fixture.world_of false [])
                         [(PROP_KEYFORMAT, NvUint64 ZFS_KEYFORMAT_HEX)]
                         eq_refl ltac:(discriminate) eq_refl)))
                  eq_refl (or_introl eq_refl))).
Defined.

(** The origin is encrypted and its key unavailable, an encryption value is
    supplied: the clone is refused with [EINVAL], not [EACCES]. *)
Lemma C7_counterexample_explicit_encryption :
  zh_encryption (Fixture.secret "prompt") <> ZIO_CRYPT_OFF
  /\ zh_keystatus (Fixture.secret "prompt") = ZFS_KEYSTATUS_UNAVAILABLE
  /\ fst (zfs_crypto_clone Fixture.hmac_sha1 (Fixture.secret "prompt") "pool"
            (Fixture.world_of false [],
             [(PROP_ENCRYPTION, NvUint64 ZIO_CRYPT_ON)]))
     = Err EINVAL
  /\ EINVAL <> EACCES.
Proof. vm_compute. repeat split; try reflexivity; discriminate. Qed.

(** ** Rewrap *)

Lemma is_encryption_root_cases zhp :
  zfs_crypto_is_encryption_root zhp = (0, true)
  \/ (snd (zfs_crypto_is_encryption_root zhp) = false).
Proof.
  unfold zfs_crypto_is_encryption_root.
  destruct (zh_encryption zhp =? ZIO_CRYPT_OFF); [now right|].
  destruct (zh_keylocation_ret zhp =? 0); [|now right].
  destruct (zh_keylocation_srctype zhp =? ZPROP_SRC_INHERITED);
    [now right|now left].
Qed.

Lemma rewrap_inherit_checks_ok zhp w :
  fst (rewrap_inherit_checks zhp w) = Ok tt ->
  inherit_ready w zhp /\ snd (rewrap_inherit_checks zhp w) = w.
Proof.
  unfold rewrap_inherit_checks, inherit_ready.
  destruct (is_encryption_root_cases zhp) as [E|E].
  - rewrite E. cbn [negb orb Z.eqb].
    destruct (zh_parent_name zhp) as [pn|]; [|discriminate].
    unfold bind, get.
    destruct (make_dataset_handle w pn) as [pzhp|] eqn:Hmk; [|discriminate].
    destruct (Z.eqb_spec (zh_encryption pzhp) ZIO_CRYPT_OFF); [discriminate|].
    destruct (Z.eqb_spec (zh_keystatus pzhp) ZFS_KEYSTATUS_UNAVAILABLE);
      [discriminate|].
    intros _. split; [|reflexivity]. split; [reflexivity|].
    exists pn, pzhp. auto.
  - destruct (zfs_crypto_is_encryption_root zhp) as [r0 b]. cbn [snd] in E.
    subst b. rewrite orb_true_r. discriminate.
Qed.

Lemma rewrap_mode crypto_mac zhp raw_props inheritkey w :
  zh_feature_enabled zhp = true ->
  zh_encryption zhp <> ZIO_CRYPT_OFF ->
  zfs_crypto_rewrap crypto_mac zhp raw_props inheritkey w
  = (args <- (if negb inheritkey then
                ' (props, wkey) <- rewrap_new_key crypto_mac zhp raw_props ;;
                ret (Some props, Some wkey)
              else
                rewrap_inherit_checks zhp ;;;
                ret (None, None)) ;;
     let '(props, wkeydata) := args in
     if zh_keystatus zhp =? ZFS_KEYSTATUS_UNAVAILABLE then
       fail_aux EACCES "Key must be loaded."
     else
       change <- get lzc_change_key ;;
       modify (add_ioctl (IocChangeKey (zfs_name zhp) props wkeydata)) ;;;
       let e := change (zfs_name zhp) props wkeydata in
       if e =? 0 then ret tt
       else change_key_ioctl_message e ;;; fail e) w.
Proof.
  intros Hf Hc. unfold zfs_crypto_rewrap. rewrite Hf.
  apply Z.eqb_neq in Hc. rewrite Hc. reflexivity.
Qed.

Lemma rewrap_inherit_checks_eq zhp w :
  rewrap_inherit_checks zhp w
  = if negb (fst (zfs_crypto_is_encryption_root zhp) =? 0)
       || negb (snd (zfs_crypto_is_encryption_root zhp))
    then (Err EINVAL,
          set_desc "Key inheritting can only be performed on encryption roots." w)
    else match zh_parent_name zhp with
         | None => (Err EINVAL, set_desc "Root dataset cannot inherit key." w)
         | Some pn =>
             match make_dataset_handle w pn with
             | None => (Err ENOENT, set_desc "Failed to lookup parent." w)
             | Some pzhp =>
                 if zh_encryption pzhp =? ZIO_CRYPT_OFF
                 then (Err EINVAL, set_desc "Parent must be encrypted." w)
                 else if zh_keystatus pzhp =? ZFS_KEYSTATUS_UNAVAILABLE
                 then (Err EACCES, set_desc "Parent key must be loaded." w)
                 else (Ok tt, w)
             end
         end.
Proof.
  unfold rewrap_inherit_checks.
  destruct (zfs_crypto_is_encryption_root zhp) as [r0 b]. cbn [fst snd].
  destruct (negb (r0 =? 0) || negb b); [reflexivity|].
  destruct (zh_parent_name zhp) as [pn|]; [|reflexivity].
  unfold bind, get. destruct (make_dataset_handle w pn) as [pzhp|];
    [|reflexivity].
  destruct (zh_encryption pzhp =? ZIO_CRYPT_OFF); [reflexivity|].
  destruct (zh_keystatus pzhp =? ZFS_KEYSTATUS_UNAVAILABLE); reflexivity.
Qed.


Lemma change_key_ioctl_message_ok e w :
  fst (change_key_ioctl_message e w) = Ok tt.
Proof.
  unfold change_key_ioctl_message.
  destruct (e =? EINVAL); [reflexivity|]. destruct (e =? EACCES); reflexivity.
Qed.

Lemma rewrap_inherit_eq crypto_mac zhp raw_props w :
  zh_feature_enabled zhp = true ->
  zh_encryption zhp <> ZIO_CRYPT_OFF ->
  zfs_crypto_rewrap crypto_mac zhp raw_props true w
  = match rewrap_inherit_checks zhp w with
    | (Ok _, w') =>
        if zh_keystatus zhp =? ZFS_KEYSTATUS_UNAVAILABLE
        then (Err EACCES, set_desc "Key must be loaded." w')
        else change_key_call zhp None None w'
    | (Err e, w') => (Err e, w')
    | (Undef, w') => (Undef, w')
    end.
Proof.
  intros Hf Hc. rewrite rewrap_mode by assumption. cbn [negb].
  unfold bind at 1. unfold bind at 1.
  destruct (rewrap_inherit_checks zhp w) as [[[]|e|] w']; try reflexivity.
  unfold ret at 1. cbv beta iota.
  destruct (zh_keystatus zhp =? ZFS_KEYSTATUS_UNAVAILABLE); [reflexivity|].
  unfold change_key_call, bind, get, modify. cbv zeta.
  destruct (lzc_change_key w' (zfs_name zhp) None None =? 0) eqn:E;
    [reflexivity|].
  pose proof (change_key_ioctl_message_ok
                (lzc_change_key w' (zfs_name zhp) None None)
                (add_ioctl (IocChangeKey (zfs_name zhp) None None) w')) as Hm.
  destruct (change_key_ioctl_message _ _) as [[[]|e|] w'']; cbn [fst] in Hm;
    try discriminate. reflexivity.
Qed.

Lemma rewrap_rekey_eq crypto_mac zhp raw_props w :
  zh_feature_enabled zhp = true ->
  zh_encryption zhp <> ZIO_CRYPT_OFF ->
  zfs_crypto_rewrap crypto_mac zhp raw_props false w
  = match rewrap_new_key crypto_mac zhp raw_props w with
    | (Ok (props, wkey), w') =>
        if zh_keystatus zhp =? ZFS_KEYSTATUS_UNAVAILABLE
        then (Err EACCES, set_desc "Key must be loaded." w')
        else change_key_call zhp (Some props) (Some wkey) w'
    | (Err e, w') => (Err e, w')
    | (Undef, w') => (Undef, w')
    end.
Proof.
  intros Hf Hc. rewrite rewrap_mode by assumption. cbn [negb].
  unfold bind at 1. unfold bind at 1.
  destruct (rewrap_new_key crypto_mac zhp raw_props w)
    as [[[props wkey]|e|] w']; try reflexivity.
  unfold ret at 1. cbv beta iota.
  destruct (zh_keystatus zhp =? ZFS_KEYSTATUS_UNAVAILABLE); [reflexivity|].
  unfold change_key_call, bind, get, modify. cbv zeta.
  destruct (lzc_change_key w' (zfs_name zhp) _ _ =? 0) eqn:E;
    [reflexivity|].
  pose proof (change_key_ioctl_message_ok
                (lzc_change_key w' (zfs_name zhp) (Some props) (Some wkey))
                (add_ioctl (IocChangeKey (zfs_name zhp) (Some props) (Some wkey))
                   w')) as Hm.
  destruct (change_key_ioctl_message _ _) as [[[]|e|] w'']; cbn [fst] in Hm;
    try discriminate. reflexivity.
Qed.

Lemma change_key_call_ioctls zhp props wkeydata w :
  ioctls (snd (change_key_call zhp props wkeydata w))
  = ioctls w ++ [IocChangeKey (zfs_name zhp) props wkeydata].
Proof.
  unfold change_key_call. cbv zeta.
  destruct (_ =? 0); [reflexivity|]. unfold change_key_ioctl_message.
  destruct (_ =? EINVAL); [reflexivity|]. destruct (_ =? EACCES); reflexivity.
Qed.

Lemma change_key_call_stdin zhp props wkeydata w :
  stdin_data (snd (change_key_call zhp props wkeydata w)) = stdin_data w.
Proof.
  unfold change_key_call. cbv zeta.
  destruct (_ =? 0); [reflexivity|]. unfold change_key_ioctl_message.
  destruct (_ =? EINVAL); [reflexivity|]. destruct (_ =? EACCES); reflexivity.
Qed.

(** C8.  In [zfs_crypto_rewrap] on an encrypted dataset, the inheriting
    variant succeeds only if the dataset is an encryption root, has a parent,
    the parent is encrypted and the parent's key is not unavailable; it is
    refused with [EINVAL] (not a root, no parent name, parent not encrypted),
    [ENOENT] (parent not found) or [EACCES] (parent key unavailable), and
    hands no wrapping key to the storage layer.  In both variants the
    dataset's own key must not be unavailable, else [EACCES]. *)
Theorem C8_rewrap_requirements :
  forall (crypto_mac : list Z -> list Z -> option (list Z))
         (zhp : zfs_handle) (raw_props : nvlist) (w : world),
    zh_feature_enabled zhp = true ->
    zh_encryption zhp <> ZIO_CRYPT_OFF ->
    let inherit := zfs_crypto_rewrap crypto_mac zhp raw_props true w in
    let rekey := zfs_crypto_rewrap crypto_mac zhp raw_props false w in
    let root := zfs_crypto_is_encryption_root zhp in
    (* inheriting succeeds only with every requirement met *)
    (fst inherit = Ok tt ->
       inherit_ready w zhp /\ zh_keystatus zhp <> ZFS_KEYSTATUS_UNAVAILABLE)
    (* the refusals of the inheriting variant, in the order they are tried *)
    /\ (snd root = false ->
          inherit = (Err EINVAL,
            set_desc "Key inheritting can only be performed on encryption roots."
                     w))
    /\ (root = (0, true) -> zh_parent_name zhp = None ->
          inherit = (Err EINVAL, set_desc "Root dataset cannot inherit key." w))
    /\ (forall pn,
          root = (0, true) -> zh_parent_name zhp = Some pn ->
          make_dataset_handle w pn = None ->
          inherit = (Err ENOENT, set_desc "Failed to lookup parent." w))
    /\ (forall pn pzhp,
          root = (0, true) -> zh_parent_name zhp = Some pn ->
          make_dataset_handle w pn = Some pzhp ->
          (zh_encryption pzhp = ZIO_CRYPT_OFF ->
             inherit = (Err EINVAL, set_desc "Parent must be encrypted." w))
          /\ (zh_encryption pzhp <> ZIO_CRYPT_OFF ->
              zh_keystatus pzhp = ZFS_KEYSTATUS_UNAVAILABLE ->
              inherit = (Err EACCES, set_desc "Parent key must be loaded." w)))
    /\ (inherit_ready w zhp ->
          zh_keystatus zhp = ZFS_KEYSTATUS_UNAVAILABLE ->
          inherit = (Err EACCES, set_desc "Key must be loaded." w))
    (* inheriting hands no property and no wrapping key to the storage layer *)
    /\ (ioctls (snd inherit) = ioctls w
        \/ ioctls (snd inherit)
           = ioctls w ++ [IocChangeKey (zfs_name zhp) None None])
    (* and reads no key material *)
    /\ stdin_data (snd inherit) = stdin_data w
    (* a new key also needs the current one *)
    /\ (fst rekey = Ok tt -> zh_keystatus zhp <> ZFS_KEYSTATUS_UNAVAILABLE)
    /\ (forall props wkey w',
          rewrap_new_key crypto_mac zhp raw_props w = (Ok (props, wkey), w') ->
          zh_keystatus zhp = ZFS_KEYSTATUS_UNAVAILABLE ->
          rekey = (Err EACCES, set_desc "Key must be loaded." w')).
Proof.
  intros crypto_mac zhp raw_props w Hf Hc inherit rekey root.
  assert (Hi := rewrap_inherit_eq crypto_mac zhp raw_props w Hf Hc).
  assert (Hk := rewrap_rekey_eq crypto_mac zhp raw_props w Hf Hc).
  fold inherit in Hi. fold rekey in Hk.
  rewrite rewrap_inherit_checks_eq in Hi. subst root.
  split; [|split; [|split; [|split; [|split; [|split; [|split; [|split;
    [|split]]]]]]]].
  - intros Hok.
    pose proof (rewrap_inherit_checks_ok zhp w) as Hready.
    rewrite rewrap_inherit_checks_eq in Hready.
    destruct (if negb (fst _ =? 0) || negb (snd _) then _ else _)
      as [[[]|e|] w'] eqn:E; rewrite Hi in Hok; try discriminate.
    destruct (Hready eq_refl) as [Hr Hw]. split; [exact Hr|].
    destruct (Z.eqb_spec (zh_keystatus zhp) ZFS_KEYSTATUS_UNAVAILABLE);
      [discriminate|assumption].
  - intros Hroot. rewrite Hi, Hroot, orb_true_r. reflexivity.
  - intros Hroot Hp. rewrite Hi, Hroot, Hp. reflexivity.
  - intros pn Hroot Hp Hmk. rewrite Hi, Hroot, Hp, Hmk. reflexivity.
  - intros pn pzhp Hroot Hp Hmk. split.
    + intros Hpc. rewrite Hi, Hroot, Hp, Hmk, Hpc. reflexivity.
    + intros Hpc Hpk. apply Z.eqb_neq in Hpc.
      rewrite Hi, Hroot, Hp, Hmk. cbn [fst snd negb orb Z.eqb].
      rewrite Hpc, Hpk. reflexivity.
  - intros (Hroot & pn & pzhp & Hp & Hmk & Hpc & Hpk) Hks.
    apply Z.eqb_neq in Hpc, Hpk.
    rewrite Hi, Hroot, Hp, Hmk. cbn [fst snd negb orb Z.eqb].
    rewrite Hpc, Hpk, Hks. reflexivity.
  - rewrite Hi.
    destruct (negb (fst _ =? 0) || negb (snd _)); [now left|].
    destruct (zh_parent_name zhp) as [pn|]; [|now left].
    destruct (make_dataset_handle w pn) as [pzhp|]; [|now left].
    destruct (zh_encryption pzhp =? ZIO_CRYPT_OFF); [now left|].
    destruct (zh_keystatus pzhp =? ZFS_KEYSTATUS_UNAVAILABLE); [now left|].
    destruct (zh_keystatus zhp =? ZFS_KEYSTATUS_UNAVAILABLE); [now left|].
    right. apply change_key_call_ioctls.
  - rewrite Hi.
    destruct (negb (fst _ =? 0) || negb (snd _)); [reflexivity|].
    destruct (zh_parent_name zhp) as [pn|]; [|reflexivity].
    destruct (make_dataset_handle w pn) as [pzhp|]; [|reflexivity].
    destruct (zh_encryption pzhp =? ZIO_CRYPT_OFF); [reflexivity|].
    destruct (zh_keystatus pzhp =? ZFS_KEYSTATUS_UNAVAILABLE); [reflexivity|].
    destruct (zh_keystatus zhp =? ZFS_KEYSTATUS_UNAVAILABLE); [reflexivity|].
    apply change_key_call_stdin.
  - intros Hok. rewrite Hk in Hok.
    destruct (rewrap_new_key crypto_mac zhp raw_props w)
      as [[[props wkey]|e|] w']; try discriminate.
    destruct (Z.eqb_spec (zh_keystatus zhp) ZFS_KEYSTATUS_UNAVAILABLE);
      [discriminate|assumption].
  - intros props wkey w' Hnk Hks. rewrite Hk, Hnk, Hks. reflexivity.
Qed.

Lemma C8_witness :
  zfs_crypto_rewrap Fixture.hmac_sha1 (Fixture.secret "prompt") [] true
    (Fixture.world_of false [])
  = (Err EINVAL,
     set_desc "Parent must be encrypted." (Fixture.world_of false [])).
Proof.
  apply (proj1 (proj1 (proj2 (proj2 (proj2 (proj2
           (C8_rewrap_requirements Fixture.hmac_sha1 (Fixture.secret "prompt")
              [] (Fixture.world_of false []) eq_refl ltac:(discriminate))))))
           "pool" Fixture.pool eq_refl eq_refl eq_refl) eq_refl).
Defined.

(** ** Load *)

Lemma zfs_crypto_load_key_ready crypto_mac zhp noop alt w :
  load_ready zhp noop ->
  zfs_crypto_load_key crypto_mac zhp noop alt w
  = load_key_attempt crypto_mac 5 zhp noop (zh_keyformat zhp)
      (opt_default (zh_keylocation zhp) alt) (load_iters zhp) (load_salt zhp)
      0 false w.
Proof.
  intros (Hf & Hkf & Hret & Hsrc & Hks). unfold zfs_crypto_load_key.
  apply Z.eqb_neq in Hkf, Hsrc. rewrite Hf, Hkf, Hret, Hsrc. cbn [negb Z.eqb].
  replace (negb noop && (zh_keystatus zhp =? ZFS_KEYSTATUS_AVAILABLE))
    with false; [reflexivity|].
  destruct Hks as [-> | Hks]; [reflexivity|].
  apply Z.eqb_neq in Hks. rewrite Hks. now rewrite andb_false_r.
Qed.

(** Enough fuel: one more unit changes nothing. *)
Lemma load_key_attempt_fuel crypto_mac zhp noop keyformat keylocation iters salt :
  forall fuel attempts freed w,
    MAX_KEY_PROMPT_ATTEMPTS < attempts + Z.of_nat fuel ->
    load_key_attempt crypto_mac (S fuel) zhp noop keyformat keylocation iters
      salt attempts freed w
    = load_key_attempt crypto_mac fuel zhp noop keyformat keylocation iters
        salt attempts freed w.
Proof.
  induction fuel as [|fuel IH]; intros attempts freed w Hlt.
  - cbn [load_key_attempt].
    destruct (load_key_pass _ _ _ _ _ _ _ _ _)
      as [[[[res can_retry] correctible] freed'] w'].
    destruct res as [[]|e|]; try reflexivity.
    replace (attempts <=? MAX_KEY_PROMPT_ATTEMPTS) with false
      by (symmetry; apply Z.leb_gt; cbn [Z.of_nat] in Hlt; lia).
    now rewrite andb_false_r.
  - change (load_key_attempt crypto_mac (S (S fuel)) zhp noop keyformat
              keylocation iters salt attempts freed w)
      with (let '(res, can_retry, correctible, freed', w') :=
              load_key_pass crypto_mac zhp noop keyformat keylocation iters
                salt freed w in
            match res with
            | Ok _ => (Ok tt, w')
            | Undef => (Undef, w')
            | Err e =>
                if can_retry && correctible
                   && (attempts <=? MAX_KEY_PROMPT_ATTEMPTS)
                then load_key_attempt crypto_mac (S fuel) zhp noop keyformat
                       keylocation iters salt (attempts + 1) freed' w'
                else (Err e, w')
            end).
    change (load_key_attempt crypto_mac (S fuel) zhp noop keyformat
              keylocation iters salt attempts freed w)
      with (let '(res, can_retry, correctible, freed', w') :=
              load_key_pass crypto_mac zhp noop keyformat keylocation iters
                salt freed w in
            match res with
            | Ok _ => (Ok tt, w')
            | Undef => (Undef, w')
            | Err e =>
                if can_retry && correctible
                   && (attempts <=? MAX_KEY_PROMPT_ATTEMPTS)
                then load_key_attempt crypto_mac fuel zhp noop keyformat
                       keylocation iters salt (attempts + 1) freed' w'
                else (Err e, w')
            end).
    destruct (load_key_pass _ _ _ _ _ _ _ _ _)
      as [[[[res can_retry] correctible] freed'] w'].
    destruct res as [[]|e|]; try reflexivity.
    destruct (can_retry && correctible && _); [|reflexivity].
    apply IH. lia.
Qed.

(** From [zfs_crypto_load_key] the fuel is never used up: any larger amount
    gives the same outcome. *)
Lemma load_key_attempt_fuel_enough crypto_mac zhp noop keyformat keylocation
      iters salt freed w k :
  load_key_attempt crypto_mac (k + 5) zhp noop keyformat keylocation iters
    salt 0 freed w
  = load_key_attempt crypto_mac 5 zhp noop keyformat keylocation iters salt 0
      freed w.
Proof.
  induction k as [|k IH]; [reflexivity|].
  cbn [Nat.add]. rewrite load_key_attempt_fuel; [exact IH|].
  unfold MAX_KEY_PROMPT_ATTEMPTS. lia.
Qed.

Lemma load_key_attempt_step crypto_mac fuel zhp noop keyformat keylocation
      iters salt attempts freed w :
  load_key_attempt crypto_mac (S fuel) zhp noop keyformat keylocation iters
    salt attempts freed w
  = let '(res, can_retry, correctible, freed', w') :=
      load_key_pass crypto_mac zhp noop keyformat keylocation iters salt
        freed w in
    match res with
    | Ok _ => (Ok tt, w')
    | Undef => (Undef, w')
    | Err e =>
        if can_retry && correctible && (attempts <=? MAX_KEY_PROMPT_ATTEMPTS)
        then load_key_attempt crypto_mac fuel zhp noop keyformat keylocation
               iters salt (attempts + 1) freed' w'
        else (Err e, w')
    end.
Proof. reflexivity. Qed.

(** C2.  On a terminal, after three wrong hex keys the right one is still
    asked for and loads the key: it takes five wrong entries for
    [zfs_crypto_load_key] to give up with [EACCES], two more than
    [MAX_KEY_PROMPT_ATTEMPTS].  A wrong key from a file fails on the first
    pass, without a prompt. *)
Theorem C2_retry_budget_is_five_passes :
  (* three wrong entries and then the right one: loaded on the fourth pass *)
  (fst (Fixture.load_secret "prompt" Fixture.retry_world) = Ok tt
   /\ load_calls (snd (Fixture.load_secret "prompt" Fixture.retry_world))
      = 4%nat)
  (* the passes end after the fifth wrong entry *)
  /\ (fst (Fixture.load_secret "prompt" Fixture.exhaust_world) = Err EACCES
      /\ load_calls (snd (Fixture.load_secret "prompt" Fixture.exhaust_world))
         = 5%nat
      /\ stdin_data (snd (Fixture.load_secret "prompt" Fixture.exhaust_world))
         = Fixture.right_entry)
  (* a wrong key from a file: one pass *)
  /\ (fst (Fixture.load_secret "file:///wrong" Fixture.retry_world)
      = Err EACCES
      /\ load_calls (snd (Fixture.load_secret "file:///wrong"
                            Fixture.retry_world)) = 1%nat
      /\ prompts (snd (Fixture.load_secret "file:///wrong"
                         Fixture.retry_world)) = 0%nat).
Proof. vm_compute. repeat split; reflexivity. Qed.

(** C3 (amended).  In [zfs_crypto_load_key], a failed acquisition or
    validation of key material is returned at once when the key material is
    not entered at a terminal, and is followed by a new pass when it is.  Of
    the failures of the storage layer, [EACCES] alone is followed by a new
    pass, and only for key material entered at a terminal; every other one is
    returned at once. *)
Theorem C3_load_retry_conditions :
  forall (crypto_mac : list Z -> list Z -> option (list Z))
         (zhp : zfs_handle) (noop : bool) (alt : option string) (w : world),
    load_ready zhp noop ->
    let kf := zh_keyformat zhp in
    let kl := opt_default (zh_keylocation zhp) alt in
    let name := zfs_name zhp in
    let load := zfs_crypto_load_key crypto_mac zhp noop alt w in
    let acquire := get_key_material_km false false kf kl (Some name) w in
    let again freed w' :=
      load_key_attempt crypto_mac 4 zhp noop kf kl (load_iters zhp)
        (load_salt zhp) 1 freed w' in
    (* a failed acquisition or validation *)
    (forall e w1,
       acquire = (Err e, w1) ->
       (can_retry_of kl w = false -> load = (Err e, w1))
       /\ (can_retry_of kl w = true -> load = again false w1))
    (* a failure of the storage layer *)
    /\ (forall km kmlen w1 key w2,
          acquire = (Ok (km, kmlen), w1) ->
          derive_key crypto_mac kf (load_iters zhp) km kmlen (load_salt zhp) w1
          = (Ok key, w2) ->
          let e := lzc_load_key w2 name noop key in
          let w3 :=
            snd (load_key_ioctl_message e
                   (add_ioctl (IocLoadKey name noop key) w2)) in
          e <> 0 ->
          (e <> EACCES -> load = (Err e, w3))
          /\ (e = EACCES -> can_retry_of kl w = false -> load = (Err e, w3))
          /\ (e = EACCES -> can_retry_of kl w = true -> load = again true w3)).
Proof.
  intros crypto_mac zhp noop alt w Hready kf kl name load acquire again.
  assert (Hload : load = load_key_attempt crypto_mac 5 zhp noop kf kl
                           (load_iters zhp) (load_salt zhp) 0 false w)
    by (apply zfs_crypto_load_key_ready; exact Hready).
  rewrite load_key_attempt_step in Hload.
  unfold load_key_pass, get_key_material in Hload.
  fold name in Hload. fold acquire in Hload.
  split.
  - intros e w1 Hacq. rewrite Hacq in Hload. cbv beta iota in Hload.
    change (0 <=? MAX_KEY_PROMPT_ATTEMPTS) with true in Hload.
    split; intros Hcr; rewrite Hcr in Hload; exact Hload.
  - intros km kmlen w1 key w2 Hacq Hder e w3 He.
    rewrite Hacq in Hload. cbv beta iota in Hload. rewrite Hder in Hload.
    cbv beta iota zeta in Hload. fold e in Hload.
    apply Z.eqb_neq in He. rewrite He in Hload. fold w3 in Hload.
    change (0 <=? MAX_KEY_PROMPT_ATTEMPTS) with true in Hload.
    rewrite andb_true_r in Hload.
    split; [|split].
    + intros Hne. apply Z.eqb_neq in Hne. rewrite Hne, andb_false_r in Hload.
      exact Hload.
    + intros _ Hcr. rewrite Hcr in Hload. exact Hload.
    + intros Heq Hcr. rewrite Hcr in Hload. fold e in Heq.
      rewrite Heq in Hload at 1. cbn [Z.eqb Pos.eqb EACCES andb] in Hload.
      exact Hload.
Qed.

Lemma secret_load_ready kl : load_ready (Fixture.secret kl) false.
Proof.
  unfold load_ready. cbn. repeat split; try discriminate. right. discriminate.
Defined.

Lemma C3_witness :
  zfs_crypto_load_key Fixture.hmac_sha1 (Fixture.secret "prompt") false None
    Fixture.typo_world
  = load_key_attempt Fixture.hmac_sha1 4 (Fixture.secret "prompt") false
      ZFS_KEYFORMAT_HEX "prompt" 0 0 1 false
      (snd (get_key_material_km false false ZFS_KEYFORMAT_HEX "prompt"
              (Some "pool/secret") Fixture.typo_world)).
Proof.
  apply (proj2 (proj1 (C3_load_retry_conditions Fixture.hmac_sha1
                         (Fixture.secret "prompt") false None
                         Fixture.typo_world (secret_load_ready "prompt"))
                 EINVAL
                 (snd (get_key_material_km false false ZFS_KEYFORMAT_HEX
                         "prompt" (Some "pool/secret") Fixture.typo_world))
                 eq_refl) eq_refl).
Defined.

(** On a terminal a mistyped hex key fails validation with [EINVAL]; the
    key is asked for again and the load succeeds. *)
Lemma C3_counterexample_validation_retried :
  fst (get_key_material_km false false ZFS_KEYFORMAT_HEX "prompt"
         (Some "pool/secret") Fixture.typo_world) = Err EINVAL
  /\ fst (Fixture.load_secret "prompt" Fixture.typo_world) = Ok tt
  /\ prompts (snd (Fixture.load_secret "prompt" Fixture.typo_world)) = 2%nat.
Proof. vm_compute. repeat split; reflexivity. Qed.

(** ** The recursive loader *)

Section Walk_properties.
Variable crypto_mac : list Z -> list Z -> option (list Z).




Lemma load_each_app l1 l2 w :
  load_each crypto_mac (l1 ++ l2) w
  = let (log1, w1) := load_each crypto_mac l1 w in
    let (log2, w2) := load_each crypto_mac l2 w1 in
    (log1 ++ log2, w2).
Proof.
  revert w. induction l1 as [|zhp l1 IH]; intros w; cbn [app load_each].
  - now destruct (load_each crypto_mac l2 w).
  - destruct (load_wanted zhp); [|apply IH].
    destruct (zfs_crypto_load_key crypto_mac zhp false None w) as [r w1].
    rewrite IH. destruct (load_each crypto_mac l1 w1) as [log1 w2].
    now destruct (load_each crypto_mac l2 w2).
Qed.

Lemma load_each_handles l w :
  map fst (fst (load_each crypto_mac l w)) = filter load_wanted l.
Proof.
  revert w. induction l as [|zhp l IH]; intros w; cbn [load_each filter].
  - reflexivity.
  - destruct (load_wanted zhp); [|apply IH].
    destruct (zfs_crypto_load_key crypto_mac zhp false None w) as [r w1].
    specialize (IH w1). destruct (load_each crypto_mac l w1) as [log w2].
    cbn [fst map] in *. now rewrite IH.
Qed.

Lemma load_each_length l w :
  (length (fst (load_each crypto_mac l w)) <= length l)%nat.
Proof.
  rewrite <- (length_map fst), load_each_handles. apply filter_length_le.
Qed.

Lemma failures_le log : 0 <= failures log <= attempts log.
Proof.
  unfold failures, attempts. pose proof (filter_length_le
    (fun x : zfs_handle * result unit => is_failure (snd x)) log). lia.
Qed.




Lemma visit_ok zhp : walk_ok crypto_mac [zhp] (load_keys_visit crypto_mac zhp).
Proof.
  intros cb w. cbn [load_each]. unfold load_keys_visit, load_wanted.
  destruct (zfs_crypto_is_encryption_root zhp) as [r0 b]. cbn [fst snd].
  assert (Hcb : forall cb, counted cb [] = cb).
  { intros [f a]. unfold counted, failures, attempts. cbn. f_equal; lia. }
  destruct (r0 =? 0); cbn [negb orb andb];
    [|intros _ _; now rewrite Hcb].
  destruct b; cbn [negb andb]; [|intros _ _; now rewrite Hcb].
  destruct (zh_keystatus zhp =? ZFS_KEYSTATUS_AVAILABLE); cbn [negb];
    [intros _ _; now rewrite Hcb|].
  destruct (zfs_crypto_load_key crypto_mac zhp false None w) as [r w1].
  intros Hdef (Hf & Ha & Hfr & Har). unfold counted, failures, attempts in *.
  cbn [length filter snd] in *. apply Forall_inv in Hdef. cbn [snd] in Hdef.
  unfold wrap64. cbn [cb_numfailed cb_numattempted].
  destruct r as [[]|e|]; cbn [is_failure length] in *.
  - rewrite Z.mod_small by lia. repeat f_equal; lia.
  - rewrite !Z.mod_small by lia. repeat f_equal; lia.
  - exfalso. now apply Hdef.
Qed.

Lemma counted_app cb log1 log2 :
  counted (counted cb log1) log2 = counted cb (log1 ++ log2).
Proof.
  unfold counted, failures, attempts. cbn [cb_numfailed cb_numattempted].
  rewrite filter_app, !length_app. f_equal; lia.
Qed.

Lemma in_range_app cb log1 log2 :
  in_range cb (log1 ++ log2) ->
  in_range cb log1 /\ in_range (counted cb log1) log2.
Proof.
  unfold in_range, counted. cbn [cb_numfailed cb_numattempted].
  pose proof (failures_le log1). pose proof (failures_le log2).
  unfold failures, attempts in *. rewrite filter_app, !length_app.
  intros (Hf & Ha & Hfr & Har). repeat split; lia.
Qed.

Lemma walk_ok_seq l1 l2 run1 run2 :
  walk_ok crypto_mac l1 run1 -> walk_ok crypto_mac l2 run2 ->
  walk_ok crypto_mac (l1 ++ l2) (fun cb => cb1 <- run1 cb ;; run2 cb1).
Proof.
  intros H1 H2 cb w. rewrite load_each_app.
  specialize (H1 cb w). destruct (load_each crypto_mac l1 w) as [log1 w1].
  specialize (H2 (counted cb log1) w1).
  destruct (load_each crypto_mac l2 w1) as [log2 w2].
  intros Hdef Hr. apply Forall_app in Hdef as [Hd1 Hd2].
  apply in_range_app in Hr as [Hr1 Hr2].
  unfold bind. rewrite H1 by assumption. rewrite H2 by assumption.
  now rewrite counted_app.
Qed.

Lemma walk_ok_nil : walk_ok crypto_mac [] (fun cb => ret cb).
Proof.
  intros [f a] w. cbn [load_each]. intros _ _. unfold counted, failures,
    attempts, ret. cbn. repeat f_equal; lia.
Qed.

Lemma load_keys_cb_ok d : walk_ok crypto_mac (preorder d) (load_keys_cb crypto_mac d).
Proof.
  induction d as [zhp children IH] using dataset_ind'.
  cbn [preorder load_keys_cb].
  change (zhp :: flat_map preorder children)
    with ([zhp] ++ flat_map preorder children).
  apply walk_ok_seq; [apply visit_ok|].
  induction IH as [|c l Hc Hl IHl]; cbn [flat_map].
  - apply walk_ok_nil.
  - apply walk_ok_seq; assumption.
Qed.
End Walk_properties.

Lemma in_tree_preorder x d : in_tree x d <-> In x (preorder d).
Proof.
  induction d as [zhp children IH] using dataset_ind'.
  cbn [preorder]. rewrite Forall_forall in IH. split.
  - intros H. inversion H as [ch|zhp' ch c Hc Hx]; subst.
    + now left.
    + right. apply in_flat_map. exists c. split; [exact Hc|].
      now apply IH.
  - intros [<- | H].
    + constructor.
    + apply in_flat_map in H as (c & Hc & Hx).
      apply (in_tree_below x zhp children c Hc). now apply IH.
Qed.

Lemma load_wanted_spec zhp :
  load_wanted zhp = true ->
  zfs_crypto_is_encryption_root zhp = (0, true)
  /\ zh_keystatus zhp <> ZFS_KEYSTATUS_AVAILABLE.
Proof.
  unfold load_wanted. destruct (zfs_crypto_is_encryption_root zhp) as [r b].
  cbn [fst snd]. intros H. apply andb_prop in H as [H Hk].
  apply andb_prop in H as [Hr Hb]. apply Z.eqb_eq in Hr. subst r b.
  split; [reflexivity|]. apply Z.eqb_neq. now destruct (_ =? _).
Qed.



(** C9.  [zfs_crypto_attempt_load_keys] on an existing dataset goes through
    the dataset and all its descendants, attempts a load on the encryption
    roots whose key is not available and on no other node, goes on after a
    failed load, prints the number of keys loaded and the number of
    attempts, and fails iff the number of failures is not 0.  The tree has
    fewer than 2^64 nodes and no load of the walk is undefined. *)
Theorem C9_recursive_loader :
  forall (crypto_mac : list Z -> list Z -> option (list Z))
         (fsname : string) (d : dataset) (w : world),
    zfs_open w fsname = Some d ->
    Z.of_nat (length (preorder d)) < 2 ^ 64 ->
    let log := fst (load_each crypto_mac (preorder d) w) in
    let w' := snd (load_each crypto_mac (preorder d) w) in
    Forall (fun x => defined (snd x)) log ->
    (* a load on every wanted node of the tree, and on no other *)
    map fst log = filter load_wanted (preorder d)
    /\ (forall zhp,
          In zhp (map fst log) <-> in_tree zhp d /\ load_wanted zhp = true)
    /\ attempts log = Z.of_nat (length (filter load_wanted (preorder d)))
    (* the wanted nodes are encryption roots whose key is not available *)
    /\ Forall (fun zhp => zfs_crypto_is_encryption_root zhp = (0, true)
                          /\ zh_keystatus zhp <> ZFS_KEYSTATUS_AVAILABLE)
         (map fst log)
    (* both counts are printed, and the call fails iff a load failed *)
    /\ zfs_crypto_attempt_load_keys crypto_mac fsname w
       = (if failures log =? 0 then Ok tt else Err (-1),
          add_stdout
            (OutKeysLoaded (attempts log - failures log) (attempts log)) w').
Proof.
  intros crypto_mac fsname d w Hopen Hsize log w' Hdef.
  split; [apply load_each_handles|].
  split.
  { intros zhp. unfold log. rewrite load_each_handles, filter_In.
    now rewrite in_tree_preorder. }
  split.
  { unfold attempts, log.
    now rewrite <- (load_each_handles crypto_mac (preorder d) w), length_map. }
  split.
  { unfold log. rewrite load_each_handles. apply Forall_forall.
    intros zhp Hin. apply filter_In in Hin as [_ Hw]. now apply load_wanted_spec. }
  unfold zfs_crypto_attempt_load_keys. unfold bind at 1. unfold get at 1.
  rewrite Hopen.
  pose proof (load_keys_cb_ok crypto_mac d (mk_cbdata 0 0) w) as Hwalk.
  pose proof (load_each_length crypto_mac (preorder d) w) as Hlen.
  pose proof (failures_le log) as Hfl.
  subst log w'. destruct (load_each crypto_mac (preorder d) w) as [log w'].
  cbn [fst snd] in *.
  assert (Hr : in_range (mk_cbdata 0 0) log).
  { unfold in_range, attempts in *. cbn [cb_numfailed cb_numattempted]. lia. }
  unfold bind. rewrite (Hwalk Hdef Hr). unfold modify, counted.
  cbn [cb_numfailed cb_numattempted]. rewrite !Z.add_0_l.
  unfold wrap64. rewrite Z.mod_small by (unfold attempts in *; lia).
  destruct (failures log =? 0); reflexivity.
Qed.

Lemma C9_witness :
  fst (zfs_crypto_attempt_load_keys Fixture.hmac_sha1 "pool"
         (Fixture.world_of false []))
  = Err (-1)
  /\ stdout (snd (zfs_crypto_attempt_load_keys Fixture.hmac_sha1 "pool"
                    (Fixture.world_of false [])))
     = [OutKeysLoaded 1 2].
Proof.
  rewrite (proj2 (proj2 (proj2 (proj2 (C9_recursive_loader Fixture.hmac_sha1 "pool"
                    Fixture.tree (Fixture.world_of false [])
                    eq_refl eq_refl
                    ltac:(vm_compute; repeat constructor; discriminate)))))).
  vm_compute. split; reflexivity.
Defined.

(** * Further properties *)

(** ** Frames

    What the acquisition and the derivation of a key leave alone. *)

Lemma frame_ret {B A} (f : world -> B) (a : A) : frame f (ret a).
Proof. intros w. reflexivity. Qed.

Lemma frame_fail {B A} (f : world -> B) e : frame f (@fail world A e).
Proof. intros w. reflexivity. Qed.

Lemma frame_lift {B A} (f : world -> B) (r : result A) : frame f (lift r).
Proof. intros w. reflexivity. Qed.

Lemma frame_get {B A} (f : world -> B) (g : world -> A) : frame f (get g).
Proof. intros w. reflexivity. Qed.

Lemma frame_modify {B} (f : world -> B) g :
  (forall w, f (g w) = f w) -> frame f (modify g).
Proof. intros H w. apply H. Qed.

Lemma frame_bind {B A C} (f : world -> B) (c : M A) (k : A -> M C) :
  frame f c -> (forall a, frame f (k a)) -> frame f (bind c k).
Proof.
  intros Hc Hk w. unfold bind. specialize (Hc w).
  destruct (c w) as [[a|e|] w']; cbn [snd] in *; try exact Hc.
  now rewrite Hk.
Qed.

Lemma frame_fail_aux {B A} (f : world -> B) e msg :
  io_independent f -> frame f (@fail_aux A e msg).
Proof.
  intros (_ & _ & H). apply frame_bind; [|intros; apply frame_fail].
  apply frame_modify. apply H.
Qed.

Lemma frame_advance {B} (f : world -> B) fd rest :
  io_independent f -> frame f (advance fd rest).
Proof.
  intros (H & _ & _). destruct fd; cbn [advance]; [|apply frame_ret].
  apply frame_bind; [|intros; apply frame_ret]. apply frame_modify, H.
Qed.

Lemma frame_get_key_material_raw {B} (f : world -> B) fd fsname keyformat again
      newkey :
  io_independent f ->
  frame f (get_key_material_raw fd fsname keyformat again newkey).
Proof.
  intros Hf. pose proof Hf as (Hin & Hout & Hdesc).
  unfold get_key_material_raw.
  apply frame_bind; [destruct fd; [apply frame_get|apply frame_ret]|].
  intros tty. apply frame_bind.
  { destruct tty; [apply frame_modify, Hout|apply frame_ret]. }
  intros _. apply frame_bind; [destruct fd; [apply frame_get|apply frame_ret]|].
  intros data. apply frame_bind.
  { destruct (negb _).
    - destruct (getline_split data) as [[|b line] rest].
      + apply frame_bind; [apply frame_get|intros; apply frame_ret].
      + apply frame_bind; [now apply frame_advance|intros; apply frame_ret].
    - cbv zeta.
      apply frame_bind; [now apply frame_advance|intros; apply frame_ret]. }
  intros r. apply frame_bind.
  { destruct r as [[[buf bytes] fd']|e]; [|apply frame_ret].
    apply frame_bind; [apply frame_lift|]. intros last.
    destruct (last =? 10); [|apply frame_ret].
    apply frame_bind; [apply frame_lift|intros; apply frame_ret]. }
  intros res. apply frame_bind.
  { destruct tty; [apply frame_modify, Hout|apply frame_ret]. }
  intros _. destruct res as [v|e]; [apply frame_ret|].
  destruct (e =? 0); [apply frame_ret|apply frame_fail].
Qed.

Lemma frame_validate {B} (f : world -> B) keyformat km kmlen :
  io_independent f -> frame f (get_key_material_validate keyformat km kmlen).
Proof.
  intros Hf. unfold get_key_material_validate.
  repeat match goal with
         | |- frame _ (if ?c then _ else _) => destruct c
         | |- frame _ (fail_aux _ _) => now apply frame_fail_aux
         | |- frame _ (ret _) => apply frame_ret
         | |- frame _ (bind _ _) => apply frame_bind; [apply frame_lift|intros]
         end.
Qed.

Lemma frame_get_key_material_km {B} (f : world -> B) do_verify newkey keyformat
      keylocation fsname :
  io_independent f ->
  frame f (get_key_material_km do_verify newkey keyformat keylocation fsname).
Proof.
  intros Hf. unfold get_key_material_km.
  apply frame_bind.
  { destruct (zfs_prop_parse_keylocation keylocation).
    - now apply frame_fail_aux.
    - apply frame_bind; [apply frame_get|]. intros tty.
      destruct (tty && _); [now apply frame_fail_aux|apply frame_ret].
    - apply frame_bind; [apply frame_get|]. intros fs.
      destruct (lookup_file fs _); [apply frame_ret|].
      apply frame_bind; [apply frame_get|]. intros e. now apply frame_fail_aux. }
  intros fd. apply frame_bind; [now apply frame_get_key_material_raw|].
  intros [[km kmlen] fd1]. apply frame_bind; [now apply frame_validate|].
  intros _. apply frame_bind; [destruct fd; [apply frame_get|apply frame_ret]|].
  intros tty. destruct (do_verify && tty); [|apply frame_ret].
  apply frame_bind; [now apply frame_get_key_material_raw|].
  intros [[km2 kmlen2] fd2].
  destruct (negb _); [now apply frame_fail_aux|].
  apply frame_bind; [apply frame_lift|]. intros a.
  apply frame_bind; [apply frame_lift|]. intros b.
  destruct (negb _); [now apply frame_fail_aux|apply frame_ret].
Qed.

Lemma frame_derive_key {B} (f : world -> B) crypto_mac format iters km kmlen salt :
  io_independent f ->
  frame f (derive_key crypto_mac format iters km kmlen salt).
Proof.
  intros Hf. unfold derive_key.
  destruct (format =? ZFS_KEYFORMAT_RAW); [apply frame_lift|].
  destruct (format =? ZFS_KEYFORMAT_HEX).
  { destruct (hex_key_to_raw _ _); [apply frame_ret| |intros w; reflexivity].
    now apply frame_fail_aux. }
  destruct (format =? ZFS_KEYFORMAT_PASSPHRASE); [|apply frame_fail].
  destruct (rbind _ _); [apply frame_ret| |intros w; reflexivity].
  now apply frame_fail_aux.
Qed.

Lemma io_independent_stdin_tty : io_independent stdin_tty.
Proof. repeat split. Qed.

Lemma io_independent_ioctls : io_independent ioctls.
Proof. repeat split. Qed.

Lemma io_independent_lzc_load_key : io_independent lzc_load_key.
Proof. repeat split. Qed.

(** ** Key material entered at a terminal *)

Lemma bytes_eqb_eq a : forall b, bytes_eqb a b = true <-> a = b.
Proof.
  induction a as [|x a IH]; intros [|y b]; cbn [bytes_eqb]; try easy.
  rewrite andb_true_iff, Z.eqb_eq, IH. split.
  - now intros [-> ->].
  - now intros [= -> ->].
Qed.

Lemma validate_ok keyformat s tail w :
  key_material_ok keyformat s = true ->
  get_key_material_validate keyformat (s ++ 0 :: tail) (Z.of_nat (length s)) w
  = (Ok tt, w).
Proof.
  unfold key_material_ok. intros H.
  destruct (keyformat =? ZFS_KEYFORMAT_RAW) eqn:E1.
  { unfold get_key_material_validate. rewrite E1. apply Z.eqb_eq in H.
    rewrite H. reflexivity. }
  destruct (keyformat =? ZFS_KEYFORMAT_HEX) eqn:E2.
  { apply Z.eqb_eq in E2. subst keyformat. rewrite validate_hex, H.
    reflexivity. }
  unfold get_key_material_validate. rewrite E1, E2.
  destruct (keyformat =? ZFS_KEYFORMAT_PASSPHRASE); [|reflexivity].
  apply andb_prop in H as [H1 H2]. apply Z.leb_le in H1, H2.
  unfold MAX_PASSPHRASE_LEN, MIN_PASSPHRASE_LEN.
  replace (64 <? Z.of_nat (length s)) with false
    by (symmetry; apply Z.ltb_ge; lia).
  replace (Z.of_nat (length s) <? 8) with false
    by (symmetry; apply Z.ltb_ge; lia).
  reflexivity.
Qed.

Lemma get_key_material_raw_stdin_line s rest keyformat fsname again newkey w :
  keyformat <> ZFS_KEYFORMAT_RAW ->
  ~ In 10 s ->
  stdin_data w = s ++ 10 :: rest ->
  get_key_material_raw Stdin fsname keyformat again newkey w
  = (Ok (s ++ [0; 0], Z.of_nat (length s), Stdin),
     if stdin_tty w
     then add_stdout OutNewline
            (set_stdin rest
               (add_stdout (OutPrompt again newkey keyformat fsname) w))
     else set_stdin rest w).
Proof.
  intros Hf Hs Hd. unfold get_key_material_raw.
  apply Z.eqb_neq in Hf. rewrite Hf. cbn [negb]. msimpl.
  assert (E : forall w', stdin_data w' = s ++ 10 :: rest ->
     getline_split (stdin_data w') = (s ++ [10], rest))
    by (intros w' ->; now apply getline_split_newline).
  destruct (stdin_tty w); msimpl.
  - cbn [add_stdout stdin_data]. rewrite Hd, getline_split_newline by exact Hs.
    rewrite list_case_nonempty by (now destruct s).
    msimpl. rewrite <- app_assoc. cbn [app].
    rewrite load_byte_last. msimpl. cbn [Z.eqb Pos.eqb].
    rewrite memmove_last. msimpl.
    replace (Z.of_nat (length (s ++ [10])) - 1) with (Z.of_nat (length s))
      by (rewrite length_app; cbn [length]; lia).
    reflexivity.
  - rewrite Hd, getline_split_newline by exact Hs.
    rewrite list_case_nonempty by (now destruct s).
    msimpl. rewrite <- app_assoc. cbn [app].
    rewrite load_byte_last. msimpl. cbn [Z.eqb Pos.eqb].
    rewrite memmove_last. msimpl.
    replace (Z.of_nat (length (s ++ [10])) - 1) with (Z.of_nat (length s))
      by (rewrite length_app; cbn [length]; lia).
    reflexivity.
Qed.

Lemma bytes_eqb_length a : forall b, bytes_eqb a b = true -> length a = length b.
Proof. intros b H. apply bytes_eqb_eq in H. now subst. Qed.

(** Two entries on a terminal: the outcome of the comparison. *)
Lemma get_key_material_km_verify keyformat s1 s2 rest newkey fsname w :
  keyformat <> ZFS_KEYFORMAT_RAW ->
  stdin_tty w = true ->
  ~ In 10 s1 -> ~ In 10 s2 ->
  stdin_data w = s1 ++ 10 :: s2 ++ 10 :: rest ->
  key_material_ok keyformat s1 = true ->
  get_key_material_km true newkey keyformat "prompt" fsname w
  = let w' :=
      add_stdout OutNewline
        (set_stdin rest
           (add_stdout (OutPrompt true newkey keyformat fsname)
              (add_stdout OutNewline
                 (set_stdin (s2 ++ 10 :: rest)
                    (add_stdout (OutPrompt false newkey keyformat fsname) w)))))
    in
    if bytes_eqb s1 s2 then (Ok (s1 ++ [0; 0], Z.of_nat (length s1)), w')
    else (Err EINVAL, set_desc "Provided keys do not match." w').
Proof.
  intros Hf Htty H1 H2 Hd Hok.
  unfold get_key_material_km.
  change (zfs_prop_parse_keylocation "prompt") with ZFS_KEYLOCATION_PROMPT.
  cbv iota.
  unfold bind at 1. unfold bind at 1. unfold isatty at 1. unfold get at 1.
  rewrite Htty.
  replace (keyformat =? ZFS_KEYFORMAT_RAW) with false
    by (symmetry; now apply Z.eqb_neq).
  cbn [andb]. unfold ret at 1. unfold bind at 1.
  rewrite (get_key_material_raw_stdin_line s1 (s2 ++ 10 :: rest))
    by assumption.
  rewrite Htty. unfold bind at 1.
  rewrite (validate_ok keyformat s1 [0]) by exact Hok.
  unfold bind at 1. unfold isatty at 1. unfold get at 1.
  cbn [add_stdout set_stdin stdin_tty]. rewrite Htty. cbn [andb].
  unfold bind at 1.
  rewrite (get_key_material_raw_stdin_line s2 rest)
    by (assumption || reflexivity).
  cbn [add_stdout set_stdin stdin_tty stdin_data stdout]. rewrite Htty.
  cbv zeta.
  destruct (Z.eqb_spec (Z.of_nat (length s2)) (Z.of_nat (length s1))) as [El|El];
    cbn [negb].
  - msimpl. rewrite (load_bytes_app s1 [0; 0]). msimpl.
    rewrite <- El. rewrite (load_bytes_app s2 [0; 0]). msimpl.
    destruct (bytes_eqb s1 s2); reflexivity.
  - destruct (bytes_eqb s1 s2) eqn:Eb; [|reflexivity].
    apply bytes_eqb_length in Eb. lia.
Qed.

(** X7.  Key material entered twice.  On a terminal, with [do_verify] and a
    first entry that passes the checks of its format, [get_key_material]
    prompts, reads a line, prompts again and reads a second line; it returns
    the first entry when the second is the same, and [EINVAL] with the message
    that the keys do not match when it differs.  Both lines are consumed and
    both prompts printed in either case. *)
Theorem X7_double_entry_on_terminal :
  forall (keyformat : Z) (s1 s2 rest : list Z) (newkey : bool)
         (fsname : option string) (w : world),
    keyformat <> ZFS_KEYFORMAT_RAW ->
    stdin_tty w = true ->
    ~ In 10 s1 -> ~ In 10 s2 ->
    stdin_data w = s1 ++ 10 :: s2 ++ 10 :: rest ->
    key_material_ok keyformat s1 = true ->
    let r := get_key_material_km true newkey keyformat "prompt" fsname w in
    stdin_data (snd r) = rest
    /\ stdout (snd r)
       = stdout w ++ [OutPrompt false newkey keyformat fsname; OutNewline;
                      OutPrompt true newkey keyformat fsname; OutNewline]
    /\ (s1 = s2 -> fst r = Ok (s1 ++ [0; 0], Z.of_nat (length s1)))
    /\ (s1 <> s2 ->
        fst r = Err EINVAL
        /\ hdl_desc (snd r) = "Provided keys do not match.").
Proof.
  intros keyformat s1 s2 rest newkey fsname w Hf Htty H1 H2 Hd Hok r.
  subst r. rewrite (get_key_material_km_verify keyformat s1 s2 rest)
    by assumption.
  cbv zeta.
  destruct (bytes_eqb s1 s2) eqn:Eb.
  - apply bytes_eqb_eq in Eb.
    cbn [fst snd add_stdout set_stdin stdin_data stdout].
    repeat rewrite <- app_assoc. cbn [app].
    split; [reflexivity|]. split; [reflexivity|]. split; [reflexivity|].
    intros Hne. now contradiction Hne.
  - assert (Hne : s1 <> s2)
      by (intros ->; rewrite (proj2 (bytes_eqb_eq s2 s2) eq_refl) in Eb;
          discriminate).
    cbn [fst snd add_stdout set_stdin set_desc stdin_data stdout hdl_desc].
    repeat rewrite <- app_assoc. cbn [app].
    split; [reflexivity|]. split; [reflexivity|].
    split; [intros He; now contradiction Hne|]. intros _. now split.
Qed.

Lemma X7_witness :
  fst (get_key_material_km true true ZFS_KEYFORMAT_PASSPHRASE "prompt" None
         (Fixture.world_of true
            (bytes_of_string "correct horse" ++ 10
               :: bytes_of_string "correct house" ++ 10 :: [])))
  = Err EINVAL
  /\ hdl_desc
       (snd (get_key_material_km true true ZFS_KEYFORMAT_PASSPHRASE "prompt"
               None
               (Fixture.world_of true
                  (bytes_of_string "correct horse" ++ 10
                     :: bytes_of_string "correct house" ++ 10 :: []))))
     = "Provided keys do not match.".
Proof.
  apply (proj2 (proj2 (proj2
    (X7_double_entry_on_terminal ZFS_KEYFORMAT_PASSPHRASE
       (bytes_of_string "correct horse") (bytes_of_string "correct house")
       [] true None
       (Fixture.world_of true
          (bytes_of_string "correct horse" ++ 10
             :: bytes_of_string "correct house" ++ 10 :: []))
       ltac:(discriminate) eq_refl
       ltac:(vm_compute; intuition discriminate)
       ltac:(vm_compute; intuition discriminate)
       eq_refl eq_refl)))).
  vm_compute. discriminate.
Defined.

(** ** Key material from a file, again *)

Lemma bind_ext {S A B} (c : ST S A) (k1 k2 : A -> ST S B) (s : S) :
  (forall a s', c s = (Ok a, s') -> k1 a s' = k2 a s') ->
  bind c k1 s = bind c k2 s.
Proof.
  intros H. unfold bind. destruct (c s) as [[a|e|] s']; try reflexivity.
  now apply H.
Qed.

(** X8.  [do_verify] has no effect unless the key material is entered at a
    terminal: from a file, or from a standard input that is not a terminal,
    the key material is read once. *)
Theorem X8_verify_only_on_terminal :
  forall (newkey : bool) (keyformat : Z) (keylocation : string)
         (fsname : option string) (w : world),
    can_retry_of keylocation w = false ->
    get_key_material_km true newkey keyformat keylocation fsname w
    = get_key_material_km false newkey keyformat keylocation fsname w.
Proof.
  intros newkey keyformat keylocation fsname w Hcr.
  unfold can_retry_of in Hcr. unfold get_key_material_km.
  apply bind_ext. intros fd w0 Hfd.
  apply bind_ext. intros [[km kmlen] fd1] w1 Hraw.
  apply bind_ext. intros [] w2 Hval.
  destruct fd as [|d]; [|reflexivity].
  assert (Htty : stdin_tty w2 = false).
  { pose proof (frame_validate stdin_tty keyformat km kmlen
                  io_independent_stdin_tty w1) as F2.
    rewrite Hval in F2. cbn [snd] in F2. rewrite F2.
    pose proof (frame_get_key_material_raw stdin_tty Stdin fsname keyformat
                  false newkey io_independent_stdin_tty w0) as F1.
    rewrite Hraw in F1. cbn [snd] in F1. rewrite F1.
    destruct (zfs_prop_parse_keylocation keylocation).
    - discriminate Hfd.
    - revert Hfd. msimpl. rewrite Hcr. cbn [andb]. now intros [= <-].
    - revert Hfd. msimpl.
      destruct (lookup_file _ _); [discriminate|]. unfold fail_aux.
      msimpl. discriminate. }
  unfold bind, isatty, get. rewrite Htty. reflexivity.
Qed.

Lemma X8_witness :
  get_key_material_km true false ZFS_KEYFORMAT_HEX "prompt" None
    (Fixture.world_of false Fixture.right_entry)
  = get_key_material_km false false ZFS_KEYFORMAT_HEX "prompt" None
      (Fixture.world_of false Fixture.right_entry).
Proof.
  apply (X8_verify_only_on_terminal false ZFS_KEYFORMAT_HEX "prompt" None
           (Fixture.world_of false Fixture.right_entry) eq_refl).
Defined.

(** Key material read as a line from a file: the outcome of the checks. *)
Lemma get_key_material_km_file_line kl content s do_verify newkey keyformat
      fsname w :
  zfs_prop_parse_keylocation kl = ZFS_KEYLOCATION_URI ->
  lookup_file (fs_files w) (uri_path kl) = Some content ->
  keyformat <> ZFS_KEYFORMAT_RAW ->
  line_of content s ->
  exists tail,
    get_key_material_km do_verify newkey keyformat kl fsname w
    = match get_key_material_validate keyformat (s ++ 0 :: tail)
              (Z.of_nat (length s)) w with
      | (Ok _, w') => (Ok (s ++ 0 :: tail, Z.of_nat (length s)), w')
      | (Err e, w') => (Err e, w')
      | (Undef, w') => (Undef, w')
      end.
Proof.
  intros Hp Hf Hkf Hline. unfold get_key_material_km. rewrite Hp.
  unfold bind at 1. unfold bind at 1. unfold get at 1. rewrite Hf.
  unfold ret at 1. unfold bind at 1.
  destruct (get_key_material_raw_file_line content s keyformat
              fsname false newkey w Hkf Hline) as (tail & fd' & ->).
  exists tail. unfold bind at 1.
  destruct (get_key_material_validate _ _ _ w) as [[[]|e|] w']; try reflexivity.
  msimpl. now rewrite andb_false_r.
Qed.

(** X6.  A passphrase read from a file, without its newline, is accepted when
    its length is between [MIN_PASSPHRASE_LEN] (8) and [MAX_PASSPHRASE_LEN]
    (64) bytes inclusive, and refused with [EINVAL] as too short below 8 and
    as too long above 64. *)
Theorem X6_passphrase_length_bounds :
  forall (kl : string) (content s : list Z) (do_verify newkey : bool)
         (fsname : option string) (w : world),
    zfs_prop_parse_keylocation kl = ZFS_KEYLOCATION_URI ->
    lookup_file (fs_files w) (uri_path kl) = Some content ->
    line_of content s ->
    let acquire :=
      get_key_material_km do_verify newkey ZFS_KEYFORMAT_PASSPHRASE kl fsname w
    in
    let len := Z.of_nat (length s) in
    (MIN_PASSPHRASE_LEN <= len <= MAX_PASSPHRASE_LEN ->
       exists tail, acquire = (Ok (s ++ 0 :: tail, len), w))
    /\ (len < MIN_PASSPHRASE_LEN ->
          acquire = (Err EINVAL, set_desc "Passphrase too short (min 8)." w))
    /\ (MAX_PASSPHRASE_LEN < len ->
          acquire = (Err EINVAL, set_desc "Passphrase too long (max 64)." w)).
Proof.
  intros kl content s do_verify newkey fsname w Hp Hf Hline acquire len.
  destruct (get_key_material_km_file_line kl content s do_verify newkey
              ZFS_KEYFORMAT_PASSPHRASE fsname w Hp Hf ltac:(discriminate) Hline)
    as [tail E].
  fold acquire in E. fold len in E.
  unfold get_key_material_validate in E.
  cbn [ZFS_KEYFORMAT_PASSPHRASE ZFS_KEYFORMAT_RAW ZFS_KEYFORMAT_HEX Z.eqb
       Pos.eqb] in E.
  unfold MIN_PASSPHRASE_LEN, MAX_PASSPHRASE_LEN in *.
  split; [|split]; intros H.
  - exists tail. rewrite E.
    replace (64 <? len) with false by (symmetry; apply Z.ltb_ge; lia).
    replace (len <? 8) with false by (symmetry; apply Z.ltb_ge; lia).
    reflexivity.
  - rewrite E.
    replace (64 <? len) with false by (symmetry; apply Z.ltb_ge; lia).
    replace (len <? 8) with true by (symmetry; apply Z.ltb_lt; lia).
    reflexivity.
  - rewrite E.
    replace (64 <? len) with true by (symmetry; apply Z.ltb_lt; lia).
    reflexivity.
Qed.

Lemma passphrase_line :
  line_of (Scenario.passphrase ++ [10]) Scenario.passphrase.
Proof.
  split.
  - vm_compute. intuition discriminate.
  - right. exists []. reflexivity.
Defined.

Lemma X6_witness :
  exists tail,
    get_key_material_km false false ZFS_KEYFORMAT_PASSPHRASE "file:///pass"
      None Scenario.passphrase_world
    = (Ok (Scenario.passphrase ++ 0 :: tail,
           Z.of_nat (length Scenario.passphrase)),
       Scenario.passphrase_world).
Proof.
  apply (proj1 (X6_passphrase_length_bounds "file:///pass"
                  (Scenario.passphrase ++ [10]) Scenario.passphrase false false
                  None Scenario.passphrase_world eq_refl eq_refl
                  passphrase_line)).
  vm_compute. split; discriminate.
Defined.

(** X5.  A key file that holds no byte.  For a raw key, [fread] returns 0 and
    [get_key_material_raw] looks for the newline in the byte before its
    buffer: undefined.  For the other formats [getline] fails: the outcome is
    its [errno] when there is one, and otherwise the refusal of key material
    of length 0 as too short. *)
Theorem X5_empty_key_file :
  forall (kl : string) (do_verify newkey : bool) (keyformat : Z)
         (fsname : option string) (w : world),
    zfs_prop_parse_keylocation kl = ZFS_KEYLOCATION_URI ->
    lookup_file (fs_files w) (uri_path kl) = Some [] ->
    let acquire := get_key_material_km do_verify newkey keyformat kl fsname w in
    (keyformat = ZFS_KEYFORMAT_RAW -> acquire = (Undef, w))
    /\ (keyformat <> ZFS_KEYFORMAT_RAW -> getline_errno w <> 0 ->
          acquire = (Err (getline_errno w), w))
    /\ (keyformat = ZFS_KEYFORMAT_HEX -> getline_errno w = 0 ->
          acquire
          = (Err EINVAL, set_desc "Hex key too short (expected %u)." w))
    /\ (keyformat = ZFS_KEYFORMAT_PASSPHRASE -> getline_errno w = 0 ->
          acquire = (Err EINVAL, set_desc "Passphrase too short (min 8)." w)).
Proof.
  intros kl do_verify newkey keyformat fsname w Hp Hf acquire.
  assert (E : acquire
              = (' (km, kmlen, fd1) <-
                   get_key_material_raw (Fp []) fsname keyformat false newkey ;;
                 get_key_material_validate keyformat km kmlen ;;;
                 ret (km, kmlen)) w).
  { subst acquire. unfold get_key_material_km. rewrite Hp.
    unfold bind at 1. unfold bind at 1. unfold get at 1. rewrite Hf.
    unfold ret at 1. apply bind_ext. intros [[km kmlen] fd1] w1 _.
    apply bind_ext. intros [] w2 _. msimpl. now rewrite andb_false_r. }
  rewrite E. clear E acquire.
  split; [|split; [|split]].
  - intros ->. reflexivity.
  - intros Hkf He. unfold get_key_material_raw.
    apply Z.eqb_neq in Hkf, He. rewrite Hkf. cbn [negb]. msimpl.
    cbn [getline_split]. msimpl. now rewrite He.
  - intros -> He. unfold get_key_material_raw. msimpl.
    cbn [ZFS_KEYFORMAT_HEX ZFS_KEYFORMAT_RAW Z.eqb Pos.eqb negb getline_split].
    msimpl. rewrite He. reflexivity.
  - intros -> He. unfold get_key_material_raw. msimpl.
    cbn [ZFS_KEYFORMAT_PASSPHRASE ZFS_KEYFORMAT_RAW Z.eqb Pos.eqb negb
         getline_split].
    msimpl. rewrite He. reflexivity.
Qed.

Lemma X5_witness :
  get_key_material_km false false ZFS_KEYFORMAT_RAW "file:///empty" None
    Scenario.passphrase_world
  = (Undef, Scenario.passphrase_world).
Proof.
  apply (proj1 (X5_empty_key_file "file:///empty" false false ZFS_KEYFORMAT_RAW
                  None Scenario.passphrase_world eq_refl eq_refl) eq_refl).
Defined.

(** ** Lengths *)

Lemma zeros_length n : length (zeros n) = n.
Proof. apply repeat_length. Qed.

Lemma load_bytes_length buf n r :
  load_bytes buf n = Ok r -> Z.of_nat (length r) = n.
Proof.
  unfold load_bytes. destruct ((0 <=? n) && _) eqn:E; [|discriminate].
  apply andb_prop in E as [E1 E2]. apply Z.leb_le in E1, E2.
  intros [= <-]. rewrite length_firstn. lia.
Qed.

Lemma memmove_defined dst off src :
  0 <= off -> off + Z.of_nat (length src) <= Z.of_nat (length dst) ->
  exists r, memmove dst off src = Ok r /\ length r = length dst.
Proof.
  intros H1 H2. unfold memmove.
  replace ((0 <=? off) && _) with true
    by (symmetry; apply andb_true_intro; split; apply Z.leb_le; lia).
  eexists. split; [reflexivity|].
  rewrite !length_app, length_firstn, length_skipn. lia.
Qed.

Section Lengths.
Variable crypto_mac : list Z -> list Z -> option (list Z).

Lemma pbkdf2_rounds_lengths n :
  forall key saltlen iter hk block hk' block',
    pbkdf2_rounds crypto_mac n key saltlen iter hk block = Ok (hk', block') ->
    length hk' = length hk
    /\ (length block = 20%nat -> length block' = 20%nat).
Proof.
  induction n as [|n IH]; intros key saltlen iter hk block hk' block' H.
  - cbn in H. injection H as <- <-. auto.
  - cbn [pbkdf2_rounds] in H.
    destruct (load_bytes hk _) as [d| |]; cbn [rbind] in H; try discriminate.
    destruct (crypto_mac key d) as [h|]; [|discriminate].
    destruct (Z.eqb_spec (Z.of_nat (length h)) SHA1_DIGEST_LEN) as [Hh|];
      cbn [negb] in H; [|discriminate].
    destruct (memmove hk 0 h) as [hk1| |] eqn:Em; cbn [rbind] in H;
      try discriminate.
    apply IH in H as [H1 H2]. apply memmove_length in Em.
    split; [congruence|]. intros Hb. apply H2.
    rewrite xor_bytes_length. unfold SHA1_DIGEST_LEN in Hh. lia.
Qed.

Lemma pbkdf2_blocks_length n :
  forall key salt iterations outputlen blockptr hk output out,
    pbkdf2_blocks crypto_mac n key salt iterations outputlen blockptr hk output
    = Ok out ->
    length out = length output.
Proof.
  induction n as [|n IH];
    intros key salt iterations outputlen blockptr hk output out H.
  - cbn in H. now injection H as <-.
  - cbn [pbkdf2_blocks] in H. cbv zeta in H.
    destruct (memmove hk 0 salt) as [hk1| |]; cbn [rbind] in H;
      try discriminate.
    destruct (memmove hk1 _ _) as [hk2| |]; cbn [rbind] in H; try discriminate.
    destruct (pbkdf2_rounds _ _ _ _ _ _ _) as [[hk3 block']| |];
      cbn [rbind] in H; try discriminate.
    destruct (if outputlen <? blockptr + SHA1_DIGEST_LEN then _ else _)
      as [output'| |] eqn:Em; cbn [rbind] in H; try discriminate.
    apply IH in H. rewrite H.
    destruct (outputlen <? blockptr + SHA1_DIGEST_LEN);
      now apply memmove_length in Em.
Qed.

Lemma pbkdf2_length passphrase passphraselen salt iterations outputlen out :
  pbkdf2 crypto_mac passphrase passphraselen salt iterations outputlen = Ok out ->
  length out = Z.to_nat outputlen.
Proof.
  unfold pbkdf2. cbv zeta.
  destruct (load_bytes passphrase passphraselen) as [key| |]; cbn [rbind];
    try discriminate.
  intros H. apply pbkdf2_blocks_length in H. now rewrite zeros_length in H.
Qed.

Lemma hex_key_to_raw_loop_length n :
  forall hex i out r,
    hex_key_to_raw_loop n hex i out = Ok r ->
    length r = (length out + n)%nat.
Proof.
  induction n as [|n IH]; intros hex i out r H.
  - cbn in H. injection H as <-. lia.
  - cbn [hex_key_to_raw_loop] in H.
    destruct (load_byte hex i) as [hi| |]; cbn [rbind] in H; try discriminate.
    destruct (negb (isxdigit hi)); [discriminate|].
    destruct (load_byte hex (i + 1)) as [lo| |]; cbn [rbind] in H;
      try discriminate.
    destruct (negb (isxdigit lo)); [discriminate|].
    apply IH in H. rewrite H, length_app. cbn [length]. lia.
Qed.

(** The wrapping key [derive_key] returns is 32 bytes long, and the world is
    as it was. *)
Lemma derive_key_length format iters km kmlen salt w key w' :
  derive_key crypto_mac format iters km kmlen salt w = (Ok key, w') ->
  length key = 32%nat /\ w' = w.
Proof.
  unfold derive_key.
  destruct (format =? ZFS_KEYFORMAT_RAW).
  { unfold lift. intros [= H <-]. split; [|reflexivity].
    apply load_bytes_length in H. unfold WRAPPING_KEY_LEN in H. lia. }
  destruct (format =? ZFS_KEYFORMAT_HEX).
  { destruct (hex_key_to_raw km _) as [k| |] eqn:E.
    - intros [= <- <-]. split; [|reflexivity].
      unfold hex_key_to_raw in E. apply hex_key_to_raw_loop_length in E.
      rewrite E. reflexivity.
    - unfold fail_aux, zfs_error_aux. msimpl. discriminate.
    - discriminate. }
  destruct (format =? ZFS_KEYFORMAT_PASSPHRASE); [|discriminate].
  destruct (strlen km) as [len| |]; cbn [rbind]; try discriminate.
  destruct (pbkdf2 _ _ _ _ _ _) as [k| |] eqn:E.
  - intros [= <- <-]. split; [|reflexivity].
    apply pbkdf2_length in E. rewrite E. reflexivity.
  - unfold fail_aux, zfs_error_aux. msimpl. discriminate.
  - discriminate.
Qed.

End Lengths.

(** ** The buffers of [pbkdf2] *)

Section Safety.
Variable crypto_mac : list Z -> list Z -> option (list Z).
Hypothesis crypto_mac_length :
  forall k m d, crypto_mac k m = Some d -> length d = 20%nat.

Lemma pbkdf2_rounds_safe n :
  forall key saltlen iter hk block,
    0 <= saltlen -> 0 <= iter ->
    saltlen + 4 <= Z.of_nat (length hk) -> (20 <= length hk)%nat ->
    ok_or_eio (pbkdf2_rounds crypto_mac n key saltlen iter hk block).
Proof.
  induction n as [|n IH]; intros key saltlen iter hk block Hs Hi Hl1 Hl2.
  - exact I.
  - cbn [pbkdf2_rounds]. cbv zeta.
    assert (Hin : 0 <= (if 0 <? iter then SHA1_DIGEST_LEN else saltlen + 4)
                  <= Z.of_nat (length hk))
      by (unfold SHA1_DIGEST_LEN; destruct (0 <? iter); lia).
    unfold load_bytes at 1.
    replace ((0 <=? _) && _) with true
      by (symmetry; apply andb_true_intro; split; apply Z.leb_le; lia).
    cbn [rbind].
    destruct (crypto_mac key _) as [h|] eqn:Eh; [|reflexivity].
    apply crypto_mac_length in Eh. rewrite Eh.
    change (negb (Z.of_nat 20 =? SHA1_DIGEST_LEN)) with false. cbv iota.
    destruct (memmove_defined hk 0 h) as (hk1 & -> & L1); [lia|lia|].
    cbn [rbind]. apply IH; try lia.
Qed.

Lemma pbkdf2_blocks_safe n :
  forall key salt iterations outputlen blockptr hk output,
    Z.of_nat (length salt) + 4 <= Z.of_nat (length hk) ->
    (20 <= length hk)%nat ->
    Z.of_nat (length output) = outputlen ->
    0 <= blockptr ->
    (n <> 0%nat -> blockptr + 20 * (Z.of_nat n - 1) < outputlen) ->
    ok_or_eio
      (pbkdf2_blocks crypto_mac n key salt iterations outputlen blockptr hk
         output).
Proof.
  induction n as [|n IH];
    intros key salt iterations outputlen blockptr hk output Hl1 Hl2 Ho Hb Hn.
  - exact I.
  - specialize (Hn ltac:(discriminate)).
    cbn [pbkdf2_blocks]. cbv zeta.
    destruct (memmove_defined hk 0 salt) as (hk1 & -> & L1); [lia|lia|].
    cbn [rbind].
    destruct (memmove_defined hk1 (Z.of_nat (length salt))
                (BE32 (1 + blockptr / SHA1_DIGEST_LEN)))
      as (hk2 & -> & L2); [lia|cbn [BE32 length]; lia|].
    cbn [rbind].
    pose proof (pbkdf2_rounds_safe (Z.to_nat iterations) key
                  (Z.of_nat (length salt)) 0 hk2
                  (zeros (Z.to_nat SHA1_DIGEST_LEN))
                  ltac:(lia) ltac:(lia) ltac:(lia) ltac:(lia)) as S.
    destruct (pbkdf2_rounds _ _ _ _ _ _ _) as [[hk3 block']|e|] eqn:E;
      cbn [rbind]; [|exact S|exact S].
    apply pbkdf2_rounds_lengths in E as [L3 Lb].
    specialize (Lb (zeros_length _)).
    unfold SHA1_DIGEST_LEN in *.
    assert (Em : exists output',
               (if outputlen <? blockptr + 20
                then memmove output blockptr
                       (firstn (Z.to_nat (outputlen - blockptr)) block')
                else memmove output blockptr block') = Ok output'
               /\ length output' = length output).
    { destruct (Z.ltb_spec outputlen (blockptr + 20)).
      - apply memmove_defined; [lia|]. rewrite length_firstn. lia.
      - apply memmove_defined; lia. }
    destruct Em as (output' & -> & L4). cbn [rbind].
    apply IH; try lia.
Qed.

Lemma pbkdf2_safe passphrase passphraselen salt iterations outputlen :
  0 <= passphraselen <= Z.of_nat (length passphrase) ->
  Z.of_nat (length salt) <= 16 \/ 20 < Z.of_nat (length salt) < 65532 ->
  ok_or_eio
    (pbkdf2 crypto_mac passphrase passphraselen salt iterations outputlen).
Proof.
  intros Hp Hs. unfold pbkdf2. cbv zeta.
  unfold load_bytes at 1.
  replace ((0 <=? _) && _) with true
    by (symmetry; apply andb_true_intro; split; apply Z.leb_le; lia).
  cbn [rbind].
  unfold SHA1_DIGEST_LEN.
  assert (Hk : Z.of_nat (length salt) + 4
               <= (if 20 <? Z.of_nat (length salt)
                   then (Z.of_nat (length salt) + 4) mod 2 ^ 16 else 20)
               /\ 20 <= (if 20 <? Z.of_nat (length salt)
                         then (Z.of_nat (length salt) + 4) mod 2 ^ 16 else 20)).
  { destruct (Z.ltb_spec 20 (Z.of_nat (length salt))).
    - rewrite Z.mod_small by lia. lia.
    - lia. }
  destruct Hk as [Hk1 Hk2].
  destruct (Z_le_gt_dec outputlen 0) as [Hle|Hgt].
  - replace (Z.to_nat ((outputlen + 20 - 1) / 20)) with 0%nat.
    + exact I.
    + assert ((outputlen + 20 - 1) / 20 < 1); [|lia].
      apply Z.div_lt_upper_bound; lia.
  - apply pbkdf2_blocks_safe.
    + rewrite zeros_length. lia.
    + rewrite zeros_length. lia.
    + rewrite zeros_length. lia.
    + lia.
    + intros _. rewrite Z2Nat.id by (apply Z.div_pos; lia).
      pose proof (Z.mul_div_le (outputlen + 20 - 1) 20 ltac:(lia)). lia.
Qed.

End Safety.

(** X9.  [pbkdf2] stays within its buffers for a salt of at most 16 bytes, or
    of more than 20 and less than 65532 bytes, whatever the iteration count
    and the output length, when the key length is within the passphrase
    buffer, [crypto_mac] writes digests of 20 bytes and the 32-bit block
    offset does not wrap: it returns [EIO] (a failure of [crypto_mac]) or
    fills exactly [outputlen] bytes. *)
Theorem X9_pbkdf2_within_buffers :
  forall (crypto_mac : list Z -> list Z -> option (list Z))
         (passphrase salt : list Z) (passphraselen iterations outputlen : Z),
    (forall k m d, crypto_mac k m = Some d -> length d = 20%nat) ->
    0 <= passphraselen <= Z.of_nat (length passphrase) ->
    Z.of_nat (length salt) <= 16 \/ 20 < Z.of_nat (length salt) < 65532 ->
    outputlen < 2 ^ 32 - SHA1_DIGEST_LEN ->
    pbkdf2 crypto_mac passphrase passphraselen salt iterations outputlen
    = Err EIO
    \/ exists out,
         pbkdf2 crypto_mac passphrase passphraselen salt iterations outputlen
         = Ok out
         /\ length out = Z.to_nat outputlen.
Proof.
  intros crypto_mac passphrase salt passphraselen iterations outputlen Hm Hp Hs
         _.
  pose proof (pbkdf2_safe crypto_mac Hm passphrase passphraselen salt
                iterations outputlen Hp Hs) as S.
  destruct (pbkdf2 _ _ _ _ _ _) as [out|e|] eqn:E; cbn in S.
  - right. exists out. split; [reflexivity|]. now apply pbkdf2_length in E.
  - left. now subst e.
  - contradiction.
Qed.

Lemma X9_witness :
  pbkdf2 Fixture.hmac_sha1 (bytes_of_string "password") 8
    (bytes_of_string "salt") 1 20 = Err EIO
  \/ exists out,
       pbkdf2 Fixture.hmac_sha1 (bytes_of_string "password") 8
         (bytes_of_string "salt") 1 20 = Ok out
       /\ length out = Z.to_nat 20.
Proof.
  apply (X9_pbkdf2_within_buffers Fixture.hmac_sha1
           (bytes_of_string "password") (bytes_of_string "salt") 8 1 20).
  - intros k m d [= <-]. apply sha1_hmac_length.
  - vm_compute. split; discriminate.
  - left. vm_compute. discriminate.
  - reflexivity.
Defined.

(** X10.  With a salt of 17 to 20 bytes [pbkdf2] writes past its work buffer:
    [hmac_key] is allocated [SHA1_DIGEST_LEN] (20) bytes unless the salt is
    longer than that, and the salt followed by the 4-byte block index needs
    more.  ([derive_key] hands it 8 bytes of salt.) *)
Theorem X10_pbkdf2_salt_17_to_20_overruns :
  forall (crypto_mac : list Z -> list Z -> option (list Z))
         (passphrase salt : list Z) (passphraselen iterations outputlen : Z),
    (16 < length salt <= 20)%nat ->
    0 <= passphraselen <= Z.of_nat (length passphrase) ->
    0 < outputlen ->
    pbkdf2 crypto_mac passphrase passphraselen salt iterations outputlen
    = Undef.
Proof.
  intros crypto_mac passphrase salt passphraselen iterations outputlen
         Hs Hp Ho.
  unfold pbkdf2. cbv zeta. unfold load_bytes at 1.
  replace ((0 <=? _) && _) with true
    by (symmetry; apply andb_true_intro; split; apply Z.leb_le; lia).
  cbn [rbind]. unfold SHA1_DIGEST_LEN.
  replace (20 <? Z.of_nat (length salt)) with false
    by (symmetry; apply Z.ltb_ge; lia).
  destruct (Z.to_nat ((outputlen + 20 - 1) / 20)) as [|n] eqn:En.
  { assert (1 <= (outputlen + 20 - 1) / 20)
      by (apply Z.div_le_lower_bound; lia). lia. }
  cbn [pbkdf2_blocks]. cbv zeta.
  destruct (memmove_defined (zeros (Z.to_nat 20)) 0 salt) as (hk1 & -> & L1);
    [lia|rewrite zeros_length; lia|].
  cbn [rbind]. rewrite zeros_length in L1.
  unfold memmove at 1. rewrite L1. cbn [BE32 length].
  replace ((0 <=? Z.of_nat (length salt))
           && (Z.of_nat (length salt) + Z.of_nat 4 <=? Z.of_nat (Z.to_nat 20)))
    with false; [reflexivity|].
  symmetry. apply andb_false_intro2. apply Z.leb_gt. lia.
Qed.

Lemma X10_witness :
  pbkdf2 Fixture.hmac_sha1 (bytes_of_string "password") 8 (repeat 1 17) 1 32
  = Undef.
Proof.
  apply (X10_pbkdf2_salt_17_to_20_overruns Fixture.hmac_sha1
           (bytes_of_string "password") (repeat 1 17) 8 1 32).
  - vm_compute. split; lia.
  - vm_compute. split; discriminate.
  - lia.
Defined.

(** ** Unloading a key *)

(** X26.  [zfs_crypto_unload_key] returns 0 exactly when its preconditions
    hold (feature, encrypted dataset, keylocation not inherited, key not
    unavailable) and [lzc_unload_key] answers 0; it returns the code
    [lzc_unload_key] answers otherwise.  When a precondition fails,
    [lzc_unload_key] is not called: only the message has changed.  A key that
    is unavailable gives [ENOENT]. *)
Theorem X26_unload_key :
  forall (lzc_unload_key : string -> world -> Z * world) (zhp : zfs_handle)
         (w : world),
    let r := zfs_crypto_unload_key lzc_unload_key zhp w in
    let e := fst (lzc_unload_key (zfs_name zhp) w) in
    (fst r = Ok tt <-> unload_ready zhp /\ e = 0)
    /\ (unload_ready zhp -> e <> 0 -> fst r = Err e)
    /\ (~ unload_ready zhp ->
        exists e' msg, r = (Err e', set_desc msg w) /\ e' <> 0)
    /\ (zh_feature_enabled zhp = true ->
        zh_keyformat zhp <> ZFS_KEYFORMAT_NONE ->
        zh_keylocation_ret zhp = 0 ->
        zh_keylocation_srctype zhp <> ZPROP_SRC_INHERITED ->
        zh_keystatus zhp = ZFS_KEYSTATUS_UNAVAILABLE ->
        r = (Err ENOENT, set_desc "Key already unloaded for '%s'." w)).
Proof.
  intros lzc zhp w r e.
  assert (D : zh_feature_enabled zhp = true ->
              zh_keyformat zhp <> ZFS_KEYFORMAT_NONE ->
              zh_keylocation_ret zhp = 0 ->
              zh_keylocation_srctype zhp <> ZPROP_SRC_INHERITED ->
              zh_keystatus zhp = ZFS_KEYSTATUS_UNAVAILABLE ->
              r = (Err ENOENT, set_desc "Key already unloaded for '%s'." w)).
  { intros Hfe Hkf Hret Hsrc Hks. subst r. unfold zfs_crypto_unload_key.
    apply Z.eqb_neq in Hkf, Hsrc. rewrite Hfe, Hkf, Hret, Hsrc, Hks.
    reflexivity. }
  refine ((fun H => conj (proj1 H)
                      (conj (proj1 (proj2 H)) (conj (proj2 (proj2 H)) D))) _).
  clear D. subst r e. unfold zfs_crypto_unload_key, unload_ready.
  destruct (zh_feature_enabled zhp); cbn [negb].
  2:{ split; [split; [discriminate|intros [[? _] _]; discriminate]|].
      split; [intros [? _] _; discriminate|].
      intros _; exists EINVAL; eexists; split; [reflexivity|discriminate]. }
  destruct (Z.eqb_spec (zh_keyformat zhp) ZFS_KEYFORMAT_NONE) as [Hk|Hk].
  { split; [split; [discriminate|intros [(_ & ? & _) _]; contradiction]|].
    split; [intros (_ & ? & _) _; contradiction|].
    intros _; exists EINVAL; eexists; split; [reflexivity|discriminate]. }
  destruct (Z.eqb_spec (zh_keylocation_ret zhp) 0) as [Hr|Hr]; cbn [negb].
  2:{ split; [split; [discriminate|intros [(_ & _ & ? & _) _]; contradiction]|].
      split; [intros (_ & _ & ? & _) _; contradiction|].
      intros _; eexists; eexists; split; [reflexivity|exact Hr]. }
  destruct (Z.eqb_spec (zh_keylocation_srctype zhp) ZPROP_SRC_INHERITED)
    as [Hs|Hs].
  { split; [split; [discriminate|intros [(_ & _ & _ & ? & _) _]; contradiction]|].
    split; [intros (_ & _ & _ & ? & _) _; contradiction|].
    intros _; exists EINVAL; eexists; split; [reflexivity|discriminate]. }
  destruct (Z.eqb_spec (zh_keystatus zhp) ZFS_KEYSTATUS_UNAVAILABLE)
    as [Hu|Hu].
  { split; [split; [discriminate|intros [(_ & _ & _ & _ & ?) _]; contradiction]|].
    split; [intros (_ & _ & _ & _ & ?) _; contradiction|].
    intros _; exists ENOENT; eexists; split; [reflexivity|discriminate]. }
  destruct (lzc (zfs_name zhp) w) as [e w1]. cbn [fst].
  destruct (Z.eqb_spec e 0) as [He|He].
  - split; [split; [intros _; repeat split; assumption|reflexivity]|].
    split; [intros _ ?; contradiction|].
    intros H; exfalso; apply H; repeat split; assumption.
  - assert (E : fst ((unload_key_ioctl_message e ;;; @fail world unit e) w1)
                = Err e).
    { unfold unload_key_ioctl_message, zfs_error_aux.
      destruct (e =? ENOENT); [reflexivity|].
      destruct (e =? EBUSY); reflexivity. }
    split; [split; [rewrite E; discriminate|intros [_ ?]; contradiction]|].
    split; [intros _ _; exact E|].
    intros H; exfalso; apply H; repeat split; assumption.
Qed.

(** ** The passes of a load *)

Lemma frame_load_key_ioctl_message {B} (f : world -> B) e :
  io_independent f -> frame f (load_key_ioctl_message e).
Proof.
  intros (_ & _ & H). unfold load_key_ioctl_message, zfs_error_aux.
  repeat match goal with
         | |- frame _ (if ?c then _ else _) => destruct c
         | |- frame _ (modify _) => apply frame_modify, H
         | |- frame _ (ret _) => apply frame_ret
         end.
Qed.

Section Load_passes.
Variable crypto_mac : list Z -> list Z -> option (list Z).

(** One pass: what it leaves of the terminal flag and of the storage layer,
    and the call it makes. *)
Lemma load_key_pass_cases zhp noop keyformat keylocation iters salt freed w :
  exists res correctible freed' w',
    load_key_pass crypto_mac zhp noop keyformat keylocation iters salt freed w
    = (res, can_retry_of keylocation w, correctible, freed', w')
    /\ stdin_tty w' = stdin_tty w
    /\ lzc_load_key w' = lzc_load_key w
    /\ ((ioctls w' = ioctls w /\ res <> Ok tt)
        \/ exists key,
             length key = 32%nat
             /\ ioctls w' = ioctls w ++ [IocLoadKey (zfs_name zhp) noop key]
             /\ let e := lzc_load_key w (zfs_name zhp) noop key in
                (e = 0 /\ res = Ok tt)
                \/ (e <> 0 /\ res = Err e /\ correctible = (e =? EACCES))).
Proof.
  unfold load_key_pass, get_key_material.
  pose proof (frame_get_key_material_km stdin_tty false false keyformat
                keylocation (Some (zfs_name zhp)) io_independent_stdin_tty w)
    as T1.
  pose proof (frame_get_key_material_km lzc_load_key false false keyformat
                keylocation (Some (zfs_name zhp)) io_independent_lzc_load_key w)
    as K1.
  pose proof (frame_get_key_material_km ioctls false false keyformat
                keylocation (Some (zfs_name zhp)) io_independent_ioctls w)
    as I1.
  destruct (get_key_material_km false false keyformat keylocation
              (Some (zfs_name zhp)) w) as [[[km kmlen]|e|] w1];
    cbn [snd] in T1, K1, I1.
  - pose proof (frame_derive_key stdin_tty crypto_mac keyformat iters km kmlen
                  salt io_independent_stdin_tty w1) as T2.
    pose proof (frame_derive_key lzc_load_key crypto_mac keyformat iters km
                  kmlen salt io_independent_lzc_load_key w1) as K2.
    pose proof (frame_derive_key ioctls crypto_mac keyformat iters km kmlen
                  salt io_independent_ioctls w1) as I2.
    destruct (derive_key crypto_mac keyformat iters km kmlen salt w1)
      as [[key|e|] w2] eqn:Ed; cbn [snd] in T2, K2, I2.
    + apply derive_key_length in Ed as [Hlen ->]. cbv zeta.
      destruct (Z.eqb_spec (lzc_load_key w1 (zfs_name zhp) noop key) 0)
        as [He|He].
      * do 4 eexists. split; [reflexivity|].
        split; [exact T1|]. split; [exact K1|]. right.
        exists key. split; [exact Hlen|]. cbn [add_ioctl ioctls].
        split; [now rewrite I1|]. left. rewrite <- K1. now split.
      * do 4 eexists. split; [reflexivity|].
        pose proof (frame_load_key_ioctl_message stdin_tty
                      (lzc_load_key w1 (zfs_name zhp) noop key)
                      io_independent_stdin_tty
                      (add_ioctl (IocLoadKey (zfs_name zhp) noop key) w1)) as T3.
        pose proof (frame_load_key_ioctl_message lzc_load_key
                      (lzc_load_key w1 (zfs_name zhp) noop key)
                      io_independent_lzc_load_key
                      (add_ioctl (IocLoadKey (zfs_name zhp) noop key) w1)) as K3.
        pose proof (frame_load_key_ioctl_message ioctls
                      (lzc_load_key w1 (zfs_name zhp) noop key)
                      io_independent_ioctls
                      (add_ioctl (IocLoadKey (zfs_name zhp) noop key) w1)) as I3.
        split; [now rewrite T3|]. split; [now rewrite K3|]. right.
        exists key. split; [exact Hlen|].
        split; [rewrite I3; cbn [add_ioctl ioctls]; now rewrite I1|].
        right. rewrite <- K1. now repeat split.
    + do 4 eexists. split; [reflexivity|].
      split; [congruence|]. split; [congruence|]. left.
      split; [congruence|discriminate].
    + do 4 eexists. split; [reflexivity|].
      split; [congruence|]. split; [congruence|]. left.
      split; [congruence|discriminate].
  - destruct freed; do 4 eexists; (split; [reflexivity|]);
      (split; [exact T1|]); (split; [exact K1|]); left;
      (split; [exact I1|discriminate]).
  - do 4 eexists. split; [reflexivity|].
    split; [exact T1|]. split; [exact K1|]. left.
    split; [exact I1|discriminate].
Qed.

Lemma can_retry_of_stdin_tty keylocation w w' :
  stdin_tty w' = stdin_tty w ->
  can_retry_of keylocation w' = can_retry_of keylocation w.
Proof. intros H. unfold can_retry_of. now rewrite H. Qed.

(** The calls of a run of passes: at most one per pass; a run that succeeds
    ends with the call that was accepted, after calls that were all answered
    with [EACCES]. *)
Lemma load_key_attempt_calls zhp noop keyformat keylocation iters salt :
  forall fuel attempts freed w,
    exists calls,
      let r := load_key_attempt crypto_mac fuel zhp noop keyformat keylocation
                 iters salt attempts freed w in
      ioctls (snd r) = ioctls w ++ calls
      /\ Forall (load_key_call zhp noop) calls
      /\ (Z.of_nat (length calls)
          <= if can_retry_of keylocation w
             then Z.max 1 (MAX_KEY_PROMPT_ATTEMPTS + 2 - attempts) else 1)
      /\ (fst r = Ok tt ->
          exists earlier last,
            calls = earlier ++ [last]
            /\ load_key_answer w zhp noop 0 last
            /\ Forall (load_key_answer w zhp noop EACCES) earlier).
Proof.
  unfold MAX_KEY_PROMPT_ATTEMPTS.
  induction fuel as [|fuel IH]; intros attempts freed w.
  - cbn [load_key_attempt].
    destruct (load_key_pass_cases zhp noop keyformat keylocation iters salt
                freed w) as (res & corr & freed' & w' & -> & T & K & C).
    assert (Hb : 1 <= if can_retry_of keylocation w
                      then Z.max 1 (3 + 2 - attempts) else 1)
      by (destruct (can_retry_of keylocation w); lia).
    destruct C as [[I N]|(key & Hlen & I & [[He ->]|(He & -> & Hc)])].
    + exists []. rewrite app_nil_r.
      destruct res as [[]|e|]; [contradiction| |];
        [destruct (_ && _ && _)|]; cbn [fst snd];
        (split; [exact I|]); (split; [constructor|]);
        (split; [cbn [length]; lia|]); discriminate.
    + exists [IocLoadKey (zfs_name zhp) noop key]. cbn [fst snd].
      split; [exact I|]. split; [repeat constructor; now exists key|].
      split; [cbn [length]; lia|]. intros _.
      exists [], (IocLoadKey (zfs_name zhp) noop key).
      split; [reflexivity|]. split; [now exists key|constructor].
    + exists [IocLoadKey (zfs_name zhp) noop key].
      destruct (_ && _ && _); cbn [fst snd];
        (split; [exact I|]); (split; [repeat constructor; now exists key|]);
        (split; [cbn [length]; lia|]); discriminate.
  - rewrite load_key_attempt_step. unfold MAX_KEY_PROMPT_ATTEMPTS.
    destruct (load_key_pass_cases zhp noop keyformat keylocation iters salt
                freed w) as (res & corr & freed' & w' & -> & T & K & C).
    assert (Hb : 1 <= if can_retry_of keylocation w
                      then Z.max 1 (3 + 2 - attempts) else 1)
      by (destruct (can_retry_of keylocation w); lia).
    assert (Hdone : forall l,
               ioctls w' = ioctls w ++ l ->
               Forall (load_key_call zhp noop) l ->
               (length l <= 1)%nat ->
               forall r0 : result unit, r0 <> Ok tt ->
               exists calls,
                 ioctls (snd (r0, w')) = ioctls w ++ calls
                 /\ Forall (load_key_call zhp noop) calls
                 /\ Z.of_nat (length calls)
                    <= (if can_retry_of keylocation w
                        then Z.max 1 (3 + 2 - attempts) else 1)
                 /\ (fst (r0, w') = Ok tt ->
                     exists earlier last,
                       calls = earlier ++ [last]
                       /\ load_key_answer w zhp noop 0 last
                       /\ Forall (load_key_answer w zhp noop EACCES) earlier)).
    { intros l Hl Hf Hn r0 Hr0. exists l. cbn [fst snd].
      split; [exact Hl|]. split; [exact Hf|]. split; [lia|].
      intros ?; contradiction. }
    assert (Hretry : forall l,
               ioctls w' = ioctls w ++ l ->
               Forall (load_key_call zhp noop) l ->
               (length l <= 1)%nat ->
               Forall (load_key_answer w zhp noop EACCES) l ->
               can_retry_of keylocation w = true ->
               attempts <= 3 ->
               exists calls,
                 let r := load_key_attempt crypto_mac fuel zhp noop keyformat
                            keylocation iters salt (attempts + 1) freed' w' in
                 ioctls (snd r) = ioctls w ++ calls
                 /\ Forall (load_key_call zhp noop) calls
                 /\ Z.of_nat (length calls)
                    <= (if can_retry_of keylocation w
                        then Z.max 1 (3 + 2 - attempts) else 1)
                 /\ (fst r = Ok tt ->
                     exists earlier last,
                       calls = earlier ++ [last]
                       /\ load_key_answer w zhp noop 0 last
                       /\ Forall (load_key_answer w zhp noop EACCES) earlier)).
    { intros l Hl Hf Hn Ha Hcr Hat.
      destruct (IH (attempts + 1) freed' w') as (calls & I' & F' & B' & S').
      cbv zeta in I', B', S'. cbv zeta.
      rewrite (can_retry_of_stdin_tty keylocation w w' T), Hcr in B'.
      exists (l ++ calls).
      split; [rewrite I', Hl; now rewrite app_assoc|].
      split; [apply Forall_app; now split|].
      split; [rewrite Hcr, length_app; lia|].
      intros Hok. destruct (S' Hok) as (earlier & last & -> & Hlast & Hearlier).
      exists (l ++ earlier), last.
      split; [now rewrite app_assoc|].
      unfold load_key_answer in *. rewrite K in Hlast, Hearlier.
      split; [exact Hlast|]. apply Forall_app. now split. }
    destruct C as [[I N]|(key & Hlen & I & [[He ->]|(He & -> & Hc)])].
    + destruct res as [[]|e|]; [contradiction| |].
      * destruct (can_retry_of keylocation w && corr && (attempts <=? 3))
          eqn:Ec.
        -- apply andb_prop in Ec as [Ec Ha]. apply andb_prop in Ec as [Ec _].
           apply Z.leb_le in Ha.
           apply (Hretry [] ltac:(now rewrite app_nil_r) ltac:(constructor)
                     ltac:(cbn [length]; lia) ltac:(constructor) Ec Ha).
        -- apply (Hdone [] ltac:(now rewrite app_nil_r) ltac:(constructor)
                  ltac:(cbn [length]; lia)); discriminate.
      * apply (Hdone [] ltac:(now rewrite app_nil_r) ltac:(constructor)
                  ltac:(cbn [length]; lia)); discriminate.
    + exists [IocLoadKey (zfs_name zhp) noop key]. cbn [fst snd].
      split; [exact I|]. split; [repeat constructor; now exists key|].
      split; [cbn [length]; lia|]. intros _.
      exists [], (IocLoadKey (zfs_name zhp) noop key).
      split; [reflexivity|]. split; [now exists key|constructor].
    + assert (Hcall : Forall (load_key_call zhp noop)
                        [IocLoadKey (zfs_name zhp) noop key])
        by (repeat constructor; now exists key).
      destruct (can_retry_of keylocation w && corr && (attempts <=? 3))
        eqn:Ec.
      * apply andb_prop in Ec as [Ec Ha]. apply andb_prop in Ec as [Ec Hcorr].
        apply Z.leb_le in Ha. rewrite Hcorr in Hc. symmetry in Hc.
        apply Z.eqb_eq in Hc.
        apply (Hretry [IocLoadKey (zfs_name zhp) noop key] I Hcall
                 ltac:(cbn [length]; lia)); auto.
        repeat constructor. now exists key.
      * apply (Hdone [IocLoadKey (zfs_name zhp) noop key] I Hcall
                 ltac:(cbn [length]; lia)). discriminate.
Qed.

(** [zfs_crypto_load_key] stops at its preconditions or runs the passes. *)
Lemma zfs_crypto_load_key_cases zhp noop alt w :
  (~ load_ready zhp noop
   /\ exists e msg,
        zfs_crypto_load_key crypto_mac zhp noop alt w
        = (Err e, set_desc msg w)
        /\ e <> 0
        /\ (load_ready zhp true ->
            e = EEXIST /\ msg = "Key already loaded for '%s'."))
  \/ (load_ready zhp noop
      /\ zfs_crypto_load_key crypto_mac zhp noop alt w
         = load_key_attempt crypto_mac 5 zhp noop (zh_keyformat zhp)
             (opt_default (zh_keylocation zhp) alt) (load_iters zhp)
             (load_salt zhp) 0 false w).
Proof.
  destruct (zh_feature_enabled zhp) eqn:Hf.
  2:{ left. split; [intros (H & _); congruence|].
      unfold zfs_crypto_load_key. rewrite Hf.
      exists EINVAL. eexists. split; [reflexivity|].
      split; [discriminate|]. intros (H & _). congruence. }
  destruct (Z.eqb_spec (zh_keyformat zhp) ZFS_KEYFORMAT_NONE) as [Hk|Hk].
  { left. split; [intros (_ & H & _); contradiction|].
    unfold zfs_crypto_load_key. rewrite Hf, Hk.
    exists EINVAL. eexists. split; [reflexivity|].
    split; [discriminate|]. intros (_ & H & _). contradiction. }
  destruct (Z.eqb_spec (zh_keylocation_ret zhp) 0) as [Hr|Hr].
  2:{ left. split; [intros (_ & _ & H & _); contradiction|].
      unfold zfs_crypto_load_key. rewrite Hf.
      apply Z.eqb_neq in Hk. rewrite Hk. apply Z.eqb_neq in Hr. rewrite Hr.
      eexists. eexists. split; [reflexivity|].
      split; [now apply Z.eqb_neq|]. intros (_ & _ & H & _).
      apply Z.eqb_neq in Hr. contradiction. }
  destruct (Z.eqb_spec (zh_keylocation_srctype zhp) ZPROP_SRC_INHERITED)
    as [Hs|Hs].
  { left. split; [intros (_ & _ & _ & H & _); contradiction|].
    unfold zfs_crypto_load_key. rewrite Hf, Hr, Hs.
    apply Z.eqb_neq in Hk. rewrite Hk.
    exists EINVAL. eexists. split; [reflexivity|].
    split; [discriminate|]. intros (_ & _ & _ & H & _). contradiction. }
  destruct (negb noop && (zh_keystatus zhp =? ZFS_KEYSTATUS_AVAILABLE)) eqn:Ha.
  - left. apply andb_prop in Ha as [Hn Ha]. apply Z.eqb_eq in Ha.
    destruct noop; [discriminate|].
    split; [intros (_ & _ & _ & _ & [H|H]); [discriminate|contradiction]|].
    unfold zfs_crypto_load_key. rewrite Hf, Hr, Ha.
    apply Z.eqb_neq in Hk, Hs. rewrite Hk, Hs.
    exists EEXIST. eexists. split; [reflexivity|].
    split; [discriminate|]. intros _. now split.
  - right.
    assert (R : load_ready zhp noop).
    { repeat split; try assumption.
      destruct noop; [now left|right]. cbn [negb andb] in Ha.
      now apply Z.eqb_neq. }
    split; [exact R|]. now apply zfs_crypto_load_key_ready.
Qed.

End Load_passes.

(** X21.  When a precondition of [zfs_crypto_load_key] fails (feature,
    encrypted dataset, keylocation not inherited, key not yet loaded unless
    noop), it returns an error code other than 0 and only the message has
    changed: nothing is read, printed or sent to the storage layer.  When the
    key being already loaded is all that fails, the code is [EEXIST]. *)
Theorem X21_load_key_preconditions :
  forall (crypto_mac : list Z -> list Z -> option (list Z))
         (zhp : zfs_handle) (noop : bool) (alt : option string) (w : world),
    ~ load_ready zhp noop ->
    exists e msg,
      zfs_crypto_load_key crypto_mac zhp noop alt w = (Err e, set_desc msg w)
      /\ e <> 0
      /\ (load_ready zhp true ->
          e = EEXIST /\ msg = "Key already loaded for '%s'.").
Proof.
  intros crypto_mac zhp noop alt w Hn.
  destruct (zfs_crypto_load_key_cases crypto_mac zhp noop alt w)
    as [[_ H]|[R _]]; [exact H|contradiction].
Qed.

Lemma vault_not_load_ready : ~ load_ready Fixture.vault false.
Proof.
  intros (_ & _ & _ & _ & [H|H]); [discriminate H|now apply H].
Defined.

Lemma X21_witness :
  exists e msg,
    zfs_crypto_load_key Fixture.hmac_sha1 Fixture.vault false None
      Fixture.retry_world
    = (Err e, set_desc msg Fixture.retry_world)
    /\ e <> 0
    /\ (load_ready Fixture.vault true ->
        e = EEXIST /\ msg = "Key already loaded for '%s'.").
Proof.
  apply (X21_load_key_preconditions Fixture.hmac_sha1 Fixture.vault false None
           Fixture.retry_world vault_not_load_ready).
Defined.

(** X24.  [zfs_crypto_load_key] sends the storage layer calls of
    [lzc_load_key] for its dataset and flag only, each with a key of 32 bytes:
    at most one when the key material is not entered at a terminal, and at
    most [MAX_KEY_PROMPT_ATTEMPTS + 2] otherwise. *)
Theorem X24_load_key_calls_bounded :
  forall (crypto_mac : list Z -> list Z -> option (list Z))
         (zhp : zfs_handle) (noop : bool) (alt : option string) (w : world),
    exists calls,
      ioctls (snd (zfs_crypto_load_key crypto_mac zhp noop alt w))
      = ioctls w ++ calls
      /\ Forall (load_key_call zhp noop) calls
      /\ (length calls
          <= max_passes (opt_default (zh_keylocation zhp) alt) w)%nat.
Proof.
  intros crypto_mac zhp noop alt w.
  destruct (zfs_crypto_load_key_cases crypto_mac zhp noop alt w)
    as [[_ (e & msg & -> & _)]|[_ ->]].
  - exists []. cbn [snd set_desc ioctls]. rewrite app_nil_r.
    split; [reflexivity|]. split; [constructor|].
    unfold max_passes. destruct (can_retry_of _ _); cbn; lia.
  - destruct (load_key_attempt_calls crypto_mac zhp noop (zh_keyformat zhp)
                (opt_default (zh_keylocation zhp) alt) (load_iters zhp)
                (load_salt zhp) 5 0 false w) as (calls & I & F & B & _).
    exists calls. split; [exact I|]. split; [exact F|].
    unfold max_passes. unfold MAX_KEY_PROMPT_ATTEMPTS in *.
    destruct (can_retry_of _ _); cbn in B |- *; lia.
Qed.

(** X25.  [zfs_crypto_load_key] returns 0 only when its preconditions hold and
    the storage layer has accepted a key: its last call of [lzc_load_key] was
    answered 0, and every call before it [EACCES]. *)
Theorem X25_load_key_success_is_acceptance :
  forall (crypto_mac : list Z -> list Z -> option (list Z))
         (zhp : zfs_handle) (noop : bool) (alt : option string) (w : world),
    fst (zfs_crypto_load_key crypto_mac zhp noop alt w) = Ok tt ->
    load_ready zhp noop
    /\ exists earlier last,
         ioctls (snd (zfs_crypto_load_key crypto_mac zhp noop alt w))
         = ioctls w ++ earlier ++ [last]
         /\ load_key_answer w zhp noop 0 last
         /\ Forall (load_key_answer w zhp noop EACCES) earlier.
Proof.
  intros crypto_mac zhp noop alt w.
  destruct (zfs_crypto_load_key_cases crypto_mac zhp noop alt w)
    as [[_ (e & msg & -> & _)]|[R ->]]; [discriminate|].
  intros Hok. split; [exact R|].
  destruct (load_key_attempt_calls crypto_mac zhp noop (zh_keyformat zhp)
              (opt_default (zh_keylocation zhp) alt) (load_iters zhp)
              (load_salt zhp) 5 0 false w) as (calls & I & _ & _ & S).
  destruct (S Hok) as (earlier & last & -> & Hl & He).
  exists earlier, last. auto.
Qed.

Lemma X25_witness :
  load_ready (Fixture.secret "prompt") false
  /\ exists earlier last,
       ioctls (snd (zfs_crypto_load_key Fixture.hmac_sha1
                      (Fixture.secret "prompt") false None
                      Fixture.retry_world))
       = ioctls Fixture.retry_world ++ earlier ++ [last]
       /\ load_key_answer Fixture.retry_world (Fixture.secret "prompt") false
            0 last
       /\ Forall (load_key_answer Fixture.retry_world
                    (Fixture.secret "prompt") false EACCES) earlier.
Proof.
  apply (X25_load_key_success_is_acceptance Fixture.hmac_sha1
           (Fixture.secret "prompt") false None Fixture.retry_world).
  vm_compute. reflexivity.
Defined.

Lemma load_key_pass_raw_terminal crypto_mac zhp noop iters salt w :
  stdin_tty w = true ->
  load_key_pass crypto_mac zhp noop ZFS_KEYFORMAT_RAW "prompt" iters salt
    false w
  = (Err EINVAL, true, true, false,
     set_desc "Cannot enter raw keys on the terminal" w).
Proof.
  intros Htty. unfold load_key_pass, get_key_material, get_key_material_km,
    can_retry_of.
  change (zfs_prop_parse_keylocation "prompt") with ZFS_KEYLOCATION_PROMPT.
  cbv iota. unfold fail_aux, zfs_error_aux. msimpl. rewrite Htty. reflexivity.
Qed.

Lemma load_key_attempt_raw_terminal crypto_mac zhp noop iters salt :
  forall fuel attempts w,
    stdin_tty w = true ->
    MAX_KEY_PROMPT_ATTEMPTS < attempts + Z.of_nat fuel ->
    load_key_attempt crypto_mac fuel zhp noop ZFS_KEYFORMAT_RAW "prompt" iters
      salt attempts false w
    = (Err EINVAL, set_desc "Cannot enter raw keys on the terminal" w).
Proof.
  induction fuel as [|fuel IH]; intros attempts w Htty Hlt.
  - cbn [load_key_attempt]. rewrite load_key_pass_raw_terminal by exact Htty.
    replace (attempts <=? MAX_KEY_PROMPT_ATTEMPTS) with false
      by (symmetry; apply Z.leb_gt; cbn [Z.of_nat] in Hlt; lia).
    reflexivity.
  - rewrite load_key_attempt_step.
    rewrite load_key_pass_raw_terminal by exact Htty.
    cbn [andb]. destruct (attempts <=? MAX_KEY_PROMPT_ATTEMPTS); [|reflexivity].
    rewrite IH by (first [exact Htty | lia]). reflexivity.
Qed.

(** X22.  A raw key cannot be entered at a terminal: with the raw format and
    keylocation [prompt] on a terminal, [zfs_crypto_load_key] returns
    [EINVAL], and nothing but the message has changed: nothing is printed,
    read or sent to the storage layer. *)
Theorem X22_raw_key_on_terminal :
  forall (crypto_mac : list Z -> list Z -> option (list Z))
         (zhp : zfs_handle) (noop : bool) (alt : option string) (w : world),
    load_ready zhp noop ->
    zh_keyformat zhp = ZFS_KEYFORMAT_RAW ->
    opt_default (zh_keylocation zhp) alt = "prompt" ->
    stdin_tty w = true ->
    zfs_crypto_load_key crypto_mac zhp noop alt w
    = (Err EINVAL, set_desc "Cannot enter raw keys on the terminal" w).
Proof.
  intros crypto_mac zhp noop alt w R Hk Hl Htty.
  rewrite zfs_crypto_load_key_ready by exact R.
  rewrite Hk, Hl. apply load_key_attempt_raw_terminal; [exact Htty|].
  unfold MAX_KEY_PROMPT_ATTEMPTS. lia.
Qed.

Lemma raw_prompt_load_ready : load_ready Scenario.raw_prompt false.
Proof.
  unfold load_ready. cbn. repeat split; try discriminate. right. discriminate.
Defined.

Lemma X22_witness :
  zfs_crypto_load_key Fixture.hmac_sha1 Scenario.raw_prompt false None
    (Fixture.world_of true Fixture.right_entry)
  = (Err EINVAL,
     set_desc "Cannot enter raw keys on the terminal"
       (Fixture.world_of true Fixture.right_entry)).
Proof.
  apply (X22_raw_key_on_terminal Fixture.hmac_sha1 Scenario.raw_prompt false None
           (Fixture.world_of true Fixture.right_entry) raw_prompt_load_ready
           eq_refl eq_refl eq_refl).
Defined.

(** ** Hexadecimal keys and passphrases *)





Lemma hex_key_to_raw_loop_total n :
  forall pre s tail out,
    hex_key_to_raw_loop n (pre ++ s ++ 0 :: tail) (Z.of_nat (length pre)) out
    = if (2 * n <=? length s)%nat && forallb isxdigit (firstn (2 * n) s)
      then Ok (out ++ hex_decode (firstn (2 * n) s))
      else Err EINVAL.
Proof.
  induction n as [|n IH]; intros pre s tail out.
  - cbn. now rewrite app_nil_r.
  - replace (2 * S n)%nat with (S (S (2 * n))) by lia.
    cbn [hex_key_to_raw_loop].
    destruct s as [|hi [|lo s]].
    + cbn [app]. rewrite load_byte_app_here. reflexivity.
    + cbn [app]. rewrite load_byte_app_here. cbn [rbind].
      destruct (isxdigit hi); cbn [negb]; [|reflexivity].
      replace (Z.of_nat (length pre) + 1) with (Z.of_nat (length (pre ++ [hi])))
        by (rewrite length_app; cbn [length]; lia).
      replace (pre ++ hi :: 0 :: tail) with ((pre ++ [hi]) ++ 0 :: tail)
        by (now rewrite <- app_assoc).
      rewrite load_byte_app_here. reflexivity.
    + cbn [app]. rewrite load_byte_app_here. cbn [rbind].
      cbn [firstn forallb hex_decode length].
      destruct (isxdigit hi); cbn [negb andb];
        [|now rewrite andb_false_r].
      replace (Z.of_nat (length pre) + 1) with (Z.of_nat (length (pre ++ [hi])))
        by (rewrite length_app; cbn [length]; lia).
      replace (pre ++ hi :: lo :: s ++ 0 :: tail)
        with ((pre ++ [hi]) ++ lo :: s ++ 0 :: tail)
        by (now rewrite <- app_assoc).
      rewrite load_byte_app_here. cbn [rbind].
      destruct (isxdigit lo); cbn [negb andb];
        [|now rewrite andb_false_r].
      replace ((pre ++ [hi]) ++ lo :: s ++ 0 :: tail)
        with ((pre ++ [hi; lo]) ++ s ++ 0 :: tail)
        by (now rewrite <- !app_assoc).
      replace (Z.of_nat (length pre) + 2)
        with (Z.of_nat (length (pre ++ [hi; lo])))
        by (rewrite !length_app; cbn [length]; lia).
      rewrite IH.
      change (S (S (2 * n)) <=? S (S (length s)))%nat
        with (2 * n <=? length s)%nat.
      destruct ((2 * n <=? length s)%nat && _); [|reflexivity].
      now rewrite <- app_assoc.
Qed.

(** X3.  [derive_key] with the hex format on any NUL-terminated buffer: it
    returns the 32 bytes decoded from the first 64 characters when there are
    as many and all of them are hexadecimal digits, and [EINVAL] with the
    message of an invalid hex key otherwise.  It never reads past the
    terminator, and it ignores what follows the 64th character: the length of
    the key material is checked by [get_key_material] alone. *)
Theorem X3_derive_key_hex_any_string :
  forall (crypto_mac : list Z -> list Z -> option (list Z))
         (s tail : list Z) (iters kmlen salt : Z) (w : world),
    derive_key crypto_mac ZFS_KEYFORMAT_HEX iters (s ++ 0 :: tail) kmlen salt w
    = if (64 <=? length s)%nat && forallb isxdigit (firstn 64 s)
      then (Ok (hex_decode (firstn 64 s)), w)
      else (Err EINVAL, set_desc "Invalid hex key provided." w).
Proof.
  intros crypto_mac s tail iters kmlen salt w.
  unfold derive_key.
  cbn [ZFS_KEYFORMAT_HEX ZFS_KEYFORMAT_RAW Z.eqb Pos.eqb].
  unfold hex_key_to_raw.
  change (Z.to_nat ((WRAPPING_KEY_LEN * 2 + 1) / 2)) with 32%nat.
  pose proof (hex_key_to_raw_loop_total 32 [] s tail []) as E.
  cbn [app length Z.of_nat] in E. rewrite E.
  change (2 * 32)%nat with 64%nat.
  destruct ((64 <=? length s)%nat && _); reflexivity.
Qed.

Lemma load_bytes_all a : load_bytes a (Z.of_nat (length a)) = Ok a.
Proof.
  pose proof (load_bytes_app a []) as E. now rewrite app_nil_r in E.
Qed.

(** X12.  [derive_key] takes the passphrase as a C string: two buffers of key
    material with the same bytes before their first NUL give the same outcome,
    whatever follows the NUL and whatever [key_material_len] says. *)
Theorem X12_passphrase_is_a_c_string :
  forall (crypto_mac : list Z -> list Z -> option (list Z))
         (p1 rest1 p2 rest2 : list Z) (kmlen1 kmlen2 iters salt : Z)
         (w : world),
    c_string p1 = c_string p2 ->
    derive_key crypto_mac ZFS_KEYFORMAT_PASSPHRASE iters (p1 ++ 0 :: rest1)
      kmlen1 salt w
    = derive_key crypto_mac ZFS_KEYFORMAT_PASSPHRASE iters (p2 ++ 0 :: rest2)
        kmlen2 salt w.
Proof.
  intros crypto_mac p1 rest1 p2 rest2 kmlen1 kmlen2 iters salt w Hc.
  rewrite !derive_key_passphrase.
  assert (E : forall p rest,
             pbkdf2 crypto_mac (p ++ 0 :: rest) (Z.of_nat (length (c_string p)))
               (LE64 salt) iters 32
             = pbkdf2 crypto_mac (c_string p) (Z.of_nat (length (c_string p)))
                 (LE64 salt) iters 32).
  { intros p rest. unfold pbkdf2.
    destruct (c_string_prefix p rest) as [t ->].
    now rewrite load_bytes_app, load_bytes_all. }
  rewrite (E p1 rest1), (E p2 rest2), Hc. reflexivity.
Qed.

Lemma X12_witness :
  derive_key Fixture.hmac_sha1 ZFS_KEYFORMAT_PASSPHRASE 1
    (Fixture.nul_passphrase ++ 0 :: [0]) 13 7 Fixture.nul_world
  = derive_key Fixture.hmac_sha1 ZFS_KEYFORMAT_PASSPHRASE 1
      (bytes_of_string "abcdefgh" ++ 0 :: []) 8 7 Fixture.nul_world.
Proof.
  apply (X12_passphrase_is_a_c_string Fixture.hmac_sha1 Fixture.nul_passphrase
           [0] (bytes_of_string "abcdefgh") [] 13 8 1 7 Fixture.nul_world
           eq_refl).
Defined.

(** X11.  When the first call of [crypto_mac] fails, [derive_key] with the
    passphrase format returns [EIO] and sets the message that the key could
    not be generated, for any iteration count above 0. *)
Theorem X11_crypto_mac_failure_is_eio :
  forall (crypto_mac : list Z -> list Z -> option (list Z))
         (p rest : list Z) (kmlen iters salt : Z) (w : world),
    crypto_mac (c_string p) (LE64 salt ++ BE32 1) = None ->
    0 < iters ->
    derive_key crypto_mac ZFS_KEYFORMAT_PASSPHRASE iters (p ++ 0 :: rest)
      kmlen salt w
    = (Err EIO, set_desc "Failed to generate key from passphrase." w).
Proof.
  intros crypto_mac p rest kmlen iters salt w Hm Hi.
  rewrite derive_key_passphrase.
  destruct (c_string_prefix p rest) as [t ->].
  unfold pbkdf2. rewrite load_bytes_app. cbn [rbind].
  change (Z.to_nat ((32 + SHA1_DIGEST_LEN - 1) / SHA1_DIGEST_LEN)) with 2%nat.
  cbn [pbkdf2_blocks]. cbv zeta.
  change (zeros (Z.to_nat (if SHA1_DIGEST_LEN <? Z.of_nat (length (LE64 salt))
                           then (Z.of_nat (length (LE64 salt)) + 4) mod 2 ^ 16
                           else SHA1_DIGEST_LEN)))
    with (repeat 0 20).
  change (memmove (repeat 0 20) 0 (LE64 salt))
    with (Ok (LE64 salt ++ repeat 0 12)).
  cbn [rbind].
  change (memmove (LE64 salt ++ repeat 0 12) (Z.of_nat (length (LE64 salt)))
            (BE32 (1 + 0 / SHA1_DIGEST_LEN)))
    with (Ok (LE64 salt ++ BE32 1 ++ repeat 0 8)).
  cbn [rbind].
  destruct (Z.to_nat iters) as [|n] eqn:En; [lia|].
  cbn [pbkdf2_rounds]. cbv zeta.
  change (load_bytes (LE64 salt ++ BE32 1 ++ repeat 0 8)
            (if 0 <? 0 then SHA1_DIGEST_LEN
             else Z.of_nat (length (LE64 salt)) + 4))
    with (Ok (LE64 salt ++ BE32 1)).
  cbn [rbind]. rewrite Hm. reflexivity.
Qed.

Lemma X11_witness :
  derive_key (fun _ _ => None) ZFS_KEYFORMAT_PASSPHRASE 1000
    (bytes_of_string "password" ++ 0 :: []) 8 7 Fixture.nul_world
  = (Err EIO,
     set_desc "Failed to generate key from passphrase." Fixture.nul_world).
Proof.
  apply (X11_crypto_mac_failure_is_eio (fun _ _ => None)
           (bytes_of_string "password") [] 8 1000 7 Fixture.nul_world
           eq_refl eq_refl).
Defined.

(** X13.  Whenever [derive_key] succeeds, for any format, key material, salt
    and iteration count, the wrapping key is [WRAPPING_KEY_LEN] (32) bytes
    long, and nothing else has changed. *)
Theorem X13_wrapping_key_is_32_bytes :
  forall (crypto_mac : list Z -> list Z -> option (list Z))
         (format iters : Z) (km : list Z) (kmlen salt : Z) (w w' : world)
         (key : list Z),
    derive_key crypto_mac format iters km kmlen salt w = (Ok key, w') ->
    Z.of_nat (length key) = WRAPPING_KEY_LEN /\ w' = w.
Proof.
  intros crypto_mac format iters km kmlen salt w w' key H.
  apply derive_key_length in H as [H ->]. rewrite H. now split.
Qed.

Lemma X13_witness :
  Z.of_nat (length Fixture.right_key) = WRAPPING_KEY_LEN
  /\ Fixture.raw_world = Fixture.raw_world.
Proof.
  apply (X13_wrapping_key_is_32_bytes Fixture.hmac_sha1 ZFS_KEYFORMAT_RAW 0
           (Fixture.right_key ++ [0]) 32 0 Fixture.raw_world Fixture.raw_world
           Fixture.right_key eq_refl).
Defined.

(** ** Key locations *)

(** X1.  [zfs_prop_parse_keylocation] answers [ZFS_KEYLOCATION_PROMPT] for the
    string [prompt] and for no other, and [ZFS_KEYLOCATION_URI] exactly for
    the strings that continue [file:///] by at least one character ([file:///]
    alone is refused).  The file [get_key_material] then opens,
    [&keylocation[7]], is the path that begins at the third slash. *)
Theorem X1_parse_keylocation :
  forall str : string,
    (zfs_prop_parse_keylocation str = ZFS_KEYLOCATION_PROMPT <-> str = "prompt")
    /\ (zfs_prop_parse_keylocation str = ZFS_KEYLOCATION_URI <->
        exists c rest, str = String.append "file:///" (String.String c rest))
    /\ (forall c rest,
          uri_path (String.append "file:///" (String.String c rest))
          = String.append "/" (String.String c rest)).
Proof.
  intros str. split; [|split].
  - unfold zfs_prop_parse_keylocation.
    destruct (String.eqb_spec "prompt" str) as [<-|Hne].
    + now split.
    + split; [|intros ->; now contradiction Hne].
      destruct (_ && _); discriminate.
  - unfold zfs_prop_parse_keylocation.
    destruct (String.eqb_spec "prompt" str) as [<-|Hne].
    + split; [discriminate|]. intros (c & rest & H). discriminate H.
    + split.
      * destruct ((8 <? String.length str)%nat
                  && String.prefix "file:///" str) eqn:E; [|discriminate].
        intros _. apply andb_prop in E as [El Ep]. apply Nat.ltb_lt in El.
        do 8 (destruct str as [|? str]; [discriminate Ep|];
              cbn [String.prefix] in Ep;
              match type of Ep with
              | (if Ascii.ascii_dec ?a ?b then _ else _) = true =>
                  destruct (Ascii.ascii_dec a b) as [<-|]; [|discriminate Ep]
              end).
        destruct str as [|c rest]; [cbn in El; lia|].
        exists c, rest. reflexivity.
      * intros (c & rest & ->). reflexivity.
  - intros c rest. unfold uri_path. cbn [String.append String.length Nat.sub].
    cbn [String.substring]. f_equal. f_equal.
    clear. induction rest as [|a rest IH]; [reflexivity|].
    cbn [String.length String.substring]. now rewrite IH.
Qed.

(** ** New keys *)

Lemma bind_ok {S A B} (c : ST S A) (k : A -> ST S B) s b s' :
  bind c k s = (Ok b, s') ->
  exists a s1, c s = (Ok a, s1) /\ k a s1 = (Ok b, s').
Proof.
  unfold bind. destruct (c s) as [[a|e|] s1]; try discriminate.
  intros H. now exists a, s1.
Qed.

Lemma liftW_ok {A} (c : M A) w p a w' p' :
  liftW c (w, p) = (Ok a, (w', p')) -> c w = (Ok a, w') /\ p' = p.
Proof.
  unfold liftW. cbn [fst snd]. destruct (c w) as [r w1].
  intros [= -> -> ->]. now split.
Qed.

Lemma nvlist_lookup_uint64_add_same l name v :
  nvlist_lookup_uint64 (nvlist_add l name (NvUint64 v)) name = Some v.
Proof. unfold nvlist_lookup_uint64. now rewrite nvlist_lookup_add_same. Qed.

Lemma nvlist_lookup_uint64_add_other l name v name' :
  name <> name' ->
  nvlist_lookup_uint64 (nvlist_add l name v) name' = nvlist_lookup_uint64 l name'.
Proof.
  intros H. unfold nvlist_lookup_uint64. now rewrite nvlist_lookup_add_other.
Qed.

Lemma derive_key_any_world crypto_mac format iters km kmlen salt w key w' :
  derive_key crypto_mac format iters km kmlen salt w = (Ok key, w') ->
  forall w0, derive_key crypto_mac format iters km kmlen salt w0 = (Ok key, w0).
Proof.
  unfold derive_key.
  destruct (format =? ZFS_KEYFORMAT_RAW).
  { unfold lift. intros [= H _] w0. now rewrite H. }
  destruct (format =? ZFS_KEYFORMAT_HEX).
  { destruct (hex_key_to_raw km _) as [k|e|]; try discriminate.
    now intros [= <- _] w0. }
  destruct (format =? ZFS_KEYFORMAT_PASSPHRASE); [|discriminate].
  destruct (rbind _ _) as [k|e|]; try discriminate.
  now intros [= <- _] w0.
Qed.

Section Populate.
Variable crypto_mac : list Z -> list Z -> option (list Z).

(** A [populate_create_encryption_params_nvlists] that succeeds: the steps
    it went through. *)
Lemma populate_ok fsname newkey keyformat kl w props wkey w' props' :
  populate_create_encryption_params_nvlists crypto_mac fsname newkey keyformat
    kl (w, props) = (Ok wkey, (w', props')) ->
  exists km kmlen w1 iters salt,
    get_key_material_km true newkey keyformat kl fsname w = (Ok (km, kmlen), w1)
    /\ derive_key crypto_mac keyformat iters km kmlen salt w' = (Ok wkey, w')
    /\ length wkey = 32%nat
    /\ nvlist_lookup props' PROP_KEYLOCATION
       = nvlist_lookup props PROP_KEYLOCATION
    /\ if keyformat =? ZFS_KEYFORMAT_PASSPHRASE then
         (exists v r, rand64 w1 = v :: r /\ salt = v mod 2 ^ 64
                      /\ w' = set_rand64 r w1)
         /\ iters = opt_default (default_pbkdf2_iters w)
                      (nvlist_lookup_uint64 props PROP_PBKDF2_ITERS)
         /\ nvlist_lookup_uint64 props' PROP_PBKDF2_SALT = Some salt
         /\ nvlist_lookup_uint64 props' PROP_PBKDF2_ITERS = Some iters
         /\ (forall name,
               name <> PROP_PBKDF2_SALT -> name <> PROP_PBKDF2_ITERS ->
               nvlist_lookup props' name = nvlist_lookup props name)
       else
         nvlist_lookup_uint64 props PROP_PBKDF2_ITERS = None
         /\ props' = props /\ w' = w1.
Proof.
  intros H.
  pose proof (populate_keeps_keylocation crypto_mac fsname newkey keyformat kl
                (w, props)) as Hkl.
  rewrite H in Hkl. cbn [snd] in Hkl.
  unfold populate_create_encryption_params_nvlists in H.
  apply bind_ok in H as ([km kmlen] & [w1 p1] & H1 & H).
  apply liftW_ok in H1 as [H1 ->].
  apply bind_ok in H as ([iters salt] & [w2 p2] & H2 & H).
  apply liftW_ok in H as [H ->].
  pose proof (derive_key_length crypto_mac _ _ _ _ _ _ _ _ H) as [Hlen ->].
  exists km, kmlen, w1, iters, salt.
  split; [exact H1|]. split; [exact H|]. split; [exact Hlen|].
  split; [exact Hkl|].
  destruct (keyformat =? ZFS_KEYFORMAT_PASSPHRASE).
  - apply bind_ok in H2 as (salt0 & [w3 p3] & H3 & H2).
    assert (Hr : exists v r, rand64 w1 = v :: r /\ salt0 = v mod 2 ^ 64
                             /\ w3 = set_rand64 r w1 /\ p3 = props).
    { revert H3. unfold on_error, random_get_bytes, liftW, zfs_error_aux.
      msimpl. destruct (rand64 w1) as [|v r]; [discriminate|].
      intros [= <- <- <-]. now exists v, r. }
    destruct Hr as (v & r & Hv & -> & -> & ->).
    apply bind_ok in H2 as ([] & [w4 p4] & H4 & H2).
    injection H4 as <- <-. cbn [fst snd] in H2.
    apply bind_ok in H2 as (p5 & [w5 p6] & H5 & H2).
    injection H5 as <- <- <-.
    rewrite nvlist_lookup_uint64_add_other in H2 by discriminate.
    pose proof (frame_get_key_material_km default_pbkdf2_iters true newkey
                  keyformat kl fsname ltac:(repeat split) w) as Hd.
    rewrite H1 in Hd. cbn [snd] in Hd.
    destruct (nvlist_lookup_uint64 props PROP_PBKDF2_ITERS) as [i|] eqn:Ei.
    + injection H2 as <- <- <- <-. cbn [opt_default].
      split; [now exists v, r|]. split; [reflexivity|].
      split; [apply nvlist_lookup_uint64_add_same|].
      split; [now rewrite nvlist_lookup_uint64_add_other by discriminate|].
      intros name N1 N2. apply nvlist_lookup_add_other. congruence.
    + revert H2. unfold liftW, set_props. msimpl.
      intros [= <- <- <- <-]. cbn [opt_default set_rand64 default_pbkdf2_iters].
      split; [now exists v, r|]. split; [now rewrite Hd|].
      split; [rewrite nvlist_lookup_uint64_add_other by discriminate;
              apply nvlist_lookup_uint64_add_same|].
      split; [apply nvlist_lookup_uint64_add_same|].
      intros name N1 N2.
      rewrite !nvlist_lookup_add_other by congruence. reflexivity.
  - apply bind_ok in H2 as (p5 & [w5 p6] & H5 & H2).
    injection H5 as <- <- <-.
    destruct (nvlist_lookup_uint64 props PROP_PBKDF2_ITERS) as [i|].
    + revert H2. unfold liftW, fail_aux, zfs_error_aux. msimpl. discriminate.
    + injection H2 as _ _ <- <-. auto.
Qed.

End Populate.

(** X14.  A new passphrase key can be derived again.  When
    [populate_create_encryption_params_nvlists] succeeds for the passphrase
    format, the property list holds the salt (a 64-bit value) and the
    iteration count (the one given, or the default) with which the wrapping
    key was derived:  [derive_key] on the same key material with these two
    values returns the same key. *)
Theorem X14_new_passphrase_key_is_rederivable :
  forall (crypto_mac : list Z -> list Z -> option (list Z))
         (fsname : option string) (newkey : bool) (kl : string)
         (w w' : world) (props props' : nvlist) (wkey : list Z),
    populate_create_encryption_params_nvlists crypto_mac fsname newkey
      ZFS_KEYFORMAT_PASSPHRASE kl (w, props) = (Ok wkey, (w', props')) ->
    exists km kmlen salt iters,
      fst (get_key_material_km true newkey ZFS_KEYFORMAT_PASSPHRASE kl fsname w)
      = Ok (km, kmlen)
      /\ nvlist_lookup_uint64 props' PROP_PBKDF2_SALT = Some salt
      /\ nvlist_lookup_uint64 props' PROP_PBKDF2_ITERS = Some iters
      /\ iters = opt_default (default_pbkdf2_iters w)
                   (nvlist_lookup_uint64 props PROP_PBKDF2_ITERS)
      /\ 0 <= salt < 2 ^ 64
      /\ forall w0,
           derive_key crypto_mac ZFS_KEYFORMAT_PASSPHRASE iters km kmlen salt w0
           = (Ok wkey, w0).
Proof.
  intros crypto_mac fsname newkey kl w w' props props' wkey H.
  apply populate_ok in H
    as (km & kmlen & w1 & iters & salt & H1 & Hd & _ & _ & H2).
  cbn [ZFS_KEYFORMAT_PASSPHRASE Z.eqb Pos.eqb] in H2.
  destruct H2 as ((v & r & _ & Hs & _) & Hi & Ls & Li & _).
  exists km, kmlen, salt, iters. rewrite H1.
  split; [reflexivity|]. split; [exact Ls|]. split; [exact Li|].
  split; [exact Hi|]. split; [subst salt; apply Z.mod_pos_bound; lia|].
  now apply (derive_key_any_world crypto_mac _ _ _ _ _ w' wkey w').
Qed.

Lemma X14_witness :
  exists km kmlen salt iters,
    fst (get_key_material_km true false ZFS_KEYFORMAT_PASSPHRASE "file:///pass"
           None Scenario.passphrase_world)
    = Ok (km, kmlen)
    /\ nvlist_lookup_uint64
         (nvlist_add Scenario.one_iteration PROP_PBKDF2_SALT (NvUint64 7))
         PROP_PBKDF2_SALT = Some salt
    /\ nvlist_lookup_uint64
         (nvlist_add Scenario.one_iteration PROP_PBKDF2_SALT (NvUint64 7))
         PROP_PBKDF2_ITERS = Some iters
    /\ iters = opt_default (default_pbkdf2_iters Scenario.passphrase_world)
                 (nvlist_lookup_uint64 Scenario.one_iteration PROP_PBKDF2_ITERS)
    /\ 0 <= salt < 2 ^ 64
    /\ forall w0,
         derive_key Fixture.hmac_sha1 ZFS_KEYFORMAT_PASSPHRASE iters km kmlen
           salt w0
         = (Ok (PBKDF2_HMAC_SHA1 Scenario.passphrase (LE64 7) 1 32), w0).
Proof.
  apply (X14_new_passphrase_key_is_rederivable Fixture.hmac_sha1 None false
           "file:///pass" Scenario.passphrase_world
           (set_rand64 [] Scenario.passphrase_world) Scenario.one_iteration
           (nvlist_add Scenario.one_iteration PROP_PBKDF2_SALT (NvUint64 7))
           (PBKDF2_HMAC_SHA1 Scenario.passphrase (LE64 7) 1 32)).
  vm_compute. reflexivity.
Defined.

(** X15.  With [pbkdf2iters] in the property list and a key format other than
    passphrase, [populate_create_encryption_params_nvlists] never succeeds and
    leaves the property list alone; the refusal, [EINVAL], comes once the key
    material has been collected. *)
Theorem X15_pbkdf2iters_needs_passphrase :
  forall (crypto_mac : list Z -> list Z -> option (list Z))
         (fsname : option string) (newkey : bool) (keyformat : Z)
         (kl : string) (w : world) (props : nvlist) (i : Z),
    keyformat <> ZFS_KEYFORMAT_PASSPHRASE ->
    nvlist_lookup_uint64 props PROP_PBKDF2_ITERS = Some i ->
    let acquire := get_key_material_km true newkey keyformat kl fsname w in
    let r := populate_create_encryption_params_nvlists crypto_mac fsname
               newkey keyformat kl (w, props) in
    (forall wkey, fst r <> Ok wkey)
    /\ snd (snd r) = props
    /\ (forall km kmlen w1,
          acquire = (Ok (km, kmlen), w1) ->
          r = (Err EINVAL,
               (set_desc
                  "Cannot specify pbkdf2iters with a non-passphrase keyformat."
                  w1, props))).
Proof.
  intros crypto_mac fsname newkey keyformat kl w props i Hk Hi acquire r.
  assert (E : r = match acquire with
                  | (Ok _, w1) =>
                      (Err EINVAL,
                       (set_desc
                          "Cannot specify pbkdf2iters with a non-passphrase keyformat."
                          w1, props))
                  | (Err e, w1) => (Err e, (w1, props))
                  | (Undef, w1) => (Undef, (w1, props))
                  end).
  { subst r acquire. unfold populate_create_encryption_params_nvlists.
    unfold bind at 1. unfold liftW at 1. cbn [fst snd].
    destruct (get_key_material_km true newkey keyformat kl fsname w)
      as [[[km kmlen]|e|] w1]; try reflexivity.
    apply Z.eqb_neq in Hk. rewrite Hk.
    unfold get_props, liftW, fail_aux, zfs_error_aux. msimpl.
    now rewrite Hi. }
  rewrite E. clear E r.
  split; [|split].
  - intros wkey. destruct acquire as [[[]|e|] w1]; discriminate.
  - destruct acquire as [[[]|e|] w1]; reflexivity.
  - intros km kmlen w1 ->. reflexivity.
Qed.

Lemma X15_witness :
  (forall wkey,
     fst (populate_create_encryption_params_nvlists Fixture.hmac_sha1 None
            false ZFS_KEYFORMAT_HEX "file:///right"
            (Fixture.world_of false [], Scenario.one_iteration))
     <> Ok wkey)
  /\ snd (snd (populate_create_encryption_params_nvlists Fixture.hmac_sha1
                 None false ZFS_KEYFORMAT_HEX "file:///right"
                 (Fixture.world_of false [], Scenario.one_iteration)))
     = Scenario.one_iteration
  /\ (forall km kmlen w1,
        get_key_material_km true false ZFS_KEYFORMAT_HEX "file:///right" None
          (Fixture.world_of false []) = (Ok (km, kmlen), w1) ->
        populate_create_encryption_params_nvlists Fixture.hmac_sha1 None false
          ZFS_KEYFORMAT_HEX "file:///right"
          (Fixture.world_of false [], Scenario.one_iteration)
        = (Err EINVAL,
           (set_desc
              "Cannot specify pbkdf2iters with a non-passphrase keyformat."
              w1, Scenario.one_iteration))).
Proof.
  apply (X15_pbkdf2iters_needs_passphrase Fixture.hmac_sha1 None false
           ZFS_KEYFORMAT_HEX "file:///right" (Fixture.world_of false [])
           Scenario.one_iteration 1 ltac:(discriminate) eq_refl).
Defined.

(** ** Create and clone, case by case *)

Section Create.
Variable crypto_mac : list Z -> list Z -> option (list Z).

(** [zfs_crypto_create] after the lookup of the parent, with the feature
    enabled. *)
Lemma zfs_crypto_create_enabled w props parent_name pool_props pcrypt :
  create_parent w pool_props parent_name pcrypt ->
  zfs_crypto_create crypto_mac parent_name pool_props (w, props)
  = let crypt :=
      opt_default ZIO_CRYPT_INHERIT (nvlist_lookup_uint64 props PROP_ENCRYPTION)
    in
    let keyformat := create_keyformat props in
    let keylocation := nvlist_lookup_string props PROP_KEYLOCATION in
    if (crypt =? ZIO_CRYPT_OFF) && negb (pcrypt =? ZIO_CRYPT_OFF) then
      (Err EINVAL,
       (set_desc "Invalid encryption value. Dataset must be encrypted." w,
        props))
    else if effective_crypt props pcrypt =? ZIO_CRYPT_OFF then
      if proplist_has_encryption_props props then
        (Err EINVAL,
         (set_desc "Encryption must be turned on to set encryption properties."
            w, props))
      else (Ok (None, 0), (w, props))
    else if (pcrypt =? ZIO_CRYPT_OFF) && negb (is_some keylocation)
            && (keyformat =? ZFS_KEYFORMAT_NONE)
         || is_some keylocation && (keyformat =? ZFS_KEYFORMAT_NONE) then
      (Err EINVAL,
       (set_desc "Keyformat required for new encryption root." w, props))
    else
      match keylocation with
      | Some kl =>
          (wkey <- populate_create_encryption_params_nvlists crypto_mac None
                     false keyformat kl ;;
           ret (Some wkey, WRAPPING_KEY_LEN)) (w, props)
      | None =>
          if keyformat =? ZFS_KEYFORMAT_NONE then (Ok (None, 0), (w, props))
          else
            (wkey <- populate_create_encryption_params_nvlists crypto_mac None
                       false keyformat "prompt" ;;
             ret (Some wkey, WRAPPING_KEY_LEN))
              (w, nvlist_add props PROP_KEYLOCATION (NvString "prompt"))
      end.
Proof.
  intros Hparent. cbv zeta.
  destruct (Z.eqb_spec (effective_crypt props pcrypt) ZIO_CRYPT_OFF) as [He|He].
  - unfold zfs_crypto_create. unfold bind at 1. unfold get_props, get at 1.
    cbn [snd].
    assert (Hgate :
      forall k : Z * option (MP (option (list Z) * Z))
                 -> MP (option (list Z) * Z),
        bind match parent_name with
             | Some pname =>
                 mk <- liftW (get make_dataset_handle) ;;
                 match mk pname with
                 | None => liftW (fail_aux ENOENT "Failed to lookup parent.")
                 | Some pzhp =>
                     ret (zh_encryption pzhp,
                          create_feature_gate (zh_feature_enabled pzhp) props)
                 end
             | None =>
                 ret (ZIO_CRYPT_OFF,
                      create_feature_gate
                        (nvlist_exists pool_props "feature@encryption") props)
             end k (w, props)
        = k (pcrypt, None) (w, props)).
    { intros k. destruct Hparent as [pname pzhp Hmk Hfe | Hfe].
      - unfold bind, liftW, get, ret. cbn [fst snd]. rewrite Hmk, Hfe.
        reflexivity.
      - unfold bind, ret. rewrite Hfe. reflexivity. }
    rewrite Hgate. cbv beta iota.
    unfold effective_crypt in He.
    destruct (nvlist_lookup_uint64 props PROP_ENCRYPTION) as [crypt|];
      cbn [is_some opt_default].
    + subst crypt. rewrite Z.eqb_refl. cbn [andb].
      destruct (pcrypt =? ZIO_CRYPT_OFF); cbn [negb]; [|reflexivity].
      destruct (proplist_has_encryption_props props); reflexivity.
    + subst pcrypt. rewrite Z.eqb_refl.
      change (ZIO_CRYPT_INHERIT =? ZIO_CRYPT_OFF) with false. cbn [andb].
      destruct (proplist_has_encryption_props props); reflexivity.
  - rewrite (zfs_crypto_create_decision crypto_mac w props parent_name
               pool_props pcrypt Hparent He).
    cbv zeta.
    replace ((opt_default ZIO_CRYPT_INHERIT
                (nvlist_lookup_uint64 props PROP_ENCRYPTION) =? ZIO_CRYPT_OFF)
             && negb (pcrypt =? ZIO_CRYPT_OFF)) with false.
    2:{ unfold effective_crypt in He.
        destruct (nvlist_lookup_uint64 props PROP_ENCRYPTION) as [crypt|];
          cbn [opt_default]; [|reflexivity].
        apply Z.eqb_neq in He. now rewrite He. }
    destruct ((pcrypt =? ZIO_CRYPT_OFF)
              && negb (is_some (nvlist_lookup_string props PROP_KEYLOCATION))
              && (create_keyformat props =? ZFS_KEYFORMAT_NONE)); [reflexivity|].
    cbn [orb].
    destruct (nvlist_lookup_string props PROP_KEYLOCATION) as [kl|];
      cbn [is_some andb negb].
    + destruct (create_keyformat props =? ZFS_KEYFORMAT_NONE); [reflexivity|].
      rewrite andb_false_r. reflexivity.
    + rewrite andb_true_r.
      destruct (create_keyformat props =? ZFS_KEYFORMAT_NONE); reflexivity.
Qed.

Lemma zfs_crypto_create_disabled w props parent_name pool_props :
  create_feature_off w pool_props parent_name ->
  zfs_crypto_create crypto_mac parent_name pool_props (w, props)
  = if proplist_has_encryption_props props
    then (Err EINVAL, (set_desc "Encryption feature not enabled." w, props))
    else (Ok (None, 0), (w, props)).
Proof.
  intros Hoff. unfold zfs_crypto_create. unfold bind at 1.
  unfold get_props, get at 1. cbn [snd].
  destruct Hoff as [pname pzhp Hmk Hfe | Hfe].
  - unfold bind, liftW, get, ret. cbn [fst snd]. rewrite Hmk, Hfe.
    unfold create_feature_gate.
    destruct (proplist_has_encryption_props props); reflexivity.
  - unfold bind, ret. rewrite Hfe. unfold create_feature_gate.
    destruct (proplist_has_encryption_props props); reflexivity.
Qed.

End Create.

Section Create_outcome.
Variable crypto_mac : list Z -> list Z -> option (list Z).

Lemma zfs_crypto_create_parent_cases w props parent_name pool_props :
  zfs_crypto_create crypto_mac parent_name pool_props (w, props)
  = (Err ENOENT, (set_desc "Failed to lookup parent." w, props))
  \/ create_feature_off w pool_props parent_name
  \/ exists pcrypt, create_parent w pool_props parent_name pcrypt.
Proof.
  destruct parent_name as [pname|].
  - destruct (make_dataset_handle w pname) as [pzhp|] eqn:Hmk.
    + destruct (zh_feature_enabled pzhp) eqn:Hfe.
      * right. right. exists (zh_encryption pzhp). now constructor.
      * right. left. now apply (FeatureOffUnderParent w pool_props pname pzhp).
    + left. unfold zfs_crypto_create. unfold bind at 1.
      unfold get_props, get at 1. cbn [snd].
      unfold bind, liftW, get, fail_aux, zfs_error_aux, modify, fail.
      cbn [fst snd]. rewrite Hmk. reflexivity.
  - destruct (nvlist_exists pool_props "feature@encryption") eqn:Hfe.
    + right. right. exists ZIO_CRYPT_OFF. now constructor.
    + right. left. now constructor.
Qed.

(** The new key that ends [zfs_crypto_create] and [zfs_crypto_clone]. *)
Lemma new_key_outcome keyformat kl w props okey len w' props' :
  (wkey <- populate_create_encryption_params_nvlists crypto_mac None false
             keyformat kl ;;
   ret (Some wkey, WRAPPING_KEY_LEN)) (w, props)
  = (Ok (okey, len), (w', props')) ->
  exists wkey,
    okey = Some wkey /\ len = WRAPPING_KEY_LEN
    /\ Z.of_nat (length wkey) = WRAPPING_KEY_LEN
    /\ nvlist_lookup props' PROP_KEYLOCATION
       = nvlist_lookup props PROP_KEYLOCATION.
Proof.
  intros H. apply bind_ok in H as (wkey & [w1 p1] & H1 & H).
  injection H as <- <- <- <-.
  apply populate_ok in H1 as (_ & _ & _ & _ & _ & _ & _ & Hl & Hk & _).
  exists wkey. rewrite Hl. auto.
Qed.

End Create_outcome.

(** X16.  [zfs_crypto_create] without the encryption feature (on the parent's
    pool, or among the properties of the pool being created): encryption
    properties are refused with [EINVAL], and a property list without them is
    accepted with no key and no change.  A property list has encryption
    properties unless [encryption] is absent or off, [keylocation] absent or
    [none], and [keyformat] and [pbkdf2iters] absent. *)
Theorem X16_create_without_feature :
  forall (crypto_mac : list Z -> list Z -> option (list Z))
         (w : world) (props pool_props : nvlist) (parent_name : option string),
    create_feature_off w pool_props parent_name ->
    zfs_crypto_create crypto_mac parent_name pool_props (w, props)
    = (if proplist_has_encryption_props props
       then (Err EINVAL, (set_desc "Encryption feature not enabled." w, props))
       else (Ok (None, 0), (w, props)))
    /\ (proplist_has_encryption_props props = false <->
        (forall v, nvlist_lookup_uint64 props PROP_ENCRYPTION = Some v ->
                   v = ZIO_CRYPT_OFF)
        /\ (forall s, nvlist_lookup_string props PROP_KEYLOCATION = Some s ->
                      s = "none")
        /\ nvlist_lookup_uint64 props PROP_KEYFORMAT = None
        /\ nvlist_lookup_uint64 props PROP_PBKDF2_ITERS = None).
Proof.
  intros crypto_mac w props pool_props parent_name Hoff.
  split; [now apply zfs_crypto_create_disabled|].
  unfold proplist_has_encryption_props. rewrite !orb_false_iff. split.
  - intros [[[HA HB] HC] HD]. repeat split.
    + intros v Hv. rewrite Hv in HA.
      now apply negb_false_iff, Z.eqb_eq in HA.
    + intros s Hs. rewrite Hs in HB.
      now apply negb_false_iff, String.eqb_eq in HB.
    + destruct (nvlist_lookup_uint64 props PROP_KEYFORMAT);
        [discriminate|reflexivity].
    + destruct (nvlist_lookup_uint64 props PROP_PBKDF2_ITERS);
        [discriminate|reflexivity].
  - intros (HA & HB & HC & HD). rewrite HC, HD. repeat split.
    + destruct (nvlist_lookup_uint64 props PROP_ENCRYPTION) as [v|];
        [|reflexivity].
      now rewrite (HA v eq_refl).
    + destruct (nvlist_lookup_string props PROP_KEYLOCATION) as [s|];
        [|reflexivity].
      now rewrite (HB s eq_refl).
Qed.

Lemma sealed_pool_feature_off :
  create_feature_off (Fixture.world_of false []) [] None.
Proof. constructor. reflexivity. Defined.

Lemma X16_witness :
  zfs_crypto_create Fixture.hmac_sha1 None []
    (Fixture.world_of false [], Scenario.hex_root)
  = (Err EINVAL,
     (set_desc "Encryption feature not enabled." (Fixture.world_of false []),
      Scenario.hex_root)).
Proof.
  apply (proj1 (X16_create_without_feature Fixture.hmac_sha1
                  (Fixture.world_of false []) Scenario.hex_root [] None
                  sealed_pool_feature_off)).
Defined.

(** X17.  [zfs_crypto_create] with the feature enabled, where no key is
    collected:  [encryption=off] below an encrypted parent is refused with
    [EINVAL]; a dataset that is not to be encrypted is accepted without a key
    unless the property list has encryption properties ([EINVAL]); and below
    an encrypted parent a dataset with neither [keyformat] nor [keylocation]
    is accepted without a key (it inherits the parent's), nothing being read
    or changed. *)
Theorem X17_create_without_new_key :
  forall (crypto_mac : list Z -> list Z -> option (list Z))
         (w : world) (props pool_props : nvlist)
         (parent_name : option string) (pcrypt : Z),
    create_parent w pool_props parent_name pcrypt ->
    let r := zfs_crypto_create crypto_mac parent_name pool_props (w, props) in
    (nvlist_lookup_uint64 props PROP_ENCRYPTION = Some ZIO_CRYPT_OFF ->
     pcrypt <> ZIO_CRYPT_OFF ->
     r = (Err EINVAL,
          (set_desc "Invalid encryption value. Dataset must be encrypted." w,
           props)))
    /\ (effective_crypt props pcrypt = ZIO_CRYPT_OFF ->
        pcrypt = ZIO_CRYPT_OFF ->
        r = if proplist_has_encryption_props props
            then (Err EINVAL,
                  (set_desc
                     "Encryption must be turned on to set encryption properties."
                     w, props))
            else (Ok (None, 0), (w, props)))
    /\ (effective_crypt props pcrypt <> ZIO_CRYPT_OFF ->
        pcrypt <> ZIO_CRYPT_OFF ->
        create_keyformat props = ZFS_KEYFORMAT_NONE ->
        nvlist_lookup_string props PROP_KEYLOCATION = None ->
        r = (Ok (None, 0), (w, props))).
Proof.
  intros crypto_mac w props pool_props parent_name pcrypt Hparent r.
  subst r. rewrite (zfs_crypto_create_enabled crypto_mac w props parent_name
                      pool_props pcrypt Hparent).
  cbv zeta. split; [|split].
  - intros Hc Hp. rewrite Hc. cbn [opt_default]. rewrite Z.eqb_refl.
    apply Z.eqb_neq in Hp. now rewrite Hp.
  - intros He ->. rewrite Z.eqb_refl, andb_false_r. now rewrite He.
  - intros He Hp Hk Hl.
    replace ((opt_default ZIO_CRYPT_INHERIT
                (nvlist_lookup_uint64 props PROP_ENCRYPTION) =? ZIO_CRYPT_OFF)
             && negb (pcrypt =? ZIO_CRYPT_OFF)) with false.
    2:{ unfold effective_crypt in He.
        destruct (nvlist_lookup_uint64 props PROP_ENCRYPTION) as [crypt|];
          cbn [opt_default]; [|reflexivity].
        apply Z.eqb_neq in He. now rewrite He. }
    apply Z.eqb_neq in He, Hp. rewrite He, Hp, Hl, Hk. reflexivity.
Qed.

Lemma vault_create_parent :
  create_parent (Fixture.world_of false []) [] (Some "pool/vault") ZIO_CRYPT_ON.
Proof.
  apply (CreateUnderParent (Fixture.world_of false []) [] "pool/vault"
           Fixture.vault); reflexivity.
Defined.

Lemma X17_witness :
  zfs_crypto_create Fixture.hmac_sha1 (Some "pool/vault") []
    (Fixture.world_of false [], [])
  = (Ok (None, 0), (Fixture.world_of false [], [])).
Proof.
  apply (proj2 (proj2 (X17_create_without_new_key Fixture.hmac_sha1
                         (Fixture.world_of false []) [] [] (Some "pool/vault")
                         ZIO_CRYPT_ON vault_create_parent))
           ltac:(discriminate) ltac:(discriminate) eq_refl eq_refl).
Defined.

(** X18.  What a successful [zfs_crypto_create] returns.  Without a key:
    length 0, and neither the world nor the property list has changed.  With a
    key: it is [WRAPPING_KEY_LEN] (32) bytes long, a [keyformat] other than
    none was given, and the property list holds the keylocation given, or
    [prompt] when none was given. *)
Theorem X18_create_outcome :
  forall (crypto_mac : list Z -> list Z -> option (list Z))
         (w w' : world) (props props' pool_props : nvlist)
         (parent_name : option string) (okey : option (list Z)) (len : Z),
    zfs_crypto_create crypto_mac parent_name pool_props (w, props)
    = (Ok (okey, len), (w', props')) ->
    match okey with
    | None => len = 0 /\ w' = w /\ props' = props
    | Some wkey =>
        len = WRAPPING_KEY_LEN
        /\ Z.of_nat (length wkey) = WRAPPING_KEY_LEN
        /\ create_keyformat props <> ZFS_KEYFORMAT_NONE
        /\ nvlist_lookup_string props' PROP_KEYLOCATION
           = Some (opt_default "prompt"
                     (nvlist_lookup_string props PROP_KEYLOCATION))
    end.
Proof.
  intros crypto_mac w w' props props' pool_props parent_name okey len H.
  destruct (zfs_crypto_create_parent_cases crypto_mac w props parent_name
              pool_props) as [E|[Hoff|[pcrypt Hparent]]].
  - rewrite E in H. discriminate.
  - rewrite (zfs_crypto_create_disabled crypto_mac w props parent_name
               pool_props Hoff) in H.
    destruct (proplist_has_encryption_props props); [discriminate|].
    injection H as <- <- <- <-. auto.
  - rewrite (zfs_crypto_create_enabled crypto_mac w props parent_name
               pool_props pcrypt Hparent) in H.
    cbv zeta in H.
    destruct (_ && negb (pcrypt =? ZIO_CRYPT_OFF)); [discriminate|].
    destruct (effective_crypt props pcrypt =? ZIO_CRYPT_OFF).
    { destruct (proplist_has_encryption_props props); [discriminate|].
      injection H as <- <- <- <-. auto. }
    destruct (_ || _) eqn:Ek; [discriminate|].
    apply orb_false_iff in Ek as [_ Ek].
    unfold nvlist_lookup_string in *.
    destruct (nvlist_lookup props PROP_KEYLOCATION) as [[v|kl]|] eqn:El;
      cbn [is_some andb] in Ek.
    + destruct (Z.eqb_spec (create_keyformat props) ZFS_KEYFORMAT_NONE)
        as [Hk|Hk].
      * injection H as <- <- <- <-. auto.
      * apply new_key_outcome in H as (wkey & -> & -> & Hlen & Hkl).
        rewrite Hkl, nvlist_lookup_add_same. auto.
    + apply new_key_outcome in H as (wkey & -> & -> & Hlen & Hkl).
      rewrite Hkl, El. cbn [opt_default].
      repeat split; auto. now apply Z.eqb_neq.
    + destruct (Z.eqb_spec (create_keyformat props) ZFS_KEYFORMAT_NONE)
        as [Hk|Hk].
      * injection H as <- <- <- <-. auto.
      * apply new_key_outcome in H as (wkey & -> & -> & Hlen & Hkl).
        rewrite Hkl, nvlist_lookup_add_same. auto.
Qed.

Lemma X18_witness :
  32 = WRAPPING_KEY_LEN
  /\ Z.of_nat (length Fixture.right_key) = WRAPPING_KEY_LEN
  /\ create_keyformat Scenario.hex_root <> ZFS_KEYFORMAT_NONE
  /\ nvlist_lookup_string Scenario.hex_root PROP_KEYLOCATION
     = Some (opt_default "prompt"
               (nvlist_lookup_string Scenario.hex_root PROP_KEYLOCATION)).
Proof.
  apply (X18_create_outcome Fixture.hmac_sha1 (Fixture.world_of false [])
           (Fixture.world_of false []) Scenario.hex_root Scenario.hex_root []
           (Some "pool") (Some Fixture.right_key) 32).
  vm_compute. reflexivity.
Defined.

Section Clone.
Variable crypto_mac : list Z -> list Z -> option (list Z).

(** [zfs_crypto_clone] once the parent is found. *)
Lemma zfs_crypto_clone_found origin_zhp parent_name pzhp w props :
  make_dataset_handle w parent_name = Some pzhp ->
  zfs_crypto_clone crypto_mac origin_zhp parent_name (w, props)
  = let pcrypt := zh_encryption pzhp in
    let ocrypt := zh_encryption origin_zhp in
    let keyformat := create_keyformat props in
    let keylocation := nvlist_lookup_string props PROP_KEYLOCATION in
    if is_some (nvlist_lookup_uint64 props PROP_ENCRYPTION) then
      (Err EINVAL,
       (set_desc "Encryption may not be specified during cloning." w, props))
    else if negb (pcrypt =? ZIO_CRYPT_OFF) && (ocrypt =? ZIO_CRYPT_OFF) then
      (Err EINVAL,
       (set_desc
          "Cannot create unencrypted clone as child of encrypted parent." w,
        props))
    else if ocrypt =? ZIO_CRYPT_OFF then
      if proplist_has_encryption_props props then
        (Err EINVAL,
         (set_desc
            "Encryption properties may not be set for an unencrypted clone." w,
          props))
      else (Ok (None, 0), (w, props))
    else if is_some keylocation && (keyformat =? ZFS_KEYFORMAT_NONE) then
      (Err EINVAL,
       (set_desc "Keyformat required for new encryption root." w, props))
    else
      let default_prompt :=
        negb (keyformat =? ZFS_KEYFORMAT_NONE) && negb (is_some keylocation) in
      let props1 :=
        if default_prompt
        then nvlist_add props PROP_KEYLOCATION (NvString "prompt") else props in
      if negb (zh_keystatus origin_zhp =? ZFS_KEYSTATUS_AVAILABLE) then
        (Err EACCES,
         (set_desc "Origin wrapping key must be loaded." w, props1))
      else if (pcrypt =? ZIO_CRYPT_OFF) && (keyformat =? ZFS_KEYFORMAT_NONE)
      then (Err EINVAL, (set_desc "Keyformat required." w, props1))
      else
        match (if default_prompt then Some "prompt" else keylocation) with
        | Some kl =>
            (wkey <- populate_create_encryption_params_nvlists crypto_mac None
                       false keyformat kl ;;
             ret (Some wkey, WRAPPING_KEY_LEN)) (w, props1)
        | None => (Ok (None, 0), (w, props1))
        end.
Proof.
  intros Hmk. unfold zfs_crypto_clone. cbv zeta.
  unfold bind at 1. unfold liftW at 1, get at 1. cbn [fst snd]. rewrite Hmk.
  unfold bind at 1. unfold get_props, get at 1. cbn [snd].
  fold (create_keyformat props).
  destruct (is_some (nvlist_lookup_uint64 props PROP_ENCRYPTION));
    [reflexivity|].
  destruct (negb (zh_encryption pzhp =? ZIO_CRYPT_OFF)
            && (zh_encryption origin_zhp =? ZIO_CRYPT_OFF)); [reflexivity|].
  destruct (zh_encryption origin_zhp =? ZIO_CRYPT_OFF).
  { destruct (proplist_has_encryption_props props); reflexivity. }
  destruct (is_some (nvlist_lookup_string props PROP_KEYLOCATION)
            && (create_keyformat props =? ZFS_KEYFORMAT_NONE)); [reflexivity|].
  destruct (negb (create_keyformat props =? ZFS_KEYFORMAT_NONE)
            && negb (is_some (nvlist_lookup_string props PROP_KEYLOCATION))).
  - unfold bind at 1. unfold bind at 1. unfold set_props, modify at 1.
    cbn [fst snd]. unfold ret at 1.
    destruct (negb (zh_keystatus origin_zhp =? ZFS_KEYSTATUS_AVAILABLE));
      [reflexivity|].
    destruct ((zh_encryption pzhp =? ZIO_CRYPT_OFF)
              && (create_keyformat props =? ZFS_KEYFORMAT_NONE)); reflexivity.
  - unfold bind at 1. unfold ret at 1.
    destruct (negb (zh_keystatus origin_zhp =? ZFS_KEYSTATUS_AVAILABLE));
      [reflexivity|].
    destruct ((zh_encryption pzhp =? ZIO_CRYPT_OFF)
              && (create_keyformat props =? ZFS_KEYFORMAT_NONE));
      [reflexivity|].
    destruct (nvlist_lookup_string props PROP_KEYLOCATION); reflexivity.
Qed.

End Clone.

(** X19.  [zfs_crypto_clone] of an origin that is not encrypted (no
    [encryption] property given): refused with [EINVAL] below an encrypted
    parent and when the property list has encryption properties, accepted
    otherwise, with no key and no change. *)
Theorem X19_clone_unencrypted_origin :
  forall (crypto_mac : list Z -> list Z -> option (list Z))
         (origin_zhp pzhp : zfs_handle) (parent_name : string) (w : world)
         (props : nvlist),
    make_dataset_handle w parent_name = Some pzhp ->
    zh_encryption origin_zhp = ZIO_CRYPT_OFF ->
    nvlist_lookup_uint64 props PROP_ENCRYPTION = None ->
    zfs_crypto_clone crypto_mac origin_zhp parent_name (w, props)
    = if negb (zh_encryption pzhp =? ZIO_CRYPT_OFF) then
        (Err EINVAL,
         (set_desc
            "Cannot create unencrypted clone as child of encrypted parent." w,
          props))
      else if proplist_has_encryption_props props then
        (Err EINVAL,
         (set_desc
            "Encryption properties may not be set for an unencrypted clone." w,
          props))
      else (Ok (None, 0), (w, props)).
Proof.
  intros crypto_mac origin_zhp pzhp parent_name w props Hmk Ho He.
  rewrite (zfs_crypto_clone_found crypto_mac origin_zhp parent_name pzhp w
             props Hmk).
  cbv zeta. rewrite He, Ho. cbn [is_some]. rewrite Z.eqb_refl, andb_true_r.
  reflexivity.
Qed.

Lemma X19_witness :
  zfs_crypto_clone Fixture.hmac_sha1 Fixture.pool "pool"
    (Fixture.world_of false [], [])
  = (Ok (None, 0), (Fixture.world_of false [], [])).
Proof.
  apply (X19_clone_unencrypted_origin Fixture.hmac_sha1 Fixture.pool Fixture.pool
           "pool" (Fixture.world_of false []) [] eq_refl eq_refl eq_refl).
Defined.

(** X20.  What a successful [zfs_crypto_clone] implies: no [encryption]
    property was given, and the key of an encrypted origin is available.
    Without a new key the result has length 0 and nothing has changed; a new
    key is [WRAPPING_KEY_LEN] (32) bytes long, for an encrypted origin, with a
    [keyformat] other than none, and the property list holds the keylocation
    given, or [prompt] when none was given. *)
Theorem X20_clone_outcome :
  forall (crypto_mac : list Z -> list Z -> option (list Z))
         (origin_zhp : zfs_handle) (parent_name : string)
         (w w' : world) (props props' : nvlist)
         (okey : option (list Z)) (len : Z),
    zfs_crypto_clone crypto_mac origin_zhp parent_name (w, props)
    = (Ok (okey, len), (w', props')) ->
    nvlist_lookup_uint64 props PROP_ENCRYPTION = None
    /\ (zh_encryption origin_zhp <> ZIO_CRYPT_OFF ->
        zh_keystatus origin_zhp = ZFS_KEYSTATUS_AVAILABLE)
    /\ match okey with
       | None => len = 0 /\ w' = w /\ props' = props
       | Some wkey =>
           len = WRAPPING_KEY_LEN
           /\ Z.of_nat (length wkey) = WRAPPING_KEY_LEN
           /\ zh_encryption origin_zhp <> ZIO_CRYPT_OFF
           /\ create_keyformat props <> ZFS_KEYFORMAT_NONE
           /\ nvlist_lookup_string props' PROP_KEYLOCATION
              = Some (opt_default "prompt"
                        (nvlist_lookup_string props PROP_KEYLOCATION))
       end.
Proof.
  intros crypto_mac origin_zhp parent_name w w' props props' okey len H.
  destruct (make_dataset_handle w parent_name) as [pzhp|] eqn:Hmk.
  2:{ revert H. unfold zfs_crypto_clone.
      unfold bind at 1. unfold liftW at 1, get at 1. cbn [fst snd].
      rewrite Hmk. unfold liftW, fail_aux, zfs_error_aux. msimpl.
      discriminate. }
  rewrite (zfs_crypto_clone_found crypto_mac origin_zhp parent_name pzhp w
             props Hmk) in H.
  cbv zeta in H.
  destruct (nvlist_lookup_uint64 props PROP_ENCRYPTION) as [v|];
    cbn [is_some] in H; [discriminate|].
  split; [reflexivity|].
  destruct (negb (zh_encryption pzhp =? ZIO_CRYPT_OFF)
            && (zh_encryption origin_zhp =? ZIO_CRYPT_OFF)); [discriminate|].
  destruct (Z.eqb_spec (zh_encryption origin_zhp) ZIO_CRYPT_OFF) as [Ho|Ho].
  { destruct (proplist_has_encryption_props props); [discriminate|].
    injection H as <- <- <- <-. split; [intros ?; contradiction|auto]. }
  destruct (is_some (nvlist_lookup_string props PROP_KEYLOCATION)
            && (create_keyformat props =? ZFS_KEYFORMAT_NONE)) eqn:Ek;
    [discriminate|].
  destruct (Z.eqb_spec (zh_keystatus origin_zhp) ZFS_KEYSTATUS_AVAILABLE)
    as [Hs|Hs]; cbn [negb] in H; [|discriminate].
  split; [intros _; exact Hs|].
  destruct ((zh_encryption pzhp =? ZIO_CRYPT_OFF)
            && (create_keyformat props =? ZFS_KEYFORMAT_NONE)); [discriminate|].
  unfold nvlist_lookup_string in *.
  destruct (Z.eqb_spec (create_keyformat props) ZFS_KEYFORMAT_NONE) as [Hk|Hk];
    cbn [negb andb] in H.
  - destruct (nvlist_lookup props PROP_KEYLOCATION) as [[v|kl]|] eqn:El;
      cbn [is_some andb] in Ek; try discriminate;
      injection H as <- <- <- <-; auto.
  - destruct (nvlist_lookup props PROP_KEYLOCATION) as [[v|kl]|] eqn:El;
      cbn [is_some negb] in H.
    + apply new_key_outcome in H as (wkey & -> & -> & Hlen & Hkl).
      rewrite Hkl, nvlist_lookup_add_same. auto.
    + apply new_key_outcome in H as (wkey & -> & -> & Hlen & Hkl).
      rewrite Hkl, El. auto.
    + apply new_key_outcome in H as (wkey & -> & -> & Hlen & Hkl).
      rewrite Hkl, nvlist_lookup_add_same. auto.
Qed.

Lemma X20_witness :
  nvlist_lookup_uint64 (tl Scenario.hex_root) PROP_ENCRYPTION = None
  /\ (zh_encryption Fixture.vault <> ZIO_CRYPT_OFF ->
      zh_keystatus Fixture.vault = ZFS_KEYSTATUS_AVAILABLE)
  /\ 32 = WRAPPING_KEY_LEN
  /\ Z.of_nat (length Fixture.right_key) = WRAPPING_KEY_LEN
  /\ zh_encryption Fixture.vault <> ZIO_CRYPT_OFF
  /\ create_keyformat (tl Scenario.hex_root) <> ZFS_KEYFORMAT_NONE
  /\ nvlist_lookup_string (tl Scenario.hex_root) PROP_KEYLOCATION
     = Some (opt_default "prompt"
               (nvlist_lookup_string (tl Scenario.hex_root) PROP_KEYLOCATION)).
Proof.
  apply (X20_clone_outcome Fixture.hmac_sha1 Fixture.vault "pool"
           (Fixture.world_of false []) (Fixture.world_of false [])
           (tl Scenario.hex_root) (tl Scenario.hex_root)
           (Some Fixture.right_key) 32).
  vm_compute. reflexivity.
Defined.

(** X27.  The property list of [zfs_crypto_rewrap] for a new key: a property
    other than [keyformat], [keylocation] and [pbkdf2iters] is refused with
    [EINVAL] before anything is read; and when [zfs_valid_proplist] refuses a
    list of these properties, [zfs_crypto_verify_rewrap_nvlist] returns a
    value it never set. *)
Theorem X27_rewrap_property_list :
  forall (crypto_mac : list Z -> list Z -> option (list Z))
         (zhp : zfs_handle) (raw_props : nvlist) (w : world),
    zh_feature_enabled zhp = true ->
    zh_encryption zhp <> ZIO_CRYPT_OFF ->
    let r := zfs_crypto_rewrap crypto_mac zhp raw_props false w in
    ((exists name v,
        In (name, v) raw_props
        /\ name <> PROP_PBKDF2_ITERS /\ name <> PROP_KEYFORMAT
        /\ name <> PROP_KEYLOCATION) ->
     r = (Err EINVAL,
          set_desc
            "Only keyformat, keylocation and pbkdf2iters may be set with this command."
            w))
    /\ ((forall name v,
           In (name, v) raw_props ->
           name = PROP_PBKDF2_ITERS \/ name = PROP_KEYFORMAT
           \/ name = PROP_KEYLOCATION) ->
        zfs_valid_proplist w raw_props = None ->
        r = (Undef, w)).
Proof.
  intros crypto_mac zhp raw_props w Hf Hc r. subst r.
  rewrite rewrap_mode by assumption. cbn [negb].
  unfold rewrap_new_key, zfs_crypto_verify_rewrap_nvlist.
  split.
  - intros (name & v & Hin & H1 & H2 & H3).
    replace (forallb (fun p => rewrap_prop_allowed (fst p)) raw_props)
      with false; [reflexivity|].
    symmetry. apply not_true_is_false. intros Hall.
    rewrite forallb_forall in Hall. specialize (Hall _ Hin).
    cbn [fst] in Hall. unfold rewrap_prop_allowed in Hall.
    apply orb_prop in Hall as [Hall|Hall];
      [apply orb_prop in Hall as [Hall|Hall]|];
      apply String.eqb_eq in Hall; contradiction.
  - intros Hall Hv.
    replace (forallb (fun p => rewrap_prop_allowed (fst p)) raw_props)
      with true.
    + unfold bind, get. rewrite Hv. reflexivity.
    + symmetry. apply forallb_forall. intros [name v] Hin. cbn [fst].
      unfold rewrap_prop_allowed.
      destruct (Hall name v Hin) as [-> | [-> | ->]]; reflexivity.
Qed.

Lemma X27_witness :
  zfs_crypto_rewrap Fixture.hmac_sha1 Fixture.vault
    [(PROP_ENCRYPTION, NvUint64 ZIO_CRYPT_ON)] false (Fixture.world_of false [])
  = (Err EINVAL,
     set_desc
       "Only keyformat, keylocation and pbkdf2iters may be set with this command."
       (Fixture.world_of false [])).
Proof.
  apply (proj1 (X27_rewrap_property_list Fixture.hmac_sha1 Fixture.vault
                  [(PROP_ENCRYPTION, NvUint64 ZIO_CRYPT_ON)]
                  (Fixture.world_of false []) eq_refl ltac:(discriminate))).
  exists PROP_ENCRYPTION, (NvUint64 ZIO_CRYPT_ON).
  split; [now left|]. repeat split; discriminate.
Defined.

(** ** A key file and the prompt *)

(** X23.  Loading a hex key from a file: when the first line of the file is 64
    hexadecimal digits, [zfs_crypto_load_key] makes one call of
    [lzc_load_key], with the 32 bytes they encode, and returns what it
    answers; a refusal is not retried. *)
Theorem X23_load_hex_key_file :
  forall (crypto_mac : list Z -> list Z -> option (list Z))
         (zhp : zfs_handle) (noop : bool) (alt : option string)
         (content s : list Z) (w : world),
    load_ready zhp noop ->
    zh_keyformat zhp = ZFS_KEYFORMAT_HEX ->
    let kl := opt_default (zh_keylocation zhp) alt in
    zfs_prop_parse_keylocation kl = ZFS_KEYLOCATION_URI ->
    lookup_file (fs_files w) (uri_path kl) = Some content ->
    line_of content s ->
    is_hex_key s = true ->
    let key := hex_decode s in
    let e := lzc_load_key w (zfs_name zhp) noop key in
    let w1 := add_ioctl (IocLoadKey (zfs_name zhp) noop key) w in
    zfs_crypto_load_key crypto_mac zhp noop alt w
    = if e =? 0 then (Ok tt, w1)
      else (Err e, snd (load_key_ioctl_message e w1)).
Proof.
  intros crypto_mac zhp noop alt content s w R Hk kl Hp Hf Hline Hhex key e w1.
  rewrite zfs_crypto_load_key_ready by exact R. fold kl.
  rewrite load_key_attempt_step. unfold load_key_pass, get_key_material.
  rewrite Hk.
  destruct (get_key_material_km_file_line kl content s false false
              ZFS_KEYFORMAT_HEX (Some (zfs_name zhp)) w Hp Hf
              ltac:(discriminate) Hline) as [tail ->].
  rewrite validate_hex, Hhex.
  rewrite derive_key_hex by exact Hhex.
  unfold can_retry_of. rewrite Hp. cbv zeta. fold key. fold e. fold w1.
  destruct (e =? 0); reflexivity.
Qed.

Lemma X23_witness :
  zfs_crypto_load_key Fixture.hmac_sha1 (Fixture.secret "file:///right") false
    None (Fixture.world_of false [])
  = if lzc_load_key (Fixture.world_of false []) "pool/secret" false
         (hex_decode (repeat 97 64)) =? 0
    then (Ok tt,
          add_ioctl (IocLoadKey "pool/secret" false (hex_decode (repeat 97 64)))
            (Fixture.world_of false []))
    else (Err (lzc_load_key (Fixture.world_of false []) "pool/secret" false
                 (hex_decode (repeat 97 64))),
          snd (load_key_ioctl_message
                 (lzc_load_key (Fixture.world_of false []) "pool/secret" false
                    (hex_decode (repeat 97 64)))
                 (add_ioctl
                    (IocLoadKey "pool/secret" false
                       (hex_decode (repeat 97 64)))
                    (Fixture.world_of false [])))).
Proof.
  apply (X23_load_hex_key_file Fixture.hmac_sha1 (Fixture.secret "file:///right")
           false None Fixture.right_entry (repeat 97 64)
           (Fixture.world_of false []) (secret_load_ready "file:///right")
           eq_refl eq_refl eq_refl right_entry_line eq_refl).
Defined.

(** X4.  The prompt tells the request: two prompt lines for the same dataset
    that read the same were printed for the same key format, the same entry
    (first or repeated) and the same kind of key (new or existing). *)
Theorem X4_prompt_line_tells_the_request :
  forall (again again' newkey newkey' : bool) (keyformat keyformat' : Z)
         (fsname : option string) (line : string),
    prompt_line again newkey keyformat fsname = Ok line ->
    prompt_line again' newkey' keyformat' fsname = Ok line ->
    again = again' /\ newkey = newkey' /\ keyformat = keyformat'.
Proof.
  intros again again' newkey newkey' keyformat keyformat' fsname line.
  unfold prompt_line, get_format_prompt_string.
  destruct (Z.eqb_spec keyformat ZFS_KEYFORMAT_RAW) as [->|_];
    [|destruct (Z.eqb_spec keyformat ZFS_KEYFORMAT_HEX) as [->|_];
      [|destruct (Z.eqb_spec keyformat ZFS_KEYFORMAT_PASSPHRASE) as [->|_];
        [|discriminate]]];
    (destruct (Z.eqb_spec keyformat' ZFS_KEYFORMAT_RAW) as [->|_];
     [|destruct (Z.eqb_spec keyformat' ZFS_KEYFORMAT_HEX) as [->|_];
       [|destruct (Z.eqb_spec keyformat' ZFS_KEYFORMAT_PASSPHRASE) as [->|_];
         [|destruct fsname; discriminate]]]);
    destruct again, again', newkey, newkey', fsname;
    cbn [String.append]; intros [= <-] H; try discriminate H; auto.
Qed.

Lemma X4_witness :
  false = false /\ true = true /\ ZFS_KEYFORMAT_HEX = ZFS_KEYFORMAT_HEX.
Proof.
  apply (X4_prompt_line_tells_the_request false false true true
           ZFS_KEYFORMAT_HEX ZFS_KEYFORMAT_HEX (Some "pool/secret")
           "Enter new hex key for 'pool/secret': " eq_refl eq_refl).
Defined.

(** ** A new key for a dataset *)

Lemma framep_ret {B A} (f : world -> B) (a : A) : framep f (ret a).
Proof. intros s. reflexivity. Qed.

Lemma framep_liftW {B A} (f : world -> B) (c : M A) :
  frame f c -> framep f (liftW c).
Proof.
  intros H [w p]. unfold liftW. cbn [fst snd]. specialize (H w).
  now destruct (c w).
Qed.

Lemma framep_bind {B A C} (f : world -> B) (c : MP A) (k : A -> MP C) :
  framep f c -> (forall a, framep f (k a)) -> framep f (bind c k).
Proof.
  intros Hc Hk s. unfold bind. specialize (Hc s).
  destruct (c s) as [[a|e|] s']; cbn [snd] in *; try exact Hc.
  now rewrite Hk.
Qed.

Lemma framep_on_error {B A} (f : world -> B) (c : MP A) (h : MP unit) :
  framep f c -> framep f h -> framep f (on_error c h).
Proof.
  intros Hc Hh s. unfold on_error. specialize (Hc s).
  destruct (c s) as [[a|e|] s']; cbn [snd] in *; try exact Hc.
  now rewrite Hh.
Qed.

Lemma framep_set_props {B} (f : world -> B) g : framep f (set_props g).
Proof. intros s. reflexivity. Qed.

Lemma framep_populate {B} (f : world -> B) crypto_mac fsname newkey keyformat
      kl :
  io_independent f -> (forall r w, f (set_rand64 r w) = f w) ->
  framep f (populate_create_encryption_params_nvlists crypto_mac fsname newkey
              keyformat kl).
Proof.
  intros Hf Hr. pose proof Hf as (_ & _ & Hdesc).
  unfold populate_create_encryption_params_nvlists.
  apply framep_bind;
    [apply framep_liftW; now apply frame_get_key_material_km|].
  intros [km kmlen]. apply framep_bind;
    [|intros [iters salt]; apply framep_liftW; now apply frame_derive_key].
  destruct (keyformat =? ZFS_KEYFORMAT_PASSPHRASE).
  - apply framep_bind.
    { apply framep_on_error; apply framep_liftW.
      - unfold random_get_bytes. apply frame_bind; [apply frame_get|].
        intros [|v r].
        + apply frame_bind; [apply frame_get|intros; apply frame_fail].
        + apply frame_bind; [apply frame_modify, Hr|intros; apply frame_ret].
      - apply frame_modify, Hdesc. }
    intros salt. apply framep_bind; [apply framep_set_props|]. intros _.
    apply framep_bind; [intros s; reflexivity|]. intros props.
    destruct (nvlist_lookup_uint64 props PROP_PBKDF2_ITERS).
    + apply framep_ret.
    + apply framep_bind; [apply framep_liftW, frame_get|]. intros iters.
      apply framep_bind; [apply framep_set_props|]. intros _.
      apply framep_ret.
  - apply framep_bind; [intros s; reflexivity|]. intros props.
    destruct (nvlist_lookup_uint64 props PROP_PBKDF2_ITERS).
    + apply framep_liftW. now apply frame_fail_aux.
    + apply framep_ret.
Qed.

Lemma frame_rewrap_new_key {B} (f : world -> B) crypto_mac zhp raw_props :
  io_independent f -> (forall r w, f (set_rand64 r w) = f w) ->
  frame f (rewrap_new_key crypto_mac zhp raw_props).
Proof.
  intros Hf Hr. unfold rewrap_new_key.
  apply frame_bind.
  { unfold zfs_crypto_verify_rewrap_nvlist.
    destruct (forallb _ raw_props); [|now apply frame_fail_aux].
    apply frame_bind; [apply frame_get|]. intros valid.
    destruct (valid raw_props); [apply frame_ret|intros w; reflexivity]. }
  intros props. apply frame_bind.
  { destruct (nvlist_lookup_string props PROP_KEYLOCATION); [apply frame_ret|].
    destruct (negb _); [now apply frame_fail_aux|apply frame_ret]. }
  intros kl w.
  pose proof (framep_populate f crypto_mac (Some (zfs_name zhp)) true
                (if opt_default ZFS_KEYFORMAT_NONE
                      (nvlist_lookup_uint64 props PROP_KEYFORMAT)
                    =? ZFS_KEYFORMAT_NONE
                 then zh_keyformat zhp
                 else opt_default ZFS_KEYFORMAT_NONE
                        (nvlist_lookup_uint64 props PROP_KEYFORMAT))
                kl Hf Hr (w, props)) as H.
  cbn [fst] in H.
  destruct (populate_create_encryption_params_nvlists _ _ _ _ _ _)
    as [[wkey|e|] [w' props']]; exact H.
Qed.

(** X28.  [zfs_crypto_rewrap] for a new key either sends nothing to the
    storage layer and fails, or makes one call of [lzc_change_key]: with a
    wrapping key of [WRAPPING_KEY_LEN] (32) bytes and the validated properties
    (to which only the salt and the iteration count may have been added), for
    a dataset whose key is not unavailable; it returns 0 exactly when that
    call is answered 0. *)
Theorem X28_rewrap_new_key_call :
  forall (crypto_mac : list Z -> list Z -> option (list Z))
         (zhp : zfs_handle) (raw_props : nvlist) (w : world),
    zh_feature_enabled zhp = true ->
    zh_encryption zhp <> ZIO_CRYPT_OFF ->
    let r := zfs_crypto_rewrap crypto_mac zhp raw_props false w in
    (ioctls (snd r) = ioctls w /\ fst r <> Ok tt)
    \/ exists props wkey,
         ioctls (snd r)
         = ioctls w ++ [IocChangeKey (zfs_name zhp) (Some props) (Some wkey)]
         /\ Z.of_nat (length wkey) = WRAPPING_KEY_LEN
         /\ zh_keystatus zhp <> ZFS_KEYSTATUS_UNAVAILABLE
         /\ (exists valid_props,
               zfs_valid_proplist w raw_props = Some valid_props
               /\ forall name,
                    name <> PROP_PBKDF2_SALT -> name <> PROP_PBKDF2_ITERS ->
                    nvlist_lookup props name = nvlist_lookup valid_props name)
         /\ (fst r = Ok tt <->
             lzc_change_key w (zfs_name zhp) (Some props) (Some wkey) = 0).
Proof.
  intros crypto_mac zhp raw_props w Hf Hc r. subst r.
  rewrite rewrap_rekey_eq by assumption.
  pose proof (frame_rewrap_new_key ioctls crypto_mac zhp raw_props
                io_independent_ioctls ltac:(reflexivity) w) as FI.
  pose proof (frame_rewrap_new_key lzc_change_key crypto_mac zhp raw_props
                ltac:(repeat split) ltac:(reflexivity) w) as FC.
  destruct (rewrap_new_key crypto_mac zhp raw_props w)
    as [[[props wkey]|e|] w'] eqn:E; cbn [snd] in FI, FC.
  2,3: left; split; [exact FI|discriminate].
  destruct (Z.eqb_spec (zh_keystatus zhp) ZFS_KEYSTATUS_UNAVAILABLE) as [Hs|Hs].
  { left. split; [exact FI|discriminate]. }
  right. exists props, wkey.
  split; [rewrite change_key_call_ioctls; now rewrite FI|].
  assert (Hnk : Z.of_nat (length wkey) = WRAPPING_KEY_LEN
                /\ exists valid_props,
                     zfs_valid_proplist w raw_props = Some valid_props
                     /\ forall name,
                          name <> PROP_PBKDF2_SALT ->
                          name <> PROP_PBKDF2_ITERS ->
                          nvlist_lookup props name
                          = nvlist_lookup valid_props name).
  { revert E. unfold rewrap_new_key.
    intros E. apply bind_ok in E as (vp & w1 & E1 & E).
    apply bind_ok in E as (kl & w2 & E2 & E).
    assert (Hv : zfs_valid_proplist w raw_props = Some vp).
    { revert E1. unfold zfs_crypto_verify_rewrap_nvlist.
      destruct (forallb _ raw_props);
        [|unfold fail_aux, zfs_error_aux; msimpl; discriminate].
      unfold bind, get. destruct (zfs_valid_proplist w raw_props);
        [|discriminate]. now intros [= -> _]. }
    destruct (populate_create_encryption_params_nvlists _ _ _ _ _ _)
      as [[wk|e|] [w3 p3]] eqn:Ep; try discriminate.
    injection E as <- <- <-.
    pose proof (populate_ok crypto_mac _ _ _ _ _ _ _ _ _ Ep)
      as (km & kmlen & w4 & iters & salt & _ & _ & Hlen & Hkl & Hfmt).
    split; [now rewrite Hlen|]. exists vp. split; [exact Hv|].
    destruct (_ =? ZFS_KEYFORMAT_PASSPHRASE).
    - destruct Hfmt as (_ & _ & _ & _ & Hother). exact Hother.
    - destruct Hfmt as (_ & Hp & _). now rewrite Hp. }
  destruct Hnk as [Hlen Hvp].
  split; [exact Hlen|]. split; [exact Hs|]. split; [exact Hvp|].
  unfold change_key_call. cbv zeta. rewrite FC.
  destruct (Z.eqb_spec (lzc_change_key w (zfs_name zhp) (Some props)
                          (Some wkey)) 0) as [He|He].
  - now split.
  - split; [discriminate|]. intros ?; contradiction.
Qed.

Lemma X28_witness :
  (ioctls (snd Scenario.rekey) = ioctls (Fixture.world_of false [])
   /\ fst Scenario.rekey <> Ok tt)
  \/ exists props wkey,
       ioctls (snd Scenario.rekey)
       = ioctls (Fixture.world_of false [])
         ++ [IocChangeKey (zfs_name Fixture.vault) (Some props) (Some wkey)]
       /\ Z.of_nat (length wkey) = WRAPPING_KEY_LEN
       /\ zh_keystatus Fixture.vault <> ZFS_KEYSTATUS_UNAVAILABLE
       /\ (exists valid_props,
             zfs_valid_proplist (Fixture.world_of false [])
               Scenario.new_location = Some valid_props
             /\ forall name,
                  name <> PROP_PBKDF2_SALT -> name <> PROP_PBKDF2_ITERS ->
                  nvlist_lookup props name = nvlist_lookup valid_props name)
       /\ (fst Scenario.rekey = Ok tt <->
           lzc_change_key (Fixture.world_of false []) (zfs_name Fixture.vault)
             (Some props) (Some wkey) = 0).
Proof.
  apply (X28_rewrap_new_key_call Fixture.hmac_sha1 Fixture.vault
           Scenario.new_location (Fixture.world_of false []) eq_refl
           ltac:(discriminate)).
Defined.
